(** * Manga reader: archive extraction, page matching, session storage and
      overlap separation

    A shallow embedding of the JavaScript sources

      - the utility module     (FileUtils, StringUtils, Validation)
      - [file-manager.js]      (class FileManager)
      - [indexeddb-manager.js] (class IndexedDBManager)
      - [storage-manager.js]   (class StorageManager, class MangaReader)
      - [main.js]              (MangaReaderApp.startReading)

    Modelling conventions.

    - A JavaScript string is a [string]: a sequence of code units, here the
      code units below 256 (Latin-1).  [toLowerCase] is the Unicode lower-case
      map restricted to that range.
    - [async] functions are modelled by their sequential result: a rejected
      promise or a [throw] is the [Err] case of [result].
    - An object literal is a [JObj] with its properties in source order; an
      array is a [JArr].
    - Pixel quantities (style offsets, bounding rectangles) are exact
      rationals [Q].  The code computes them as doubles and rounds each sum
      and difference; the model does not.  The theorems on separation are
      about the sweeps, the steps, their directions, the totals of
      [movedTotals] and the saved originals; none bounds how far a
      position ends from where it started, which depends on that rounding.
    - [Date.now()] is an integer number of milliseconds, passed explicitly. *)

From Stdlib Require Import ZArith QArith Qminmax Qabs Lqa Lia.
From Stdlib Require Import List Permutation Sorted Ascii String.
From stdpp Require Import gmap strings list.

Open Scope string_scope.

(* ====================================================================== *)
(** * Errors *)
(* ====================================================================== *)

(** [throw new Error(msg)]: one constructor per message of the sources. *)
Inductive Error : Type :=
| AlreadyProcessing      (* 'Already processing a file' *)
| NoFileProvided         (* 'No file provided' *)
| NotAZipFile            (* 'Please upload a ZIP file' *)
| FileTooLarge           (* 'File too large. Maximum size is ...' *)
| EmptyZipFile           (* 'ZIP file appears to be empty' *)
| ZipLoadFailed          (* rejection of JSZip.loadAsync *)
| NoFilesInZip           (* 'ZIP file contains no files' *)
| NoValidImages          (* 'No valid image files found in ZIP' *)
| InvalidImage (filename : string)  (* 'Invalid image file: ...' *)
| EntryReadFailed        (* rejection of zipEntry.async *)
| SyntaxError            (* JSON.parse on malformed text *)
| TypeError              (* property read on null *)
| StructureError (msg : string)     (* validation.error *)
| NotInitialized.        (* 'IndexedDB not initialized' *)

Inductive result (A : Type) : Type :=
| Ok (a : A)
| Err (e : Error).
Arguments Ok {A} a.
Arguments Err {A} e.

#[global] Instance result_ret : MRet result := fun _ a => Ok a.

#[global] Instance result_bind : MBind result := fun _ _ k r =>
  match r with
  | Ok a => k a
  | Err e => Err e
  end.


(* ====================================================================== *)
(** * JavaScript strings *)
(* ====================================================================== *)

Module JsString.

Definition code (c : ascii) : N := N_of_ascii c.

Definition in_range (lo hi c : ascii) : bool :=
  (code lo <=? code c)%N && (code c <=? code hi)%N.

(** [\d], [[a-z]], [[A-Z]] *)
Definition is_digit (c : ascii) : bool := in_range "0" "9" c.
Definition is_lower (c : ascii) : bool := in_range "a" "z" c.
Definition is_upper (c : ascii) : bool := in_range "A" "Z" c.

(** Upper-case letters of Latin-1 outside ASCII: U+00C0..U+00DE but
    U+00D7 (the multiplication sign). *)
Definition is_upper_latin1 (c : ascii) : bool :=
  (192 <=? code c)%N && (code c <=? 222)%N && negb (code c =? 215)%N.

Definition lower_char (c : ascii) : ascii :=
  if is_upper c || is_upper_latin1 c then ascii_of_N (code c + 32) else c.

(** [String.prototype.toLowerCase] *)
Fixpoint toLowerCase (s : string) : string :=
  match s with
  | EmptyString => EmptyString
  | String c s' => String (lower_char c) (toLowerCase s')
  end.

(** [String.prototype.startsWith] *)
Fixpoint startsWith (s p : string) : bool :=
  match p, s with
  | EmptyString, _ => true
  | String _ _, EmptyString => false
  | String b p', String a s' => Ascii.eqb a b && startsWith s' p'
  end.

(** [String.prototype.includes] *)
Fixpoint includes (s sub : string) : bool :=
  match s with
  | EmptyString => startsWith EmptyString sub
  | String _ s' => startsWith s sub || includes s' sub
  end.

(** [String.prototype.endsWith]: some suffix of [s] is [suf]. *)
Fixpoint endsWith (s suf : string) : bool :=
  String.eqb s suf ||
  match s with
  | EmptyString => false
  | String _ s' => endsWith s' suf
  end.

Fixpoint has_char (sep : ascii) (s : string) : bool :=
  match s with
  | EmptyString => false
  | String c s' => Ascii.eqb c sep || has_char sep s'
  end.

(** [s.split(sep).pop()]: what follows the last [sep], all of [s] when
    there is none. *)
Fixpoint lastSegment (sep : ascii) (s : string) : string :=
  match s with
  | EmptyString => EmptyString
  | String c s' =>
      if has_char sep s' then lastSegment sep s'
      else if Ascii.eqb c sep then s' else s
  end.

Fixpoint filter (f : ascii -> bool) (s : string) : string :=
  match s with
  | EmptyString => EmptyString
  | String c s' => if f c then String c (filter f s') else filter f s'
  end.

Fixpoint map (f : ascii -> ascii) (s : string) : string :=
  match s with
  | EmptyString => EmptyString
  | String c s' => String (f c) (map f s')
  end.

Fixpoint dropWhile (f : ascii -> bool) (s : string) : string :=
  match s with
  | EmptyString => EmptyString
  | String c s' => if f c then dropWhile f s' else s
  end.

Fixpoint repeat (c : ascii) (n : nat) : string :=
  match n with
  | O => EmptyString
  | S n' => String c (repeat c n')
  end.

(** [s.padStart(n, '0')] *)
Definition padStart0 (n : nat) (s : string) : string :=
  repeat "0" (n - String.length s) ++ s.

(** Truthiness of a string: [!s] holds exactly for the empty string. *)
Definition truthy (s : string) : bool :=
  match s with EmptyString => false | _ => true end.

Definition mem (s : string) (l : list string) : bool :=
  existsb (String.eqb s) l.

End JsString.

(* ====================================================================== *)
(** * The utility module: FileUtils and StringUtils *)
(* ====================================================================== *)

Module FileUtils.
Import JsString.

Definition imageExtensions : list string :=
  ["jpg"; "jpeg"; "png"; "gif"; "webp"].

(** [isImage]: the text after the last dot of the lower-cased name is one
    of the image extensions. *)
Definition isImage (filename : string) : bool :=
  let ext := lastSegment "." (toLowerCase filename) in
  mem ext imageExtensions.

Definition isJSON (filename : string) : bool :=
  endsWith (toLowerCase filename) ".json".

(** The alternatives of [/\.(jpg|jpeg|png|gif|webp|json)$/i]. *)
Definition mediaExtensions : list string :=
  ["jpg"; "jpeg"; "png"; "gif"; "webp"; "json"].

Definition is_media_ext (rest : string) : bool :=
  mem (toLowerCase rest) mediaExtensions.

(** [filename.replace(/\.(jpg|jpeg|png|gif|webp|json)$/i, '')]: the match
    starts at a dot and runs to the end of the string; what precedes it is
    kept. *)
Fixpoint getBaseName (filename : string) : string :=
  match filename with
  | EmptyString => EmptyString
  | String c rest =>
      if Ascii.eqb c "." && is_media_ext rest then EmptyString
      else String c (getBaseName rest)
  end.

End FileUtils.

Module StringUtils.
Import JsString.

(** [[a-zA-Z0-9-_]] *)
Definition is_key_char (c : ascii) : bool :=
  is_lower c || is_upper c || is_digit c ||
  Ascii.eqb c "-" || Ascii.eqb c "_".

(** [str.replace(/[^a-zA-Z0-9-_]/g, '_').toLowerCase()] *)
Definition sanitize (str : string) : string :=
  toLowerCase (map (fun c => if is_key_char c then c else "_"%char) str).

(** [str.substring(0, n)] *)
Fixpoint substring0 (n : nat) (str : string) : string :=
  match n, str with
  | S n', String c rest => String c (substring0 n' rest)
  | _, _ => EmptyString
  end.

(** [truncate(str, length)] for a string [str]; [length] defaults to 50. *)
Definition truncate (str : string) (length : nat) : string :=
  if negb (truthy str) then EmptyString
  else if (String.length str <=? length)%nat then str
  else substring0 length str ++ "...".

End StringUtils.


(* ====================================================================== *)
(** * JavaScript values *)
(* ====================================================================== *)

(** Values that are parsed from JSON or handed to the structured-clone
    store.  [JObj] lists the own properties of an object in creation order;
    the objects built here have pairwise distinct property names. *)
#[warnings="-register-all"]
Inductive jsval : Type :=
| JNull
| JBool (b : bool)
| JNum (q : Q)
| JStr (s : string)
| JArr (items : list jsval)
| JObj (fields : list (string * jsval))
| JBlob (size : Z).

Module Js.

Fixpoint assoc (k : string) (fields : list (string * jsval)) : option jsval :=
  match fields with
  | [] => None
  | (k', v) :: rest => if String.eqb k k' then Some v else assoc k rest
  end.

(** [v.k] for a value [v] that is not [null]; [None] is [undefined].  The
    property names read by the sources on parsed data ([version],
    [img_width], [img_height], [blocks], [box], [lines]) are not built-in
    properties of arrays, strings, numbers or booleans, so only objects
    answer. *)
Definition get (v : jsval) (k : string) : option jsval :=
  match v with
  | JObj fields => assoc k fields
  | _ => None
  end.

(** [Object.keys(v)] *)
Definition keys (v : jsval) : list string :=
  match v with
  | JObj fields => List.map fst fields
  | _ => []
  end.

(** ToBoolean *)
Definition truthy (v : jsval) : bool :=
  match v with
  | JNull => false
  | JBool b => b
  | JNum q => negb (Qeq_bool q 0)
  | JStr s => JsString.truthy s
  | JArr _ | JObj _ | JBlob _ => true
  end.

Definition truthy_opt (v : option jsval) : bool :=
  match v with
  | Some v => truthy v
  | None => false
  end.

(** [typeof v === 'object'] *)
Definition is_object_type (v : jsval) : bool :=
  match v with
  | JNull | JArr _ | JObj _ | JBlob _ => true
  | _ => false
  end.

Definition num (z : Z) : jsval := JNum (inject_Z z).

End Js.

(* ====================================================================== *)
(** * file-manager.js *)
(* ====================================================================== *)

Module FileManager.
Import JsString.

Record Blob := { blob_size : Z }.

(** An uploaded [File]; [None] stands for a missing ([null]) file. *)
Record File := { file_type : string; file_name : string; file_size : Z }.

(** A member of [zipData.files]: [zipEntry.dir] and the outcomes of
    [zipEntry.async('blob')] and [zipEntry.async('text')]. *)
Record ZipEntry := {
  dir : bool;
  async_blob : result Blob;
  async_text : result string
}.

Record ImageData := {
  i_filename : string;
  i_blob : Blob;
  i_size : Z;
  i_type : string;
  i_baseName : string
}.

Record TranslationData := {
  t_filename : string;
  t_data : jsval;
  t_size : nat;
  t_type : string;
  t_baseName : string
}.

Record Page := {
  image : ImageData;
  translation : option TranslationData;
  hasTranslation : bool;
  pageIndex : nat
}.

Record CurrentFiles := {
  images : list ImageData;
  translations : list TranslationData;
  matched : list Page
}.

Definition noFiles : CurrentFiles :=
  {| images := []; translations := []; matched := [] |}.

(** The mutable fields of a [FileManager]. *)
Record State := {
  currentFiles : CurrentFiles;
  processing : bool
}.

Definition supportedImageTypes : list string :=
  ["jpg"; "jpeg"; "png"; "gif"; "webp"].

Definition maxFileSize : Z := 100 * 1024 * 1024.

(** The constructor. *)
Definition new : State := {| currentFiles := noFiles; processing := false |}.

(* -------------------------------------------------------------------- *)
(** ** Utility functions *)

Definition shouldSkipFile (filename : string) : bool :=
  let name := toLowerCase filename in
  if startsWith name "." || includes name "/." then true
  else if includes name "__macosx" || includes name "thumbs.db" then true
  else
    let ext := lastSegment "." name in
    if negb (mem ext supportedImageTypes) && negb (String.eqb ext "json")
    then true
    else false.

(** [filename.split('/').pop().split('\\').pop()] *)
Definition cleanFilename (filename : string) : string :=
  lastSegment "\" (lastSegment "/" filename).

(** [toLowerCase().replace(/[^a-z0-9]/g, '').replace(/^0+/, '')] *)
Definition normalizeFilename (filename : string) : string :=
  dropWhile (Ascii.eqb "0")
    (filter (fun c => is_lower c || is_digit c) (toLowerCase filename)).

(** [str.replace(/(\d+)/g, match => match.padStart(10, '0'))]: [run] is
    the maximal digit run read so far, flushed padded at its end. *)
Definition flush (run : string) : string :=
  match run with
  | EmptyString => EmptyString
  | _ => padStart0 10 run
  end.

Fixpoint normalize_from (run : string) (str : string) : string :=
  match str with
  | EmptyString => flush run
  | String c rest =>
      if is_digit c then normalize_from (run ++ String c EmptyString) rest
      else flush run ++ String c (normalize_from EmptyString rest)
  end.

Definition normalize (str : string) : string :=
  normalize_from EmptyString str.

(* -------------------------------------------------------------------- *)
(** ** Validation *)

Definition isValidImage (blob : Blob) : bool :=
  (0 <? blob_size blob)%Z && (blob_size blob <? 50 * 1024 * 1024)%Z.

Definition is_array (v : option jsval) : bool :=
  match v with
  | Some (JArr _) => true
  | _ => false
  end.

(** One turn of the loop over [data.blocks]: [Ok true] lets the loop go
    on, [Ok false] is [return false], and reading [block.box] on a [null]
    block throws. *)
Definition validBlock (block : jsval) : result bool :=
  match block with
  | JNull => Err TypeError
  | _ =>
      match Js.get block "box" with
      | Some (JArr box) =>
          if negb (length box =? 4)%nat then Ok false
          else Ok (is_array (Js.get block "lines"))
      | _ => Ok false
      end
  end.

Fixpoint validBlocks (blocks : list jsval) : result bool :=
  match blocks with
  | [] => Ok true
  | block :: rest =>
      ok ← validBlock block;
      if ok : bool then validBlocks rest else Ok false
  end.

Definition isValidMokuroJSON (data : jsval) : result bool :=
  if negb (Js.truthy data) || negb (Js.is_object_type data) then Ok false
  else if negb (Js.truthy_opt (Js.get data "version"))
       || negb (Js.truthy_opt (Js.get data "img_width"))
       || negb (Js.truthy_opt (Js.get data "img_height")) then Ok false
  else
    match Js.get data "blocks" with
    | Some (JArr blocks) => validBlocks blocks
    | _ => Ok false
    end.

Definition validateZipFile (file : option File) : result unit :=
  match file with
  | None => Err NoFileProvided
  | Some f =>
      if negb (String.eqb (file_type f) "application/zip")
         && negb (endsWith (toLowerCase (file_name f)) ".zip")
      then Err NotAZipFile
      else if (file_size f >? maxFileSize)%Z then Err FileTooLarge
      else if (file_size f =? 0)%Z then Err EmptyZipFile
      else Ok tt
  end.

(* -------------------------------------------------------------------- *)
(** ** Extraction *)

Section Extraction.

(** [JSON.parse]; [None] is a [SyntaxError]. *)
Variable JSON_parse : string -> option jsval.

Definition pushImage (cf : CurrentFiles) (i : ImageData) : CurrentFiles :=
  {| images := images cf ++ [i];
     translations := translations cf;
     matched := matched cf |}.

Definition pushTranslation (cf : CurrentFiles) (t : TranslationData)
  : CurrentFiles :=
  {| images := images cf;
     translations := translations cf ++ [t];
     matched := matched cf |}.

Definition imageData (filename : string) (blob : Blob) : ImageData :=
  {| i_filename := cleanFilename filename;
     i_blob := blob;
     i_size := blob_size blob;
     i_type := "image";
     i_baseName := FileUtils.getBaseName filename |}.

Definition translationData (filename textContent : string) (jsonData : jsval)
  : TranslationData :=
  {| t_filename := cleanFilename filename;
     t_data := jsonData;
     t_size := String.length textContent;
     t_type := "translation";
     t_baseName := FileUtils.getBaseName filename |}.

Definition processImageFile (filename : string) (zipEntry : ZipEntry)
    (cf : CurrentFiles) : result CurrentFiles :=
  blob ← async_blob zipEntry;
  if negb (isValidImage blob) then Err (InvalidImage filename)
  else Ok (pushImage cf (imageData filename blob)).

(** The body of the inner [try] of [processJSONFile]. *)
Definition parseAndStore (filename textContent : string) (cf : CurrentFiles)
  : result CurrentFiles :=
  match JSON_parse textContent with
  | None => Err SyntaxError
  | Some jsonData =>
      valid ← isValidMokuroJSON jsonData;
      if negb valid then Ok cf
      else Ok (pushTranslation cf (translationData filename textContent jsonData))
  end.

Definition processJSONFile (filename : string) (zipEntry : ZipEntry)
    (cf : CurrentFiles) : result CurrentFiles :=
  textContent ← async_text zipEntry;
  match parseAndStore filename textContent cf with
  | Ok cf' => Ok cf'
  | Err _ => Ok cf      (* catch: the malformed file is skipped *)
  end.

(** One turn of the [for] loop of [extractFiles]. *)
Definition extractEntry (cf : CurrentFiles) (entry : string * ZipEntry)
  : CurrentFiles :=
  let (filename, zipEntry) := entry in
  if dir zipEntry then cf
  else if shouldSkipFile filename then cf
  else
    let processed :=
      if FileUtils.isImage filename then processImageFile filename zipEntry cf
      else if FileUtils.isJSON filename then processJSONFile filename zipEntry cf
      else Ok cf in
    match processed with
    | Ok cf' => cf'
    | Err _ => cf       (* catch: go on with the other files *)
    end.

(** [extractFiles(zipData)] without a progress callback (its default);
    [zipData] lists [zipData.files] in [Object.keys] order.  The files
    collected so far stay in [currentFiles] when it throws. *)
Definition extractFiles (zipData : list (string * ZipEntry))
    (cf : CurrentFiles) : result unit * CurrentFiles :=
  match zipData with
  | [] => (Err NoFilesInZip, cf)
  | _ =>
      let cf' := fold_left extractEntry zipData cf in
      match images cf' with
      | [] => (Err NoValidImages, cf')
      | _ => (Ok tt, cf')
      end
  end.

End Extraction.

(* -------------------------------------------------------------------- *)
(** ** Matching *)

Section Matching.

(** The sign of [a.localeCompare(b)] in the host's default locale. *)
Variable localeCompare : string -> string -> comparison.

Definition naturalSort (a b : string) : comparison :=
  localeCompare (normalize a) (normalize b).

(** [Array.prototype.sort(compare)] is a stable sort: with a consistent
    comparator its result is the one stable sorted arrangement, which
    insertion from the right builds. *)
Fixpoint insert {A} (compare : A -> A -> comparison) (x : A) (l : list A)
  : list A :=
  match l with
  | [] => [x]
  | y :: l' =>
      match compare x y with
      | Gt => y :: insert compare x l'
      | _ => x :: l
      end
  end.

Fixpoint sort {A} (compare : A -> A -> comparison) (l : list A) : list A :=
  match l with
  | [] => []
  | x :: l' => insert compare x (sort compare l')
  end.

Definition findMatchingTranslation (translations : list TranslationData)
    (image : ImageData) : option TranslationData :=
  if negb (truthy (i_baseName image)) then None
  else
    let exactMatch :=
      List.find (fun trans => String.eqb (t_baseName trans) (i_baseName image))
                translations in
    match exactMatch with
    | Some t => Some t
    | None =>
        List.find (fun trans =>
                     let imageBase := normalizeFilename (i_baseName image) in
                     let transBase := normalizeFilename (t_baseName trans) in
                     String.eqb imageBase transBase)
                  translations
    end.

Definition is_some {A} (o : option A) : bool :=
  match o with Some _ => true | None => false end.

Definition pushPage (translations : list TranslationData)
    (matched : list Page) (image : ImageData) : list Page :=
  let matchingTranslation := findMatchingTranslation translations image in
  matched ++ [ {| image := image;
                  translation := matchingTranslation;
                  hasTranslation := is_some matchingTranslation;
                  pageIndex := length matched |} ].

Definition matchFiles (cf : CurrentFiles) : CurrentFiles :=
  let sorted :=
    sort (fun a b => naturalSort (i_filename a) (i_filename b)) (images cf) in
  {| images := sorted;
     translations := translations cf;
     matched := fold_left (pushPage (translations cf)) sorted [] |}.

End Matching.

(** [validateFileStructure]; the rounded coverage percentage of its
    [stats] is a floating-point value and is left out. *)
Inductive Validation :=
| Invalid (error : string)
| Valid (hasTranslations : bool) (totalPages pagesWithTranslations : nat).

Definition validateFileStructure (cf : CurrentFiles) : Validation :=
  match images cf with
  | [] => Invalid "No image files found"
  | _ =>
      match matched cf with
      | [] => Invalid "No pages could be processed"
      | _ =>
          Valid (existsb hasTranslation (matched cf))
                (length (matched cf))
                (length (List.filter hasTranslation (matched cf)))
      end
  end.

(* -------------------------------------------------------------------- *)
(** ** ZIP file processing *)

Record Stats := {
  imageCount : nat;
  translationCount : nat;
  matchedCount : nat;
  totalSize : Z
}.

(** The object returned by [processZipFile]. *)
Record ZipResult := {
  success : bool;
  r_images : list ImageData;
  r_translations : list TranslationData;
  r_matched : list Page;
  stats : Stats
}.

Section Processing.

Variable JSON_parse : string -> option jsval.
Variable localeCompare : string -> string -> comparison.

(** [new JSZip().loadAsync(file)]: the entries of the archive. *)
Variable loadAsync : File -> result (list (string * ZipEntry)).

Definition zipResult (cf : CurrentFiles) (file : File) : ZipResult :=
  {| success := true;
     r_images := images cf;
     r_translations := translations cf;
     r_matched := matched cf;
     stats := {| imageCount := length (images cf);
                 translationCount := length (translations cf);
                 matchedCount := length (matched cf);
                 totalSize := file_size file |} |}.

(** The [try] block of [processZipFile], started on the emptied
    [currentFiles]; it yields the outcome and the [currentFiles] left
    behind. *)
Definition processBody (file : option File) : result ZipResult * CurrentFiles :=
  match validateZipFile file, file with
  | Err e, _ => (Err e, noFiles)
  | Ok _, None => (Err NoFileProvided, noFiles)  (* validation threw already *)
  | Ok _, Some f =>
      match loadAsync f with
      | Err e => (Err e, noFiles)
      | Ok zipData =>
          match extractFiles JSON_parse zipData noFiles with
          | (Err e, cf) => (Err e, cf)
          | (Ok _, cf) =>
              let cf' := matchFiles localeCompare cf in
              match validateFileStructure cf' with
              | Invalid error => (Err (StructureError error), cf')
              | Valid _ _ _ => (Ok (zipResult cf' f), cf')
              end
          end
      end
  end.

Definition processZipFile (st : State) (file : option File)
  : result ZipResult * State :=
  if processing st then (Err AlreadyProcessing, st)
  else
    let (outcome, cf) := processBody file in
    (outcome, {| currentFiles := cf; processing := false |}).

End Processing.

(* -------------------------------------------------------------------- *)
(** ** The returned object as a value *)

Definition blob_js (b : Blob) : jsval := JBlob (blob_size b).

Definition image_js (i : ImageData) : jsval :=
  JObj [ ("filename", JStr (i_filename i));
         ("blob", blob_js (i_blob i));
         ("size", Js.num (i_size i));
         ("type", JStr (i_type i));
         ("baseName", JStr (i_baseName i)) ].

Definition translation_js (t : TranslationData) : jsval :=
  JObj [ ("filename", JStr (t_filename t));
         ("data", t_data t);
         ("size", Js.num (Z.of_nat (t_size t)));
         ("type", JStr (t_type t));
         ("baseName", JStr (t_baseName t)) ].

Definition page_js (p : Page) : jsval :=
  JObj [ ("image", image_js (image p));
         ("translation",
           match translation p with
           | Some t => translation_js t
           | None => JNull
           end);
         ("hasTranslation", JBool (hasTranslation p));
         ("pageIndex", Js.num (Z.of_nat (pageIndex p))) ].

Definition stats_js (s : Stats) : jsval :=
  JObj [ ("imageCount", Js.num (Z.of_nat (imageCount s)));
         ("translationCount", Js.num (Z.of_nat (translationCount s)));
         ("matchedCount", Js.num (Z.of_nat (matchedCount s)));
         ("totalSize", Js.num (totalSize s)) ].

Definition result_js (r : ZipResult) : jsval :=
  JObj [ ("success", JBool (success r));
         ("images", JArr (List.map image_js (r_images r)));
         ("translations", JArr (List.map translation_js (r_translations r)));
         ("matched", JArr (List.map page_js (r_matched r)));
         ("stats", stats_js (stats r)) ].

(* -------------------------------------------------------------------- *)
(** ** Public API *)

(** [getPage(index)] for an integer [index]; [None] is [null]. *)
Definition getPage (st : State) (index : Z) : option Page :=
  if (index <? 0)%Z
     || (index >=? Z.of_nat (length (matched (currentFiles st))))%Z
  then None
  else matched (currentFiles st) !! Z.to_nat index.

Definition getPageCount (st : State) : nat :=
  length (matched (currentFiles st)).

End FileManager.

(* ====================================================================== *)
(** * storage-manager.js: class MangaReader, overlap separation *)
(* ====================================================================== *)

Module MangaReader.

Open Scope Q_scope.

(** A rendered [.translation-block]: [style.left] and [style.top] in
    pixels, and the size of its box.  The block is absolutely positioned in
    the overlay and its size does not depend on its offsets. *)
Record Block := {
  b_left : Q;
  b_top : Q;
  b_width : Q;
  b_height : Q
}.

Record DOMRect := {
  r_left : Q;
  r_top : Q;
  r_width : Q;
  r_height : Q
}.

Definition r_right (r : DOMRect) : Q := r_left r + r_width r.
Definition r_bottom (r : DOMRect) : Q := r_top r + r_height r.

(** [el.getBoundingClientRect()] for a block of the overlay. *)
Definition getBoundingClientRect (overlayRect : DOMRect) (el : Block) : DOMRect :=
  {| r_left := r_left overlayRect + b_left el;
     r_top := r_top overlayRect + b_top el;
     r_width := b_width el;
     r_height := b_height el |}.

(** The blocks of the overlay in document order (an element is named by
    its index), the rectangle of the overlay, and the fields
    [separationEnabled] and [_originalPositions]. *)
Record Reader := {
  blocks : list Block;
  overlay : DOMRect;
  separationEnabled : bool;
  originalPositions : gmap nat (Q * Q)
}.

Definition padding : Q := 2.
Definition maxPairStep : Q := 6.
Definition maxTotal : Q := 24.
Definition maxIterations : nat := 10.
Definition margin : Q := 4.

Definition rectsOverlap (a b : DOMRect) : bool :=
  negb (Qle_bool (r_right a) (r_left b) || Qle_bool (r_right b) (r_left a)
        || Qle_bool (r_bottom a) (r_top b) || Qle_bool (r_bottom b) (r_top a)).

(** [_nudgeWithinOverlay(el, dx, dy, overlayRect)]: the offsets asked for,
    clamped into the overlay.  The sums are exact here; the code rounds
    them to doubles. *)
Definition nudgeWithinOverlay (el : Block) (dx dy : Q) (overlayRect : DOMRect)
  : Block :=
  let left := b_left el + dx in
  let top := b_top el + dy in
  let rect := getBoundingClientRect overlayRect el in
  let minLeft := margin in
  let minTop := margin in
  let maxLeft := r_width overlayRect - r_width rect - margin in
  let maxTop := r_height overlayRect - r_height rect - margin in
  {| b_left := Qmax minLeft (Qmin maxLeft left);
     b_top := Qmax minTop (Qmin maxTop top);
     b_width := b_width el;
     b_height := b_height el |}.

Definition ensureSavedOriginal (orig : gmap nat (Q * Q)) (i : nat) (el : Block)
  : gmap nat (Q * Q) :=
  match orig !! i with
  | Some _ => orig
  | None => <[i := (b_left el, b_top el)]> orig
  end.

(** The state of one run of [applySeparation]: the blocks, the saved
    originals and the local map [movedTotals]. *)
Record Sep := {
  s_blocks : list Block;
  s_original : gmap nat (Q * Q);
  s_moved : gmap nat Q
}.

(** [movedTotals.get(el) || 0] *)
Definition movedOf (moved : gmap nat Q) (i : nat) : Q :=
  match moved !! i with
  | Some q => q
  | None => 0
  end.

Definition addMoved (moved : gmap nat Q) (i : nat) (dx dy : Q) : gmap nat Q :=
  let prev := movedOf moved i in
  <[i := prev + Qabs dx + Qabs dy]> moved.

Inductive Axis := AxisX | AxisY.

Definition penetrationX (ra rb : DOMRect) : Q :=
  Qmax 0 (Qmin (r_right ra) (r_right rb) - Qmax (r_left ra) (r_left rb)).

Definition penetrationY (ra rb : DOMRect) : Q :=
  Qmax 0 (Qmin (r_bottom ra) (r_bottom rb) - Qmax (r_top ra) (r_top rb)).

Definition pushAxis (ra rb : DOMRect) : Axis :=
  if Qle_bool (penetrationX ra rb) (penetrationY ra rb) then AxisX else AxisY.

(** The step of a pair: half of the needed distance, within what each of
    the two elements may still move. *)
Definition pairStep (moved : gmap nat Q) (i j : nat) (ra rb : DOMRect) : Q :=
  let needed :=
    Qmin ((match pushAxis ra rb with
           | AxisX => penetrationX ra rb
           | AxisY => penetrationY ra rb
           end) + padding) maxPairStep in
  let step := needed / 2 in
  let capA := Qmax 0 (maxTotal - movedOf moved i) in
  let capB := Qmax 0 (maxTotal - movedOf moved j) in
  Qmin (Qmin step capA) capB.

(** The direction in which [b] leaves [a] on the push axis. *)
Definition pushDir (axis : Axis) (ra rb : DOMRect) : Q :=
  match axis with
  | AxisX =>
      let acx := r_left ra + r_width ra / 2 in
      let bcx := r_left rb + r_width rb / 2 in
      if Qle_bool acx bcx then 1 else -1
  | AxisY =>
      let acy := r_top ra + r_height ra / 2 in
      let bcy := r_top rb + r_height rb / 2 in
      if Qle_bool acy bcy then 1 else -1
  end.

(** The displacement asked of an element on an axis. *)
Definition along (axis : Axis) (d : Q) : Q * Q :=
  match axis with
  | AxisX => (d, 0)
  | AxisY => (0, d)
  end.

(** The body of the inner loop for the pair [(i, j)]; the flag tells
    whether the pair was pushed ([any = true]). *)
Definition separatePair (overlayRect : DOMRect) (s : Sep) (p : nat * nat)
  : Sep * bool :=
  let (i, j) := p in
  match s_blocks s !! i, s_blocks s !! j with
  | Some a, Some b =>
      let ra := getBoundingClientRect overlayRect a in
      let rb := getBoundingClientRect overlayRect b in
      if negb (rectsOverlap ra rb) then (s, false)
      else
        let axis := pushAxis ra rb in
        let step := pairStep (s_moved s) i j ra rb in
        if Qle_bool step 0 then (s, false)
        else
          let orig := ensureSavedOriginal
                        (ensureSavedOriginal (s_original s) i a) j b in
          let dir := pushDir axis ra rb in
          let (dxa, dya) := along axis (- dir * step) in
          let (dxb, dyb) := along axis (dir * step) in
          let a' := nudgeWithinOverlay a dxa dya overlayRect in
          let b' := nudgeWithinOverlay b dxb dyb overlayRect in
          ({| s_blocks := <[j := b']> (<[i := a']> (s_blocks s));
              s_original := orig;
              s_moved := addMoved (addMoved (s_moved s) i dxa dya) j dxb dyb |},
           true)
  | _, _ => (s, false)
  end.

(** The index pairs [i < j < n] in the order of the two nested loops. *)
Definition pairs (n : nat) : list (nat * nat) :=
  flat_map (fun i => List.map (fun j => (i, j)) (seq (S i) (n - S i))) (seq 0 n).

Definition sweepStep (overlayRect : DOMRect) (acc : Sep * bool) (p : nat * nat)
  : Sep * bool :=
  let (s, any) := acc in
  let (s', pushed) := separatePair overlayRect s p in
  (s', any || pushed).

(** One sweep: the body of the outer [for] loop, with its flag [any]. *)
Definition sweep (overlayRect : DOMRect) (s : Sep) : Sep * bool :=
  fold_left (sweepStep overlayRect) (pairs (length (s_blocks s))) (s, false).

(** At most [fuel] sweeps, with the [any] flag of each sweep that ran. *)
Fixpoint sweeps (fuel : nat) (overlayRect : DOMRect) (s : Sep)
  : Sep * list bool :=
  match fuel with
  | O => (s, [])
  | S fuel' =>
      let (s1, any) := sweep overlayRect s in
      if any then
        let (s2, flags) := sweeps fuel' overlayRect s1 in
        (s2, any :: flags)
      else (s1, [any])
  end.

(** The run of [applySeparation] on the blocks of the overlay, with the
    trace of its sweeps. *)
Definition separate (r : Reader) : Sep * list bool :=
  let start := {| s_blocks := blocks r;
                  s_original := originalPositions r;
                  s_moved := ∅ |} in
  match blocks r with
  | [] => (start, [])
  | _ => sweeps maxIterations (overlay r) start
  end.

Definition applySeparation (r : Reader) : Reader :=
  let (s, _) := separate r in
  {| blocks := s_blocks s;
     overlay := overlay r;
     separationEnabled := separationEnabled r;
     originalPositions := s_original s |}.

(** [restoreOriginalPositions]: every element of [_originalPositions]
    gets its saved offsets back, and the map is cleared. *)
Definition restoreBlock (orig : gmap nat (Q * Q)) (i : nat) (el : Block) : Block :=
  match orig !! i with
  | Some (l, t) =>
      {| b_left := l; b_top := t;
         b_width := b_width el; b_height := b_height el |}
  | None => el
  end.

Definition restoreOriginalPositions (r : Reader) : Reader :=
  {| blocks := imap (restoreBlock (originalPositions r)) (blocks r);
     overlay := overlay r;
     separationEnabled := separationEnabled r;
     originalPositions := ∅ |}.

Definition toggleSeparation (r : Reader) : Reader :=
  let r' := {| blocks := blocks r;
               overlay := overlay r;
               separationEnabled := negb (separationEnabled r);
               originalPositions := originalPositions r |} in
  if separationEnabled r' then applySeparation r'
  else restoreOriginalPositions r'.

(** The distance between two placements of a block, in the measure of
    [movedTotals] (the sum of the absolute offsets). *)
Definition displacement (before after : Block) : Q :=
  Qabs (b_left after - b_left before) + Qabs (b_top after - b_top before).

End MangaReader.

(** Lexicographic comparison by code unit: a collation with which the
    definitions can be run. *)
Fixpoint codeUnitCompare (a b : string) : comparison :=
  match a, b with
  | EmptyString, EmptyString => Eq
  | EmptyString, String _ _ => Lt
  | String _ _, EmptyString => Gt
  | String x a', String y b' =>
      match (JsString.code x ?= JsString.code y)%N with
      | Eq => codeUnitCompare a' b'
      | c => c
      end
  end.

(* ====================================================================== *)
(** * indexeddb-manager.js *)
(* ====================================================================== *)

Module IndexedDBManager.

(** A record of the object store [mangaSeries], whose key path is [name]. *)
Record SeriesData := {
  name : string;
  files : jsval;
  uploadDate : Z;
  expiresAt : Z
}.

(** The object literal of [storeSeries] as the value handed to
    [store.put]. *)
Definition seriesData_js (d : SeriesData) : jsval :=
  JObj [ ("name", JStr (name d));
         ("files", files d);
         ("uploadDate", Js.num (uploadDate d));
         ("expiresAt", Js.num (expiresAt d)) ].

(** [this.db]: [None] before [init], then the content of the object
    store. *)
Definition DB := option (gmap string SeriesData).

(** [storeSeries(name, files)]; [now1] and [now2] are the two readings of
    [Date.now()] in the object literal.  The promise resolves once the
    transaction has completed. *)
Definition storeSeries (db : DB) (name : string) (files : jsval)
    (now1 now2 : Z) : result (gmap string SeriesData) :=
  match db with
  | None => Err NotInitialized
  | Some store =>
      let seriesData :=
        {| name := name;
           files := files;
           uploadDate := now1;
           expiresAt := now2 + 24 * 60 * 60 * 1000 |} in
      Ok (<[name := seriesData]> store)
  end.

Definition deleteSeries (db : DB) (name : string)
  : result (gmap string SeriesData) :=
  match db with
  | None => Err NotInitialized
  | Some store => Ok (delete name store)
  end.

(** [getSeries(name)] at time [now]: the resolved value ([None] is
    [null]) and the object store after the deletion that an expired
    record starts. *)
Definition getSeries (db : DB) (name : string) (now : Z)
  : result (option SeriesData * gmap string SeriesData) :=
  match db with
  | None => Err NotInitialized
  | Some store =>
      match store !! name with
      | Some result =>
          if (expiresAt result <? now)%Z
          then Ok (None, delete name store)
          else Ok (Some result, store)
      | None => Ok (None, store)
      end
  end.

(** One turn of the cursor of [cleanupExpired] on a record: an expired
    record is deleted and counted. *)
Definition cleanupStep (now : Z) (acc : nat * gmap string SeriesData)
    (record : string * SeriesData) : nat * gmap string SeriesData :=
  let (deletedCount, store) := acc in
  let series := snd record in
  if (expiresAt series <? now)%Z
  then (S deletedCount, delete (fst record) store)
  else (deletedCount, store).

(** [cleanupExpired()] at time [now]: [None] when the database is not open
    (the function returns at once); else [deletedCount] and the object
    store that is left, once the cursor has visited every record. *)
Definition cleanupExpired (db : DB) (now : Z)
  : option (nat * gmap string SeriesData) :=
  match db with
  | None => None
  | Some store =>
      Some (fold_left (cleanupStep now) (map_to_list store) (0%nat, store))
  end.

End IndexedDBManager.

(* ====================================================================== *)
(** * Plain objects used as string-keyed maps *)
(* ====================================================================== *)

(** An ordinary object created by [JSON.parse] or by [{}], read and written
    with [o[k]].  The map holds its own properties; its prototype is
    [Object.prototype]. *)
Module PlainObject.

(** The properties of [Object.prototype]; all are truthy. *)
Definition objectPrototype : list string :=
  [ "constructor"; "__proto__"; "hasOwnProperty"; "isPrototypeOf";
    "propertyIsEnumerable"; "toLocaleString"; "toString"; "valueOf";
    "__defineGetter__"; "__defineSetter__"; "__lookupGetter__";
    "__lookupSetter__" ].

Inductive Property (V : Type) : Type :=
| Own (v : V)
| Inherited (k : string).
Arguments Own {V} v.
Arguments Inherited {V} k.

(** [o[k]]: an own property, else the one inherited from
    [Object.prototype], else [undefined]. *)
Definition get {V} (o : gmap string V) (k : string) : option (Property V) :=
  match o !! k with
  | Some v => Some (Own v)
  | None => if JsString.mem k objectPrototype then Some (Inherited k) else None
  end.

(** [o[k] = v] followed by [JSON.parse(JSON.stringify(o))]: the own
    properties that the assignment leaves.  Assigning to [__proto__] runs
    the setter of [Object.prototype], which replaces the prototype and
    creates no own property, unless the object has an own property of
    that name already. *)
Definition set {V} (o : gmap string V) (k : string) (v : V) : gmap string V :=
  if decide (k = "__proto__") then
    match o !! k with
    | Some _ => <[k := v]> o
    | None => o
    end
  else <[k := v]> o.

End PlainObject.

(* ====================================================================== *)
(** * storage-manager.js: class StorageManager *)
(* ====================================================================== *)

Module StorageManager.

(** The [progressData] argument of [saveProgress]. *)
Record ProgressData := {
  currentPage : Z;
  totalPages : Z;
  lastRead : Z
}.

Record ProgressRecord := {
  originalName : string;
  p_currentPage : Z;
  p_totalPages : Z;
  p_lastRead : Z;
  percentage : Z
}.

(** The item stored under [PROGRESS_KEY], parsed (absent: the empty
    object), and the cookie [current_manga_series]. *)
Record State := {
  progress : gmap string ProgressRecord;
  currentSeries : option string
}.

Definition getAllProgress (sm : State) : gmap string ProgressRecord :=
  progress sm.

Section Progress.

(** [Math.round((currentPage / totalPages) * 100)], a floating-point
    computation. *)
Variable roundPercent : Z -> Z -> Z.

(** [saveProgress(seriesName, progressData)] at time [now], for a
    [progressData] object with integer fields ([parseInt] returns them
    unchanged); the store accepts the write. *)
Definition saveProgress (sm : State) (seriesName : string)
    (progressData : ProgressData) (now : Z) : bool * State :=
  if negb (JsString.truthy seriesName) then (false, sm)
  else
    let progress := getAllProgress sm in
    let sanitizedName := StringUtils.sanitize seriesName in
    let record :=
      {| originalName := seriesName;
         p_currentPage := currentPage progressData;
         p_totalPages := totalPages progressData;
         p_lastRead :=
           if (lastRead progressData =? 0)%Z then now
           else lastRead progressData;
         percentage :=
           if (totalPages progressData >? 0)%Z
           then roundPercent (currentPage progressData)
                             (totalPages progressData)
           else 0%Z |} in
    (true,
     {| progress := PlainObject.set progress sanitizedName record;
        currentSeries := Some seriesName |}).

End Progress.

(** [getProgress(seriesName)]; [None] is [null]. *)
Definition getProgress (sm : State) (seriesName : string)
  : option (PlainObject.Property ProgressRecord) :=
  if negb (JsString.truthy seriesName) then None
  else
    let progress := getAllProgress sm in
    let sanitizedName := StringUtils.sanitize seriesName in
    PlainObject.get progress sanitizedName.

(** [removeProgress(seriesName)]: the returned flag and the state left. *)
Definition removeProgress (sm : State) (seriesName : string) : bool * State :=
  if negb (JsString.truthy seriesName) then (false, sm)
  else
    let progress := getAllProgress sm in
    let sanitizedName := StringUtils.sanitize seriesName in
    match PlainObject.get progress sanitizedName with
    | Some _ =>
        (true, {| progress := delete sanitizedName progress;
                  currentSeries := currentSeries sm |})
    | None => (false, sm)
    end.

(* -------------------------------------------------------------------- *)
(** ** Recent series *)

(** An element of the array stored under [RECENT_SERIES_KEY]. *)
Record RecentSeries := {
  id : string;
  name : string;
  stats : jsval;
  addedDate : Z
}.

(** [recentSeries.splice(recentSeries.findIndex(s => s.id === id), 1)],
    nothing being removed when no element has that [id]. *)
Fixpoint removeFirst (sanitizedName : string) (recentSeries : list RecentSeries)
  : list RecentSeries :=
  match recentSeries with
  | [] => []
  | s :: rest =>
      if String.eqb (id s) sanitizedName then rest
      else s :: removeFirst sanitizedName rest
  end.

(** [addRecentSeries(seriesName, stats)] at time [now] on the stored array
    (the second, effective definition of [getRecentSeries] reads it): the
    returned flag and the array written back. *)
Definition addRecentSeries (recentSeries : list RecentSeries)
    (seriesName : string) (stats : jsval) (now : Z)
  : bool * list RecentSeries :=
  if negb (JsString.truthy seriesName) then (false, recentSeries)
  else
    let sanitizedName := StringUtils.sanitize seriesName in
    let removed := removeFirst sanitizedName recentSeries in
    let added :=
      {| id := sanitizedName; name := seriesName;
         stats := stats; addedDate := now |} :: removed in
    let maxRecent := 10%nat in
    (true, if (maxRecent <? length added)%nat then take maxRecent added
           else added).

Definition removeRecentSeries (recentSeries : list RecentSeries)
    (seriesName : string) : bool * list RecentSeries :=
  if negb (JsString.truthy seriesName) then (false, recentSeries)
  else
    let sanitizedName := StringUtils.sanitize seriesName in
    (true,
     List.filter (fun s => negb (String.eqb (id s) sanitizedName)) recentSeries).

(* -------------------------------------------------------------------- *)
(** ** Settings *)

(** [this.settings] and the item stored under [SETTINGS_KEY], parsed
    ([None] when there is none).  A settings object is a map from property
    names to JSON values. *)
Record Settings := {
  settings : gmap string jsval;
  savedSettings : option (gmap string jsval)
}.

Definition defaultSettings : gmap string jsval :=
  list_to_map
    [ ("readingDirection", JStr "ltr");
      ("translationStyle", JStr "overlay");
      ("translationOpacity", Js.num 80);
      ("textSize", Js.num 16);
      ("fitToWidth", JBool true);
      ("hideUI", JBool false) ].

(** [{ ...a, ...b }]: the properties of [b], then those of [a] that [b]
    lacks. *)
Definition spread (a b : gmap string jsval) : gmap string jsval := b ∪ a.

Definition getSettings (st : Settings) : gmap string jsval :=
  let saved := match savedSettings st with
               | Some data => data
               | None => ∅
               end in
  spread defaultSettings saved.

(** [init()] leaves [this.settings = this.getSettings()]. *)
Definition initSettings (saved : option (gmap string jsval)) : Settings :=
  {| settings := getSettings {| settings := ∅; savedSettings := saved |};
     savedSettings := saved |}.

(** [saveSettings(settings)] for an object [settings]. *)
Definition saveSettings (st : Settings) (new : gmap string jsval)
  : bool * Settings :=
  let newSettings := spread (settings st) new in
  (true, {| settings := newSettings; savedSettings := Some newSettings |}).

(** [getSetting(key, defaultValue)]: a property read, so that a name that
    [this.settings] lacks but [Object.prototype] has is answered by the
    prototype. *)
Definition getSetting (st : Settings) (key : string) (defaultValue : jsval)
  : PlainObject.Property jsval :=
  match PlainObject.get (settings st) key with
  | Some v => v
  | None => PlainObject.Own defaultValue
  end.

End StorageManager.

(* ====================================================================== *)
(** * The utility module: Validation *)
(* ====================================================================== *)

Module Validation.
Import JsString.

(** White space and line terminators below U+0100. *)
Definition is_space (c : ascii) : bool :=
  ((9 <=? code c)%N && (code c <=? 13)%N) || (code c =? 32)%N || (code c =? 160)%N.

Fixpoint trimEnd (s : string) : string :=
  match s with
  | EmptyString => EmptyString
  | String c s' =>
      match trimEnd s' with
      | EmptyString => if is_space c then EmptyString else String c EmptyString
      | r => String c r
      end
  end.

Definition trim (s : string) : string := trimEnd (dropWhile is_space s).

(** [[a-zA-Z0-9\s\-_.,!?()[\]]] *)
Definition is_name_char (c : ascii) : bool :=
  is_lower c || is_upper c || is_digit c || is_space c ||
  existsb (Ascii.eqb c) (list_ascii_of_string "-_.,!?()[]").

Fixpoint all (f : ascii -> bool) (s : string) : bool :=
  match s with
  | EmptyString => true
  | String c s' => f c && all f s'
  end.

(** [Validation.seriesName(name)] for a string: the trimmed name, or the
    error message. *)
Definition seriesName (name : string) : string + string :=
  if negb (truthy name) then inr "Series name is required"
  else
    let trimmed := trim name in
    if (String.length trimmed <? 1)%nat then inr "Series name cannot be empty"
    else if (50 <? String.length trimmed)%nat
         then inr "Series name must be 50 characters or less"
    else if negb (all is_name_char trimmed)
         then inr "Series name contains invalid characters"
    else inl trimmed.

End Validation.

(* ====================================================================== *)
(** * main.js: MangaReaderApp.startReading *)
(* ====================================================================== *)

Module MangaReaderApp.

Section StartReading.

Variable roundPercent : Z -> Z -> Z.

(** [startReading()]: the progress store and the object store it leaves.
    [now0] is the reading of [Date.now()] for the progress record,
    [now1] and [now2] those of [storeSeries].  [addRecentSeries] writes
    the recent-series item only, which is not part of these states; a
    failure of the store is shown to the user and changes nothing. *)
Definition startReading
    (currentSeriesData : option FileManager.ZipResult)
    (seriesNameInput : string)
    (sm : StorageManager.State) (db : IndexedDBManager.DB)
    (now0 now1 now2 : Z)
  : StorageManager.State * IndexedDBManager.DB :=
  match currentSeriesData with
  | None => (sm, db)
  | Some data =>
      match Validation.seriesName seriesNameInput with
      | inr _ => (sm, db)
      | inl seriesName =>
          let (_, sm') :=
            StorageManager.saveProgress roundPercent sm seriesName
              {| StorageManager.currentPage := 0;
                 StorageManager.totalPages :=
                   Z.of_nat (FileManager.imageCount (FileManager.stats data));
                 StorageManager.lastRead := now0 |} now0 in
          match IndexedDBManager.storeSeries db seriesName
                  (FileManager.result_js data) now1 now2 with
          | Ok store => (sm', Some store)
          | Err _ => (sm', db)
          end
      end
  end.

End StartReading.

End MangaReaderApp.

(* ====================================================================== *)
(** * storage-manager.js: class MangaReader, page navigation *)
(* ====================================================================== *)

Module ReaderNavigation.

(** The fields of a [MangaReader] that navigation reads and writes:
    [this.files] as the number of its matched pages ([None] while it is
    [null]), [this.currentPage], [this.seriesName] and
    [this.settings.readingDirection]. *)
Record Nav := {
  files : option nat;
  currentPage : Z;
  seriesName : string;
  readingDirection : string
}.

Inductive Direction := prev | next.

Section Navigation.

Variable roundPercent : Z -> Z -> Z.

(** [saveProgress()] of the reader; [now] is the time of the call, which
    the reader reads for [lastRead]. *)
Definition saveProgress (nav : Nav) (sm : StorageManager.State) (now : Z)
  : StorageManager.State :=
  match files nav with
  | Some total =>
      if JsString.truthy (seriesName nav) then
        snd (StorageManager.saveProgress roundPercent sm (seriesName nav)
               {| StorageManager.currentPage := currentPage nav;
                  StorageManager.totalPages := Z.of_nat total;
                  StorageManager.lastRead := now |} now)
      else sm
  | None => sm
  end.

(** [goToPage(pageIndex)] for an integer [pageIndex]: the reader and the
    progress store it leaves (the page itself is drawn in the document). *)
Definition goToPage (nav : Nav) (sm : StorageManager.State) (pageIndex now : Z)
  : Nav * StorageManager.State :=
  match files nav with
  | None => (nav, sm)
  | Some total =>
      if (pageIndex <? 0)%Z || (pageIndex >=? Z.of_nat total)%Z then (nav, sm)
      else
        let nav' := {| files := files nav;
                       currentPage := pageIndex;
                       seriesName := seriesName nav;
                       readingDirection := readingDirection nav |} in
        (nav', saveProgress nav' sm now)
  end.

Definition previousPage (nav : Nav) (sm : StorageManager.State) (now : Z)
  : Nav * StorageManager.State :=
  match files nav with
  | None => (nav, sm)
  | Some _ =>
      if (currentPage nav <=? 0)%Z then (nav, sm)
      else goToPage nav sm (currentPage nav - 1) now
  end.

Definition nextPage (nav : Nav) (sm : StorageManager.State) (now : Z)
  : Nav * StorageManager.State :=
  match files nav with
  | None => (nav, sm)
  | Some total =>
      if (currentPage nav >=? Z.of_nat total - 1)%Z then (nav, sm)
      else goToPage nav sm (currentPage nav + 1) now
  end.

(** [handleNavClick(e, direction)] *)
Definition handleNavClick (nav : Nav) (sm : StorageManager.State)
    (direction : Direction) (now : Z) : Nav * StorageManager.State :=
  let actualDirection :=
    if String.eqb (readingDirection nav) "rtl"
    then match direction with prev => next | next => prev end
    else direction in
  match actualDirection with
  | prev => previousPage nav sm now
  | next => nextPage nav sm now
  end.

End Navigation.

(** The page at which [loadSeriesData] resumes:
    [progress?.currentPage || 0] for [progress = getProgress(seriesName)]. *)
Definition resumedPage (sm : StorageManager.State) (seriesName : string) : Z :=
  match StorageManager.getProgress sm seriesName with
  | Some (PlainObject.Own record) => StorageManager.p_currentPage record
  | _ => 0%Z
  end.

End ReaderNavigation.

(** [Math.round((currentPage / totalPages) * 100)] computed exactly, for
    [totalPages > 0]: a function with which the definitions can be run. *)
Definition exactRoundPercent (currentPage totalPages : Z) : Z :=
  ((200 * currentPage + totalPages) / (2 * totalPages))%Z.

(** The base name in the words of the specification: the directory path
    stripped, then the recognized media extension removed. *)
Definition spec_baseName (filename : string) : string :=
  FileUtils.getBaseName (FileManager.cleanFilename filename).

(** A well-formed translation document. *)
Definition sampleDocument : jsval :=
  JObj [ ("version", JStr "0.1.7");
         ("img_width", Js.num 800);
         ("img_height", Js.num 1200);
         ("blocks",
           JArr [ JObj [ ("box", JArr [Js.num 10; Js.num 20; Js.num 110; Js.num 80]);
                         ("lines", JArr [JStr "hello"]) ] ]) ].

(** A [JSON.parse] for examples: it knows one document. *)
Definition sampleParse (text : string) : option jsval :=
  if String.eqb text "{doc}" then Some sampleDocument else None.

Definition imageEntry (size : Z) : FileManager.ZipEntry :=
  {| FileManager.dir := false;
     FileManager.async_blob := Ok {| FileManager.blob_size := size |};
     FileManager.async_text := Err EntryReadFailed |}.

Definition textEntry (text : string) : FileManager.ZipEntry :=
  {| FileManager.dir := false;
     FileManager.async_blob := Err EntryReadFailed;
     FileManager.async_text := Ok text |}.

(** What the specification says an entry contributes: the image record of
    an entry that is a file, is not skipped, is named as an image, decodes
    and has a size strictly between 0 and 50 MiB; nothing otherwise. *)
Definition acceptedImage (entry : string * FileManager.ZipEntry)
  : option FileManager.ImageData :=
  let (filename, e) := entry in
  if FileManager.dir e || FileManager.shouldSkipFile filename
     || negb (FileUtils.isImage filename) then None
  else
    match FileManager.async_blob e with
    | Ok blob =>
        if FileManager.isValidImage blob
        then Some (FileManager.imageData filename blob)
        else None
    | Err _ => None
    end.

(** Likewise the translation record of an entry that is a file, is not
    skipped, is named as JSON and not as an image, decodes, parses and
    passes [isValidMokuroJSON]; nothing otherwise. *)
Definition acceptedTranslation (JSON_parse : string -> option jsval)
    (entry : string * FileManager.ZipEntry)
  : option FileManager.TranslationData :=
  let (filename, e) := entry in
  if FileManager.dir e || FileManager.shouldSkipFile filename
     || FileUtils.isImage filename || negb (FileUtils.isJSON filename) then None
  else
    match FileManager.async_text e with
    | Ok textContent =>
        match JSON_parse textContent with
        | Some jsonData =>
            match FileManager.isValidMokuroJSON jsonData with
            | Ok true =>
                Some (FileManager.translationData filename textContent jsonData)
            | _ => None
            end
        | None => None
        end
    | Err _ => None
    end.

(** Five image entries, the third of zero bytes. *)
Definition fiveImages : list (string * FileManager.ZipEntry) :=
  [ ("p1.jpg", imageEntry 100); ("p2.jpg", imageEntry 200);
    ("p3.jpg", imageEntry 0); ("p4.jpg", imageEntry 400);
    ("p5.jpg", imageEntry 500) ].

(** What is assumed of [localeCompare]: it is a consistent comparator (the
    opposite arguments give the opposite sign, and "not greater" is
    transitive), and two strings that first differ at decimal digits are
    ordered by those digits. *)
Class Collation (localeCompare : string -> string -> comparison) : Prop := {
  collation_antisym : forall a b,
    localeCompare b a = CompOpp (localeCompare a b);
  collation_trans : forall a b c,
    localeCompare a b <> Gt -> localeCompare b c <> Gt ->
    localeCompare a c <> Gt;
  collation_digits : forall p x y s s',
    JsString.is_digit x = true -> JsString.is_digit y = true ->
    (JsString.code x < JsString.code y)%N ->
    localeCompare (p ++ String x s) (p ++ String y s') = Lt
}.

(** The number that a digit run denotes. *)
Definition digitValue (c : ascii) : N := (JsString.code c - 48)%N.

Fixpoint numValue_from (acc : N) (d : string) : N :=
  match d with
  | EmptyString => acc
  | String c d' => numValue_from (10 * acc + digitValue c) d'
  end.

Definition numValue (d : string) : N := numValue_from 0 d.

Definition all_digits (d : string) : bool := Validation.all JsString.is_digit d.

(** Whether the last, respectively the first, character is a digit. *)
Fixpoint ends_with_digit (s : string) : bool :=
  match s with
  | EmptyString => false
  | String c EmptyString => JsString.is_digit c
  | String _ s' => ends_with_digit s'
  end.

Definition starts_with_digit (s : string) : bool :=
  match s with
  | EmptyString => false
  | String c _ => JsString.is_digit c
  end.

(** [prefix ++ run ++ rest] shows [run] as one of the digit runs of a name,
    of at most ten digits. *)
Definition digit_run_at (prefix run rest : string) : Prop :=
  ends_with_digit prefix = false
  /\ run <> EmptyString /\ all_digits run = true
  /\ (String.length run <= 10)%nat
  /\ starts_with_digit rest = false.

(** The page that [matchFiles] builds for the image at position [k]. *)
Definition pageOf (translations : list FileManager.TranslationData) (k : nat)
    (image : FileManager.ImageData) : FileManager.Page :=
  let matchingTranslation :=
    FileManager.findMatchingTranslation translations image in
  {| FileManager.image := image;
     FileManager.translation := matchingTranslation;
     FileManager.hasTranslation := FileManager.is_some matchingTranslation;
     FileManager.pageIndex := k |}.

(** [t] is the first element of [l] that satisfies [P]. *)
Definition first_with {A} (P : A -> Prop) (l : list A) (t : A) : Prop :=
  exists l1 l2, l = (l1 ++ t :: l2)%list /\ P t /\ forall x, In x l1 -> ~ P x.

Definition namedImage (filename : string) : FileManager.ImageData :=
  FileManager.imageData filename {| FileManager.blob_size := 1000 |}.

Definition imagesOnly (filenames : list string) : FileManager.CurrentFiles :=
  {| FileManager.images := List.map namedImage filenames;
     FileManager.translations := [];
     FileManager.matched := [] |}.

(** The file names of the pages that [matchFiles] builds, in page order. *)
Definition pageNames (localeCompare : string -> string -> comparison)
    (cf : FileManager.CurrentFiles) : list string :=
  List.map (fun p => FileManager.i_filename (FileManager.image p))
           (FileManager.matched (FileManager.matchFiles localeCompare cf)).

(** The pairing rule on a join key [key] of the translations: the first
    translation whose key is [base]; without one, the first translation
    whose normalized key is the normalized [base]; without one, none. *)
Definition pairedOn (key : FileManager.TranslationData -> string)
    (translations : list FileManager.TranslationData)
    (base : string) (found : option FileManager.TranslationData) : Prop :=
  let exact t := key t = base in
  let fuzzy t :=
    FileManager.normalizeFilename (key t) = FileManager.normalizeFilename base in
  (forall t, first_with exact translations t -> found = Some t)
  /\ ((forall t, In t translations -> ~ exact t) ->
      forall t, first_with fuzzy translations t -> found = Some t)
  /\ ((forall t, In t translations -> ~ fuzzy t) -> found = None).

(** The base name of the specification for a record: its [filename] is the
    entry name with the directory path stripped, and the recognized
    extension is removed from that. *)
Definition specBase_image (image : FileManager.ImageData) : string :=
  FileUtils.getBaseName (FileManager.i_filename image).

Definition specBase_translation (trans : FileManager.TranslationData)
  : string :=
  FileUtils.getBaseName (FileManager.t_filename trans).

(** The pairing of the specification: the rule on the base names of the
    specification. *)
Definition paired (translations : list FileManager.TranslationData)
    (image : FileManager.ImageData)
    (found : option FileManager.TranslationData) : Prop :=
  pairedOn specBase_translation translations (specBase_image image) found.

(** No entry name of the archive holds a directory separator. *)
Definition flatArchive (zipData : list (string * FileManager.ZipEntry))
  : Prop :=
  forall filename zipEntry,
    In (filename, zipEntry) zipData ->
    JsString.has_char "/" filename = false
    /\ JsString.has_char "\" filename = false.

(** An archive with the image [images/page_01.jpg] and its translation in
    another directory, [ocr/page_01.json]. *)
Definition crossArchive : list (string * FileManager.ZipEntry) :=
  [ ("images/page_01.jpg", imageEntry 1000);
    ("ocr/page_01.json", textEntry "{doc}") ].

(** An archive with the image [Page_05.png] and the translation
    [page-05.json]. *)
Definition fuzzyArchive : list (string * FileManager.ZipEntry) :=
  [ ("Page_05.png", imageEntry 1000); ("page-05.json", textEntry "{doc}") ].

(** A block lies inside the bounds to which [nudgeWithinOverlay] clamps. *)
Definition in_bounds (overlayRect : MangaReader.DOMRect) (el : MangaReader.Block)
  : Prop :=
  (MangaReader.margin <= MangaReader.b_left el
   /\ MangaReader.b_left el
      <= MangaReader.r_width overlayRect - MangaReader.b_width el
         - MangaReader.margin
   /\ MangaReader.margin <= MangaReader.b_top el
   /\ MangaReader.b_top el
      <= MangaReader.r_height overlayRect - MangaReader.b_height el
         - MangaReader.margin)%Q.

(** The state in which [separatePair] leaves a pair that it pushes. *)
Definition pushedState (overlayRect : MangaReader.DOMRect) (s : MangaReader.Sep)
    (i j : nat) (a b : MangaReader.Block) : MangaReader.Sep :=
  let ra := MangaReader.getBoundingClientRect overlayRect a in
  let rb := MangaReader.getBoundingClientRect overlayRect b in
  let axis := MangaReader.pushAxis ra rb in
  let step := MangaReader.pairStep (MangaReader.s_moved s) i j ra rb in
  let dir := MangaReader.pushDir axis ra rb in
  let da := MangaReader.along axis (- dir * step)%Q in
  let db := MangaReader.along axis (dir * step)%Q in
  {| MangaReader.s_blocks :=
       <[j := MangaReader.nudgeWithinOverlay b (fst db) (snd db) overlayRect]>
         (<[i := MangaReader.nudgeWithinOverlay a (fst da) (snd da) overlayRect]>
            (MangaReader.s_blocks s));
     MangaReader.s_original :=
       MangaReader.ensureSavedOriginal
         (MangaReader.ensureSavedOriginal (MangaReader.s_original s) i a) j b;
     MangaReader.s_moved :=
       MangaReader.addMoved
         (MangaReader.addMoved (MangaReader.s_moved s) i (fst da) (snd da))
         j (fst db) (snd db) |}.


(** Two overlapping blocks inside the bounds of the overlay. *)
Definition insideReader : MangaReader.Reader :=
  {| MangaReader.blocks :=
       [ {| MangaReader.b_left := 100; MangaReader.b_top := 100;
            MangaReader.b_width := 50; MangaReader.b_height := 50 |};
         {| MangaReader.b_left := 120; MangaReader.b_top := 110;
            MangaReader.b_width := 50; MangaReader.b_height := 50 |};
         {| MangaReader.b_left := 300; MangaReader.b_top := 300;
            MangaReader.b_width := 40; MangaReader.b_height := 40 |} ];
     MangaReader.overlay :=
       {| MangaReader.r_left := 20; MangaReader.r_top := 30;
          MangaReader.r_width := 500; MangaReader.r_height := 500 |};
     MangaReader.separationEnabled := false;
     MangaReader.originalPositions := ∅ |}.




Definition sampleResult : FileManager.ZipResult :=
  FileManager.zipResult
    {| FileManager.images := [FileManager.imageData "page1.jpg" {| FileManager.blob_size := 10 |}];
       FileManager.translations := [];
       FileManager.matched := [] |}
    {| FileManager.file_type := "application/zip";
       FileManager.file_name := "m.zip";
       FileManager.file_size := 10 |}.

Definition noProgress : StorageManager.State :=
  {| StorageManager.progress := ∅; StorageManager.currentSeries := None |}.

Definition hugeFile : FileManager.File :=
  {| FileManager.file_type := "application/zip";
     FileManager.file_name := "huge.zip";
     FileManager.file_size := 100 * 1024 * 1024 + 1 |}.

Definition sampleLoad (f : FileManager.File)
  : result (list (string * FileManager.ZipEntry)) :=
  Ok [ ("page1.jpg", imageEntry 1000) ].

Definition sampleProgress : StorageManager.ProgressData :=
  {| StorageManager.currentPage := 3;
     StorageManager.totalPages := 12;
     StorageManager.lastRead := 1000 |}.

Definition option_list {A} (o : option A) : list A :=
  match o with Some a => [a] | None => [] end.

(** ** Character classes of the normal forms *)

(** [[a-z0-9-_]], the characters of a storage key. *)
Definition storageKeyChar (c : ascii) : bool :=
  JsString.is_lower c || JsString.is_digit c
  || Ascii.eqb c "-" || Ascii.eqb c "_".

(** [[a-z0-9]], the characters of a normalized base name. *)
Definition lowerAlnum (c : ascii) : bool :=
  JsString.is_lower c || JsString.is_digit c.

(** ** Archives *)

Definition sampleArchive : FileManager.File :=
  {| FileManager.file_type := "application/zip";
     FileManager.file_name := "m.zip";
     FileManager.file_size := 10 |}.

(** An empty upload. *)
Definition emptyArchive : FileManager.File :=
  {| FileManager.file_type := "application/zip";
     FileManager.file_name := "empty.zip";
     FileManager.file_size := 0 |}.

(** The manager between two calls of [processZipFile]. *)
Definition idle (cf : FileManager.CurrentFiles) : FileManager.State :=
  {| FileManager.currentFiles := cf; FileManager.processing := false |}.

(** Names of hidden and system entries: a name that starts with a dot, or
    that holds [/.], [__macosx] or [thumbs.db] in any letter case. *)
Definition systemName (filename : string) : Prop :=
  (exists rest, filename = String "." rest)
  \/ exists dir marker rest,
       filename = (dir ++ marker ++ rest)%string
       /\ In (JsString.toLowerCase marker) ["/."; "__macosx"; "thumbs.db"].

(** ** The reader *)

(** The current page of a reader is one of its pages. *)
Definition validPage (nav : ReaderNavigation.Nav) : Prop :=
  match ReaderNavigation.files nav with
  | Some total =>
      (0 <= ReaderNavigation.currentPage nav < Z.of_nat total)%Z
  | None => False
  end.

(** The reader as [loadSeriesData] leaves it for a series of [total]
    pages: the current page is the one that the stored progress names. *)
Definition openedReader (total : nat) (seriesName readingDirection : string)
    (sm : StorageManager.State) : ReaderNavigation.Nav :=
  {| ReaderNavigation.files := Some total;
     ReaderNavigation.currentPage :=
       ReaderNavigation.resumedPage sm seriesName;
     ReaderNavigation.seriesName := seriesName;
     ReaderNavigation.readingDirection := readingDirection |}.

(** ** Blocks of the overlay *)

(** [blocks] holds the blocks of [blocks0], moved maybe but neither
    resized, reordered, added nor removed. *)
Definition same_sizes (blocks0 blocks : list MangaReader.Block) : Prop :=
  length blocks = length blocks0
  /\ forall k b,
       blocks !! k = Some b ->
       exists b0,
         blocks0 !! k = Some b0
         /\ MangaReader.b_width b = MangaReader.b_width b0
         /\ MangaReader.b_height b = MangaReader.b_height b0.

(** No two blocks of the reader overlap. *)
Definition apart (r : MangaReader.Reader) : Prop :=
  forall i j a b,
    (i < j)%nat ->
    MangaReader.blocks r !! i = Some a ->
    MangaReader.blocks r !! j = Some b ->
    MangaReader.rectsOverlap
      (MangaReader.getBoundingClientRect (MangaReader.overlay r) a)
      (MangaReader.getBoundingClientRect (MangaReader.overlay r) b) = false.

(** Two blocks side by side, 40 pixels apart. *)
Definition apartReader : MangaReader.Reader :=
  {| MangaReader.blocks :=
       [ {| MangaReader.b_left := 10; MangaReader.b_top := 10;
            MangaReader.b_width := 50; MangaReader.b_height := 50 |};
         {| MangaReader.b_left := 100; MangaReader.b_top := 10;
            MangaReader.b_width := 50; MangaReader.b_height := 50 |} ];
     MangaReader.overlay :=
       {| MangaReader.r_left := 0; MangaReader.r_top := 0;
          MangaReader.r_width := 500; MangaReader.r_height := 500 |};
     MangaReader.separationEnabled := true;
     MangaReader.originalPositions := ∅ |}.

(** The state in which [applySeparation] starts on a reader. *)
Definition startOf (r : MangaReader.Reader) : MangaReader.Sep :=
  {| MangaReader.s_blocks := MangaReader.blocks r;
     MangaReader.s_original := MangaReader.originalPositions r;
     MangaReader.s_moved := ∅ |}.

(** ** Mokuro documents *)

(** A block that the loop of [isValidMokuroJSON] lets pass: it has an array
    [box] of four elements and an array [lines]. *)
Definition mokuroBlock (block : jsval) : Prop :=
  (exists box, Js.get block "box" = Some (JArr box) /\ length box = 4%nat)
  /\ exists lines, Js.get block "lines" = Some (JArr lines).

(** A document with truthy [version], [img_width] and [img_height] and an
    array [blocks] of such blocks. *)
Definition mokuroDocument (data : jsval) : Prop :=
  Js.truthy_opt (Js.get data "version") = true
  /\ Js.truthy_opt (Js.get data "img_width") = true
  /\ Js.truthy_opt (Js.get data "img_height") = true
  /\ exists blocks,
       Js.get data "blocks" = Some (JArr blocks)
       /\ Forall mokuroBlock blocks.

(** The image record [img] is a faithful record of an entry of the archive
    that is named [filename]. *)
Definition recordsImage (img : FileManager.ImageData) (filename : string)
  : Prop :=
  FileManager.shouldSkipFile filename = false
  /\ FileUtils.isImage filename = true
  /\ FileManager.i_filename img = FileManager.cleanFilename filename
  /\ FileManager.i_baseName img = FileUtils.getBaseName filename
  /\ FileManager.i_type img = "image"
  /\ FileManager.i_size img = FileManager.blob_size (FileManager.i_blob img)
  /\ (0 < FileManager.i_size img < 50 * 1024 * 1024)%Z.

Open Scope list_scope.

(* ====================================================================== *)
(** * Properties of the base name *)
(* ====================================================================== *)

Section BaseName.
Import JsString FileManager.

Lemma lastSegment_no_sep sep s : has_char sep s = false -> lastSegment sep s = s.
Proof.
  destruct s as [|c s]; simpl; [reflexivity|].
  intros H. apply orb_false_iff in H as [Hc Hs].
  now rewrite Hs, Hc.
Qed.

(** Without a directory separator in the entry name the recorded base
    name is the one of the specification. *)
Lemma baseName_without_directory filename blob :
  has_char "/" filename = false ->
  has_char "\" filename = false ->
  i_baseName (imageData filename blob) = spec_baseName filename.
Proof.
  intros H1 H2. unfold spec_baseName, cleanFilename. simpl.
  now rewrite (lastSegment_no_sep "/"), (lastSegment_no_sep "\").
Qed.

End BaseName.

(** C2 (the code departs from the claim).  The entry [vol1/page_01.jpg] is
    accepted as an image and [vol1/page_01.json] as a translation; their
    [filename] fields have the directory stripped, but the recorded
    [baseName] keeps it: it is [vol1/page_01], not [page_01]. *)
Theorem baseName_keeps_directory :
  let cf :=
    snd (FileManager.extractFiles sampleParse
           [ ("vol1/page_01.jpg", imageEntry 1000);
             ("vol1/page_01.json", textEntry "{doc}") ]
           FileManager.noFiles) in
  List.map (fun i => (FileManager.i_filename i, FileManager.i_baseName i))
           (FileManager.images cf)
    = [ ("page_01.jpg", "vol1/page_01") ]
  /\ List.map (fun t => (FileManager.t_filename t, FileManager.t_baseName t))
              (FileManager.translations cf)
    = [ ("page_01.json", "vol1/page_01") ]
  /\ spec_baseName "vol1/page_01.jpg" = "page_01"
  /\ spec_baseName "vol1/page_01.json" = "page_01".
Proof. vm_compute. repeat split; reflexivity. Qed.

(* ====================================================================== *)
(** * The persisted session *)
(* ====================================================================== *)

Section Session.
Import IndexedDBManager.

Lemma storeSeries_lookup store name files now1 now2 store' :
  storeSeries (Some store) name files now1 now2 = Ok store' ->
  store' !! name
    = Some {| name := name; files := files; uploadDate := now1;
              expiresAt := now2 + 24 * 60 * 60 * 1000 |}.
Proof.
  unfold storeSeries. intros [= <-]. apply lookup_insert_eq.
Qed.

Lemma storeSeries_keys d :
  Js.keys (seriesData_js d) = ["name"; "files"; "uploadDate"; "expiresAt"].
Proof. reflexivity. Qed.

Lemma result_js_keys r :
  Js.keys (FileManager.result_js r)
    = ["success"; "images"; "translations"; "matched"; "stats"].
Proof. reflexivity. Qed.

End Session.

(** C7 (amended).  When [startReading] has data and a valid series name, it
    writes one record under that name.  The record has exactly the fields
    [name], [files], [uploadDate] and [expiresAt]; its [files] is the whole
    object returned by [processZipFile], whose fields are exactly [success],
    [images], [translations], [matched] and [stats]. *)
Theorem stored_payload_shape
    (roundPercent : Z -> Z -> Z) (data : FileManager.ZipResult)
    (input seriesName : string) (sm : StorageManager.State)
    (store : gmap string IndexedDBManager.SeriesData) (now0 now1 now2 : Z) :
  Validation.seriesName input = inl seriesName ->
  exists d,
    snd (MangaReaderApp.startReading roundPercent (Some data) input sm
           (Some store) now0 now1 now2)
      = Some (<[seriesName := d]> store)
    /\ IndexedDBManager.name d = seriesName
    /\ IndexedDBManager.files d = FileManager.result_js data
    /\ Js.keys (IndexedDBManager.seriesData_js d)
         = ["name"; "files"; "uploadDate"; "expiresAt"]
    /\ Js.keys (IndexedDBManager.files d)
         = ["success"; "images"; "translations"; "matched"; "stats"].
Proof.
  intros Hname. unfold MangaReaderApp.startReading. rewrite Hname.
  destruct (StorageManager.saveProgress _ _ _ _ _) as [ok sm'].
  simpl. eexists. split; [reflexivity|]. simpl. repeat split.
Qed.

Lemma stored_payload_shape_witness :
  exists d,
    snd (MangaReaderApp.startReading exactRoundPercent (Some sampleResult)
           "My Manga" noProgress (Some ∅) 5 6 7)
      = Some (<["My Manga" := d]> ∅)
    /\ Js.keys (IndexedDBManager.files d)
         = ["success"; "images"; "translations"; "matched"; "stats"].
Proof.
  destruct (stored_payload_shape exactRoundPercent sampleResult "My Manga"
              "My Manga" noProgress ∅ 5 6 7 eq_refl)
    as (d & H1 & _ & _ & _ & H5).
  exists d. split; [exact H1 | exact H5].
Defined.

(** C7, as stated, fails: the [files] object that [startReading] stores also
    has the fields [success] and [stats]. *)
Lemma stored_files_extra_fields :
  exists d,
    snd (MangaReaderApp.startReading exactRoundPercent (Some sampleResult)
           "My Manga" noProgress (Some ∅) 5 6 7)
      = Some {[ "My Manga" := d ]}
    /\ Js.keys (IndexedDBManager.files d) <> ["images"; "translations"; "matched"]
    /\ In "success" (Js.keys (IndexedDBManager.files d))
    /\ In "stats" (Js.keys (IndexedDBManager.files d)).
Proof.
  eexists. split; [reflexivity|]. simpl. repeat split; [discriminate | tauto | tauto].
Qed.

(** C8.  [storeSeries] records [uploadDate] and an [expiresAt] that is 24
    hours (86400000 ms) after the clock reading taken when the record is
    built.  A retrieval after [expiresAt] resolves to [null] and deletes the
    record; a retrieval up to [expiresAt] resolves to the record and leaves
    the store as it is. *)
Theorem session_expiry
    (store store' : gmap string IndexedDBManager.SeriesData)
    (name : string) (files : jsval) (now1 now2 : Z) :
  IndexedDBManager.storeSeries (Some store) name files now1 now2 = Ok store' ->
  exists d,
    store' !! name = Some d
    /\ IndexedDBManager.files d = files
    /\ IndexedDBManager.uploadDate d = now1
    /\ IndexedDBManager.expiresAt d = (now2 + 86400000)%Z
    /\ (now1 = now2 ->
        IndexedDBManager.expiresAt d
          = (IndexedDBManager.uploadDate d + 24 * 3600 * 1000)%Z)
    /\ (forall now : Z,
          (IndexedDBManager.expiresAt d < now)%Z ->
          IndexedDBManager.getSeries (Some store') name now
            = Ok (None, delete name store')
          /\ delete name store' !! name = None)
    /\ (forall now : Z,
          (now <= IndexedDBManager.expiresAt d)%Z ->
          IndexedDBManager.getSeries (Some store') name now
            = Ok (Some d, store')).
Proof.
  intros Hstore. pose proof (storeSeries_lookup _ _ _ _ _ _ Hstore) as Hl.
  eexists. split; [exact Hl|]. simpl.
  split; [reflexivity|]. split; [reflexivity|]. split; [reflexivity|].
  split; [intros ->; reflexivity|].
  split; intros now Hnow; unfold IndexedDBManager.getSeries; rewrite Hl; simpl.
  - rewrite (proj2 (Z.ltb_lt _ _)) by (simpl in Hnow; lia).
    split; [reflexivity | apply lookup_delete_eq].
  - rewrite (proj2 (Z.ltb_ge _ _)) by (simpl in Hnow; lia). reflexivity.
Qed.

Lemma session_expiry_witness :
  exists d,
    IndexedDBManager.getSeries (Some (<["s" := d]> ∅)) "s" 86400101
      = Ok (None, delete "s" (<["s" := d]> ∅))
    /\ IndexedDBManager.getSeries (Some (<["s" := d]> ∅)) "s" 86400100
      = Ok (Some d, <["s" := d]> ∅).
Proof.
  destruct (session_expiry ∅ _ "s" JNull 100 100 eq_refl)
    as (d & Hl & _ & _ & He & _ & Hafter & Hbefore).
  rewrite lookup_insert_eq in Hl. injection Hl as <-.
  eexists. split.
  - apply (Hafter 86400101%Z). simpl. lia.
  - apply (Hbefore 86400100%Z). simpl. lia.
Defined.

(* ====================================================================== *)
(** * The size cap of the archive *)
(* ====================================================================== *)

Section SizeCap.
Import FileManager.

Lemma validateZipFile_rejects f :
  (file_size f > 100 * 1024 * 1024 \/ file_size f = 0)%Z ->
  validateZipFile (Some f) = Err NotAZipFile
  \/ ((file_size f > 100 * 1024 * 1024)%Z
      /\ validateZipFile (Some f) = Err FileTooLarge)
  \/ (file_size f = 0%Z /\ validateZipFile (Some f) = Err EmptyZipFile).
Proof.
  intros Hsize. unfold validateZipFile.
  destruct (negb _ && negb _); [now left | right].
  unfold maxFileSize.
  destruct (Z.gtb_spec (file_size f) (100 * 1024 * 1024)) as [Hgt|Hle].
  - left. split; [lia | reflexivity].
  - right. destruct Hsize as [Hgt | Hz]; [lia|].
    split; [exact Hz|]. now rewrite Hz.
Qed.

End SizeCap.

(** C9.  For a file of more than 100 MiB, and for a file of zero bytes,
    [processZipFile] fails and extracts nothing, whatever the archive holds:
    when no other run is in progress the error is one of [validateZipFile]
    ([FileTooLarge] respectively [EmptyZipFile] for a file recognized as a
    ZIP file) and [currentFiles] is left empty; during another run the call
    is rejected at once and the state is untouched. *)
Theorem archive_size_cap
    (JSON_parse : string -> option jsval)
    (localeCompare : string -> string -> comparison)
    (loadAsync : FileManager.File ->
                 result (list (string * FileManager.ZipEntry)))
    (st : FileManager.State) (f : FileManager.File) :
  (FileManager.file_size f > 100 * 1024 * 1024
   \/ FileManager.file_size f = 0)%Z ->
  let run := FileManager.processZipFile JSON_parse localeCompare loadAsync
               st (Some f) in
  (FileManager.processing st = true ->
     run = (Err AlreadyProcessing, st))
  /\ (FileManager.processing st = false ->
      exists e,
        run = (Err e, {| FileManager.currentFiles := FileManager.noFiles;
                         FileManager.processing := false |})
        /\ FileManager.validateZipFile (Some f) = Err e
        /\ (e = NotAZipFile
            \/ (e = FileTooLarge
                /\ (FileManager.file_size f > 100 * 1024 * 1024)%Z)
            \/ (e = EmptyZipFile /\ FileManager.file_size f = 0%Z))).
Proof.
  intros Hsize run. subst run. unfold FileManager.processZipFile. split.
  - intros ->. reflexivity.
  - intros ->. unfold FileManager.processBody.
    destruct (validateZipFile_rejects f Hsize) as [H | [[Hs H] | [Hs H]]];
      rewrite H; eexists; (split; [reflexivity|]); (split; [reflexivity|]).
    + now left.
    + right; left. now split.
    + right; right. now split.
Qed.

Lemma archive_size_cap_witness :
  FileManager.processZipFile sampleParse codeUnitCompare sampleLoad
    FileManager.new (Some hugeFile)
  = (Err FileTooLarge, FileManager.new).
Proof.
  destruct (archive_size_cap sampleParse codeUnitCompare sampleLoad
              FileManager.new hugeFile) as [_ H].
  - left. vm_compute. reflexivity.
  - destruct (H eq_refl) as (e & Hrun & Hval & _).
    rewrite Hrun. vm_compute in Hval. injection Hval as <-. reflexivity.
Defined.

(* ====================================================================== *)
(** * Reading progress *)
(* ====================================================================== *)

Section ProgressKey.
Import StorageManager.

Lemma truthy_nonempty s : s <> EmptyString -> JsString.truthy s = true.
Proof. destruct s; [congruence | reflexivity]. Qed.

Lemma PlainObject_set_get {V} (o : gmap string V) k v :
  k <> "__proto__" ->
  PlainObject.set o k v = <[k := v]> o
  /\ PlainObject.get (PlainObject.set o k v) k = Some (PlainObject.Own v).
Proof.
  intros Hk. unfold PlainObject.set, PlainObject.get.
  destruct (decide (k = "__proto__")) as [->|_]; [congruence|].
  split; [reflexivity|]. now rewrite lookup_insert_eq.
Qed.

End ProgressKey.

(** Away from the key [__proto__] the progress of two names collides as
    the claim C10 says: for two non-empty series names with the same
    sanitized form, other than the form [__proto__], [saveProgress] under
    the first name writes its record at the key of the second, replacing
    what was there, and [getProgress] under either name returns that
    record. *)
Theorem progress_key_collision
    (roundPercent : Z -> Z -> Z) (sm : StorageManager.State)
    (name1 name2 : string) (data : StorageManager.ProgressData) (now : Z) :
  name1 <> EmptyString -> name2 <> EmptyString ->
  StringUtils.sanitize name1 = StringUtils.sanitize name2 ->
  StringUtils.sanitize name1 <> "__proto__" ->
  let saved := StorageManager.saveProgress roundPercent sm name1 data now in
  fst saved = true
  /\ exists r,
       StorageManager.originalName r = name1
       /\ StorageManager.p_currentPage r = StorageManager.currentPage data
       /\ StorageManager.p_totalPages r = StorageManager.totalPages data
       /\ StorageManager.progress (snd saved)
            = <[StringUtils.sanitize name2 := r]> (StorageManager.progress sm)
       /\ StorageManager.getProgress (snd saved) name2
            = Some (PlainObject.Own r)
       /\ StorageManager.getProgress (snd saved) name1
            = Some (PlainObject.Own r).
Proof.
  intros H1 H2 Hsan Hproto saved. subst saved.
  unfold StorageManager.saveProgress, StorageManager.getProgress.
  rewrite (truthy_nonempty _ H1), (truthy_nonempty _ H2). simpl.
  split; [reflexivity|].
  set (r := {| StorageManager.originalName := name1;
               StorageManager.p_currentPage := StorageManager.currentPage data;
               StorageManager.p_totalPages := StorageManager.totalPages data;
               StorageManager.p_lastRead := _;
               StorageManager.percentage := _ |}).
  exists r. split; [reflexivity|]. split; [reflexivity|]. split; [reflexivity|].
  unfold StorageManager.getAllProgress.
  destruct (PlainObject_set_get (StorageManager.progress sm)
              (StringUtils.sanitize name1) r Hproto) as [Hset Hget].
  rewrite <- Hsan. split; [exact Hset|]. split; exact Hget.
Qed.

Lemma progress_key_collision_witness :
  exists r,
    StorageManager.originalName r = "My Manga!"
    /\ StorageManager.getProgress
         (snd (StorageManager.saveProgress exactRoundPercent noProgress
                 "My Manga!" sampleProgress 2000))
         "my manga?"
       = Some (PlainObject.Own r).
Proof.
  destruct (progress_key_collision exactRoundPercent noProgress
              "My Manga!" "my manga?" sampleProgress 2000)
    as (_ & r & Hn & _ & _ & _ & Hget & _);
    [discriminate | discriminate | reflexivity | discriminate |].
  exists r. split; [exact Hn | exact Hget].
Defined.

(** C10 (the code departs from the claim).  [__PROTO__] and [__proto__]
    are valid series names with the same sanitized form, [__proto__].
    [saveProgress] under the first answers [true] and sets the cookie, yet
    it leaves the stored progress as it was: the assignment to the key
    [__proto__] of the plain object creates no property.  [getProgress]
    under the second then returns the object inherited from
    [Object.prototype], not the record of the first. *)
Lemma progress_lost_for_proto_key :
  Validation.seriesName "__PROTO__" = inl "__PROTO__"
  /\ Validation.seriesName "__proto__" = inl "__proto__"
  /\ StringUtils.sanitize "__PROTO__" = StringUtils.sanitize "__proto__"
  /\ StorageManager.saveProgress exactRoundPercent noProgress
       "__PROTO__" sampleProgress 2000
     = (true, {| StorageManager.progress := ∅;
                 StorageManager.currentSeries := Some "__PROTO__" |})
  /\ StorageManager.getProgress
       (snd (StorageManager.saveProgress exactRoundPercent noProgress
               "__PROTO__" sampleProgress 2000))
       "__proto__"
     = Some (PlainObject.Inherited "__proto__").
Proof. repeat split. Qed.

(* ====================================================================== *)
(** * Extraction *)
(* ====================================================================== *)

Section ExtractionFacts.
Import FileManager.

Variable JSON_parse : string -> option jsval.

Lemma extractEntry_spec cf entry :
  extractEntry JSON_parse cf entry
  = {| images := images cf ++ option_list (acceptedImage entry);
       translations :=
         translations cf ++ option_list (acceptedTranslation JSON_parse entry);
       matched := matched cf |}.
Proof.
  destruct cf as [imgs trs ms], entry as [filename e].
  unfold extractEntry, acceptedImage, acceptedTranslation. simpl.
  destruct (dir e); simpl; [now rewrite !app_nil_r|].
  destruct (shouldSkipFile filename); simpl; [now rewrite !app_nil_r|].
  destruct (FileUtils.isImage filename); simpl.
  - unfold processImageFile. destruct (async_blob e) as [blob|err]; simpl;
      [|now rewrite !app_nil_r].
    destruct (isValidImage blob); simpl; now rewrite !app_nil_r.
  - destruct (FileUtils.isJSON filename); simpl; [|now rewrite !app_nil_r].
    unfold processJSONFile. destruct (async_text e) as [text|err]; simpl;
      [|now rewrite !app_nil_r].
    unfold parseAndStore. destruct (JSON_parse text) as [json|]; simpl;
      [|now rewrite !app_nil_r].
    destruct (isValidMokuroJSON json) as [[|]|err]; simpl;
      now rewrite !app_nil_r.
Qed.

Lemma fold_extractEntry zipData cf :
  fold_left (extractEntry JSON_parse) zipData cf
  = {| images := images cf ++ omap acceptedImage zipData;
       translations :=
         translations cf ++ omap (acceptedTranslation JSON_parse) zipData;
       matched := matched cf |}.
Proof.
  revert cf. induction zipData as [|entry rest IH]; intros cf.
  - destruct cf. simpl. now rewrite !app_nil_r.
  - simpl fold_left. rewrite IH, extractEntry_spec. simpl.
    rewrite <- !app_assoc. f_equal.
    + f_equal. now destruct (acceptedImage entry).
    + f_equal. now destruct (acceptedTranslation JSON_parse entry).
Qed.

Lemma extractFiles_files zipData :
  snd (extractFiles JSON_parse zipData noFiles)
  = {| images := omap acceptedImage zipData;
       translations := omap (acceptedTranslation JSON_parse) zipData;
       matched := [] |}.
Proof.
  unfold extractFiles. destruct zipData as [|entry rest]; [reflexivity|].
  rewrite fold_extractEntry. set (zipData := entry :: rest).
  cbn [noFiles images translations matched app].
  now destruct (omap acceptedImage zipData).
Qed.

Lemma extractFiles_outcome zipData :
  fst (extractFiles JSON_parse zipData noFiles)
  = match zipData with
    | [] => Err NoFilesInZip
    | _ => match omap acceptedImage zipData with
           | [] => Err NoValidImages
           | _ => Ok tt
           end
    end.
Proof.
  unfold extractFiles. destruct zipData as [|entry rest]; [reflexivity|].
  rewrite fold_extractEntry. set (zipData := entry :: rest).
  cbn [noFiles images translations matched app].
  now destruct (omap acceptedImage zipData).
Qed.

End ExtractionFacts.



(* ====================================================================== *)
(** * Sorting *)
(* ====================================================================== *)

Section Sorting.
Import FileManager.

Context {A : Type} (compare : A -> A -> comparison).

Lemma insert_perm x l : Permutation (insert compare x l) (x :: l).
Proof.
  induction l as [|y l IH]; simpl; [reflexivity|].
  destruct (compare x y); try reflexivity.
  rewrite IH. apply perm_swap.
Qed.

Lemma sort_perm l : Permutation (sort compare l) l.
Proof.
  induction l as [|x l IH]; simpl; [reflexivity|].
  rewrite insert_perm. now constructor.
Qed.

Lemma sort_length l : length (sort compare l) = length l.
Proof. apply Permutation_length, sort_perm. Qed.

Hypothesis compare_antisym : forall a b, compare b a = CompOpp (compare a b).
Hypothesis compare_trans :
  forall a b c, compare a b <> Gt -> compare b c <> Gt -> compare a c <> Gt.

Lemma insert_sorted x l :
  StronglySorted (fun a b => compare a b <> Gt) l ->
  StronglySorted (fun a b => compare a b <> Gt) (insert compare x l).
Proof.
  induction 1 as [|y l Hl IH Hy]; simpl.
  - repeat constructor.
  - destruct (compare x y) eqn:Hxy.
    + constructor; [now constructor|]. constructor.
      * cbv beta. congruence.
      * eapply Forall_impl; [exact Hy|].
        intros z Hz. apply (compare_trans x y z); [congruence | exact Hz].
    + constructor; [now constructor|]. constructor.
      * cbv beta. congruence.
      * eapply Forall_impl; [exact Hy|].
        intros z Hz. apply (compare_trans x y z); [congruence | exact Hz].
    + constructor; [exact IH|].
      rewrite insert_perm. constructor; [|exact Hy].
      cbv beta. rewrite compare_antisym, Hxy. discriminate.
Qed.

Lemma sort_sorted l :
  StronglySorted (fun a b => compare a b <> Gt) (sort compare l).
Proof.
  induction l as [|x l IH]; simpl; [constructor | now apply insert_sorted].
Qed.

End Sorting.

Lemma StronglySorted_lookup_lt {A} (R : A -> A -> Prop) (l : list A) i j x y :
  StronglySorted R l -> l !! i = Some x -> l !! j = Some y -> (i < j)%nat ->
  R x y.
Proof.
  intros Hs. revert i j. induction Hs as [|z l Hl IH Hz]; intros i j Hi Hj Hlt.
  - discriminate.
  - destruct j as [|j]; [lia|]. destruct i as [|i]; simpl in *.
    + injection Hi as <-. rewrite Forall_forall in Hz. apply Hz.
      eapply list_elem_of_lookup_2. exact Hj.
    + apply (IH i j); [assumption | assumption | lia].
Qed.

(* ====================================================================== *)
(** * Digit runs and the natural order *)
(* ====================================================================== *)

Section DigitRuns.
Import JsString FileManager.
Local Open Scope string_scope.

Lemma append_cons c (a b : string) : String c a ++ b = String c (a ++ b).
Proof. reflexivity. Qed.

Lemma append_nil_l (a : string) : EmptyString ++ a = a.
Proof. reflexivity. Qed.

Lemma append_nil_r (a : string) : a ++ EmptyString = a.
Proof.
  induction a as [|c a IH]; [reflexivity|]. now rewrite append_cons, IH.
Qed.

Lemma append_assoc (a b c : string) : (a ++ b) ++ c = a ++ (b ++ c).
Proof.
  induction a as [|x a IH]; [reflexivity|]. now rewrite !append_cons, IH.
Qed.

Lemma length_append (a b : string) :
  String.length (a ++ b) = (String.length a + String.length b)%nat.
Proof.
  induction a as [|x a IH]; [reflexivity|].
  rewrite append_cons. simpl. now rewrite IH.
Qed.

Lemma normalize_from_app_clean s r t :
  starts_with_digit t = false ->
  normalize_from r (s ++ t) = normalize_from r s ++ normalize t.
Proof.
  intros Ht. revert r. induction s as [|c s IH]; intros r.
  - rewrite append_nil_l. destruct t as [|c t]; simpl.
    + unfold normalize. simpl. now rewrite append_nil_r.
    + simpl in Ht. unfold normalize. simpl. rewrite Ht.
      now rewrite append_nil_l.
  - rewrite append_cons. simpl. destruct (is_digit c).
    + apply IH.
    + now rewrite IH, append_assoc, append_cons.
Qed.

Lemma normalize_from_digits d r :
  all_digits d = true -> normalize_from r d = flush (r ++ d).
Proof.
  revert r. induction d as [|c d IH]; intros r Hd; simpl.
  - now rewrite append_nil_r.
  - simpl in Hd. apply andb_true_iff in Hd as [Hc Hd]. rewrite Hc.
    rewrite IH by exact Hd. now rewrite append_assoc.
Qed.

Lemma normalize_from_prefix_clean p r x :
  p <> EmptyString -> ends_with_digit p = false ->
  normalize_from r (p ++ x) = normalize_from r p ++ normalize x.
Proof.
  revert r. induction p as [|c p IH]; intros r Hne Hp; [congruence|].
  destruct p as [|c' p].
  - simpl in Hp. rewrite append_cons, append_nil_l. simpl. rewrite Hp.
    now rewrite append_assoc, append_cons, append_nil_l.
  - change (ends_with_digit (String c (String c' p)))
      with (ends_with_digit (String c' p)) in Hp.
    rewrite append_cons. cbn [normalize_from]. destruct (is_digit c).
    + apply IH; [discriminate | exact Hp].
    + rewrite IH by (discriminate || exact Hp).
      now rewrite append_assoc, append_cons.
Qed.

Lemma normalize_prefix_clean p x :
  ends_with_digit p = false ->
  normalize (p ++ x) = normalize p ++ normalize x.
Proof.
  intros Hp. destruct p as [|c p]; [reflexivity|].
  apply normalize_from_prefix_clean; [discriminate | exact Hp].
Qed.

(** A digit run of a name is replaced by its zero-padded form. *)
Lemma normalize_digit_run p d s :
  digit_run_at p d s ->
  normalize (p ++ d ++ s) = normalize p ++ padStart0 10 d ++ normalize s.
Proof.
  intros (Hp & Hne & Hd & _ & Hs).
  rewrite normalize_prefix_clean by exact Hp. f_equal.
  unfold normalize at 1. rewrite normalize_from_app_clean by exact Hs.
  rewrite normalize_from_digits by exact Hd. rewrite append_nil_l.
  destruct d; [congruence | reflexivity].
Qed.

End DigitRuns.

Section DigitValues.
Import JsString FileManager.
Local Open Scope string_scope.
Local Open Scope N_scope.

Lemma is_digit_code c : is_digit c = true -> 48 <= code c <= 57.
Proof.
  unfold is_digit, in_range. intros H.
  apply andb_true_iff in H as [H1 H2].
  apply N.leb_le in H1, H2. split; assumption.
Qed.

Lemma digitValue_bound c : is_digit c = true -> digitValue c <= 9.
Proof. intros H. apply is_digit_code in H. unfold digitValue. lia. Qed.

Lemma code_inj a b : code a = code b -> a = b.
Proof.
  unfold code. intros H.
  rewrite <- (ascii_N_embedding a), <- (ascii_N_embedding b). now rewrite H.
Qed.

Lemma numValue_from_acc d acc :
  numValue_from acc d = acc * 10 ^ N.of_nat (String.length d) + numValue d.
Proof.
  unfold numValue. revert acc. induction d as [|c d IH]; intros acc.
  - simpl. lia.
  - cbn [numValue_from String.length]. rewrite IH, (IH (10 * 0 + digitValue c)).
    rewrite Nat2N.inj_succ, N.pow_succ_r'. lia.
Qed.

Lemma numValue_cons c d :
  numValue (String c d)
  = digitValue c * 10 ^ N.of_nat (String.length d) + numValue d.
Proof.
  unfold numValue at 1. cbn [numValue_from]. rewrite numValue_from_acc. lia.
Qed.

Lemma numValue_bound d :
  all_digits d = true -> numValue d < 10 ^ N.of_nat (String.length d).
Proof.
  induction d as [|c d IH]; intros Hd.
  - reflexivity.
  - simpl in Hd. apply andb_true_iff in Hd as [Hc Hd].
    rewrite numValue_cons. cbn [String.length].
    rewrite Nat2N.inj_succ, N.pow_succ_r'.
    specialize (IH Hd). pose proof (digitValue_bound c Hc).
    nia.
Qed.

(** Of two digit strings of one length, the one that denotes the
    smaller number has the smaller digit where they first differ. *)
Lemma first_difference X : forall Y,
  all_digits X = true -> all_digits Y = true ->
  String.length X = String.length Y ->
  numValue X < numValue Y ->
  exists common x y r1 r2,
    X = common ++ String x r1 /\ Y = common ++ String y r2
    /\ is_digit x = true /\ is_digit y = true /\ code x < code y.
Proof.
  induction X as [|a X IH]; intros [|b Y] HX HY Hlen Hlt;
    try discriminate Hlen.
  - unfold numValue in Hlt. simpl in Hlt. lia.
  - simpl in HX, HY. apply andb_true_iff in HX as [Ha HX].
    apply andb_true_iff in HY as [Hb HY].
    injection Hlen as Hlen.
    rewrite !numValue_cons, <- Hlen in Hlt.
    pose proof (numValue_bound X HX) as BX.
    pose proof (numValue_bound Y HY) as BY. rewrite <- Hlen in BY.
    pose proof (is_digit_code a Ha). pose proof (is_digit_code b Hb).
    destruct (N.lt_trichotomy (code a) (code b)) as [Hab | [Hab | Hab]].
    + exists EmptyString, a, b, X, Y. repeat split; assumption.
    + apply code_inj in Hab. subst b.
      destruct (IH Y HX HY Hlen) as (common & x & y & r1 & r2 & -> & -> & H');
        [lia|].
      exists (String a common), x, y, r1, r2. repeat split; apply H'.
    + exfalso. unfold digitValue in Hlt.
      set (P := 10 ^ N.of_nat (String.length X)) in *. nia.
Qed.

Lemma all_digits_app a b :
  all_digits (a ++ b) = all_digits a && all_digits b.
Proof.
  induction a as [|c a IH]; [reflexivity|].
  rewrite append_cons. unfold all_digits in *. simpl. rewrite IH.
  now rewrite andb_assoc.
Qed.

Lemma all_digits_repeat n : all_digits (JsString.repeat "0" n) = true.
Proof. induction n as [|n IH]; [reflexivity | exact IH]. Qed.

Lemma length_repeat c n : String.length (JsString.repeat c n) = n.
Proof. induction n as [|n IH]; simpl; [reflexivity | now rewrite IH]. Qed.

Lemma numValue_repeat0 n d : numValue (JsString.repeat "0" n ++ d) = numValue d.
Proof.
  induction n as [|n IH]; [reflexivity|].
  simpl JsString.repeat. rewrite append_cons, numValue_cons, IH.
  change (digitValue "0") with 0. lia.
Qed.

Lemma padStart0_digits d :
  all_digits d = true -> (String.length d <= 10)%nat ->
  all_digits (padStart0 10 d) = true
  /\ String.length (padStart0 10 d) = 10%nat
  /\ numValue (padStart0 10 d) = numValue d.
Proof.
  intros Hd Hlen. unfold padStart0. split; [|split].
  - now rewrite all_digits_app, all_digits_repeat, Hd.
  - rewrite length_append, length_repeat. lia.
  - apply numValue_repeat0.
Qed.

End DigitValues.

Section NaturalOrder.
Import JsString FileManager.
Local Open Scope string_scope.

Context (localeCompare : string -> string -> comparison)
        `{!Collation localeCompare}.

Lemma collation_refl a : localeCompare a a = Eq.
Proof.
  pose proof (collation_antisym a a) as H.
  destruct (localeCompare a a); simpl in H; congruence.
Qed.

(** Digit runs of at most ten digits are compared as numbers. *)
Lemma naturalSort_digit_runs p d1 s1 d2 s2 :
  digit_run_at p d1 s1 -> digit_run_at p d2 s2 ->
  (numValue d1 < numValue d2)%N ->
  naturalSort localeCompare (p ++ d1 ++ s1) (p ++ d2 ++ s2) = Lt.
Proof.
  intros H1 H2 Hlt. unfold naturalSort.
  rewrite (normalize_digit_run _ _ _ H1), (normalize_digit_run _ _ _ H2).
  destruct H1 as (_ & _ & Hd1 & Hl1 & _), H2 as (_ & _ & Hd2 & Hl2 & _).
  destruct (padStart0_digits d1 Hd1 Hl1) as (Ha1 & Hn1 & Hv1).
  destruct (padStart0_digits d2 Hd2 Hl2) as (Ha2 & Hn2 & Hv2).
  destruct (first_difference (padStart0 10 d1) (padStart0 10 d2))
    as (common & x & y & r1 & r2 & -> & -> & Hx & Hy & Hxy);
    [assumption | assumption | congruence | congruence |].
  rewrite !append_assoc, <- !(append_assoc (normalize p) common), !append_cons.
  now apply collation_digits.
Qed.

End NaturalOrder.

(* ====================================================================== *)
(** * Code-unit order is a collation *)
(* ====================================================================== *)

Lemma codeUnitCompare_antisym a : forall b,
  codeUnitCompare b a = CompOpp (codeUnitCompare a b).
Proof.
  induction a as [|x a IH]; intros [|y b]; simpl; try reflexivity.
  rewrite (N.compare_antisym (JsString.code x) (JsString.code y)).
  destruct (JsString.code x ?= JsString.code y)%N; simpl; auto.
Qed.

Lemma codeUnitCompare_trans a : forall b c,
  codeUnitCompare a b <> Gt -> codeUnitCompare b c <> Gt ->
  codeUnitCompare a c <> Gt.
Proof.
  induction a as [|x a IH]; intros [|y b] [|z c]; simpl; try congruence.
  destruct (N.compare_spec (JsString.code x) (JsString.code y)) as [Hxy|Hxy|Hxy];
    destruct (N.compare_spec (JsString.code y) (JsString.code z)) as [Hyz|Hyz|Hyz];
    try congruence; intros H1 H2.
  - rewrite Hxy, Hyz, N.compare_refl. now apply (IH b c).
  - rewrite Hxy. now rewrite (proj2 (N.compare_lt_iff _ _) Hyz).
  - rewrite <- Hyz. now rewrite (proj2 (N.compare_lt_iff _ _) Hxy).
  - rewrite (proj2 (N.compare_lt_iff (JsString.code x) (JsString.code z)))
      by lia. discriminate.
Qed.

Lemma codeUnitCompare_digits p : forall x y s s',
  (JsString.code x < JsString.code y)%N ->
  codeUnitCompare (p ++ String x s)%string (p ++ String y s')%string = Lt.
Proof.
  induction p as [|c p IH]; intros x y s s' Hxy.
  - simpl. now rewrite (proj2 (N.compare_lt_iff _ _) Hxy).
  - rewrite !append_cons. simpl. rewrite N.compare_refl. now apply IH.
Qed.

#[global] Instance codeUnit_collation : Collation codeUnitCompare.
Proof.
  split.
  - intros a b. apply codeUnitCompare_antisym.
  - intros a b c. apply codeUnitCompare_trans.
  - intros p x y s s' _ _ Hxy. now apply codeUnitCompare_digits.
Qed.

(* ====================================================================== *)
(** * Matching *)
(* ====================================================================== *)

Section MatchingFacts.
Import FileManager.

Variable translations : list TranslationData.

Lemma fold_pushPage l : forall acc,
  fold_left (pushPage translations) l acc
  = acc ++ imap (fun k => pageOf translations (length acc + k)) l.
Proof.
  induction l as [|img l IH]; intros acc; simpl.
  - now rewrite app_nil_r.
  - rewrite IH.
    assert (Hpush : pushPage translations acc img
                    = acc ++ [pageOf translations (length acc) img])
      by reflexivity.
    rewrite Hpush, <- app_assoc. simpl. rewrite Nat.add_0_r. do 2 f_equal.
    apply imap_ext. intros k x _. simpl.
    rewrite length_app. simpl. f_equal. lia.
Qed.

Lemma map_image_pages l : forall n,
  List.map image (imap (fun k => pageOf translations (n + k)) l) = l.
Proof.
  induction l as [|img l IH]; intros n; simpl; [reflexivity|].
  f_equal. rewrite <- (IH (S n)) at 2. f_equal.
  apply imap_ext. intros k x _. simpl. f_equal. lia.
Qed.

Lemma map_pageIndex_pages l : forall n,
  List.map pageIndex (imap (fun k => pageOf translations (n + k)) l)
  = seq n (length l).
Proof.
  induction l as [|img l IH]; intros n; simpl; [reflexivity|].
  f_equal; [lia|]. rewrite <- (IH (S n)). f_equal.
  apply imap_ext. intros k x _. simpl. f_equal. lia.
Qed.

End MatchingFacts.

Lemma matched_matchFiles localeCompare cf :
  FileManager.matched (FileManager.matchFiles localeCompare cf)
  = imap (pageOf (FileManager.translations cf))
      (FileManager.sort
         (fun a b => FileManager.naturalSort localeCompare
                       (FileManager.i_filename a) (FileManager.i_filename b))
         (FileManager.images cf)).
Proof.
  unfold FileManager.matchFiles. simpl. now rewrite fold_pushPage.
Qed.

Section PageOrder.
Import FileManager.
Local Open Scope string_scope.

Context (localeCompare : string -> string -> comparison)
        `{!Collation localeCompare}.

Lemma naturalSort_antisym a b :
  naturalSort localeCompare b a = CompOpp (naturalSort localeCompare a b).
Proof. unfold naturalSort. apply collation_antisym. Qed.

Lemma naturalSort_page_numbers (d1 d2 : string) :
  digit_run_at "page" d1 ".jpg" -> digit_run_at "page" d2 ".jpg" ->
  (numValue d1 < numValue d2)%N ->
  naturalSort localeCompare ("page" ++ d1 ++ ".jpg") ("page" ++ d2 ++ ".jpg") = Lt
  /\ naturalSort localeCompare ("page" ++ d2 ++ ".jpg") ("page" ++ d1 ++ ".jpg") = Gt.
Proof.
  intros H1 H2 Hlt.
  pose proof (naturalSort_digit_runs localeCompare _ _ _ _ _ H1 H2 Hlt) as H.
  split; [exact H|]. now rewrite naturalSort_antisym, H.
Qed.

Lemma page_run (d : string) :
  d <> EmptyString -> all_digits d = true -> (String.length d <= 10)%nat ->
  digit_run_at "page" d ".jpg".
Proof. intros. repeat split; assumption || reflexivity. Qed.

Lemma three_pages_sorted :
  pageNames localeCompare (imagesOnly ["page2.jpg"; "page10.jpg"; "page1.jpg"])
  = ["page1.jpg"; "page2.jpg"; "page10.jpg"].
Proof.
  assert (R1 : digit_run_at "page" "1" ".jpg")
    by (apply page_run; [discriminate | reflexivity | simpl; lia]).
  assert (R2 : digit_run_at "page" "2" ".jpg")
    by (apply page_run; [discriminate | reflexivity | simpl; lia]).
  assert (R10 : digit_run_at "page" "10" ".jpg")
    by (apply page_run; [discriminate | reflexivity | simpl; lia]).
  destruct (naturalSort_page_numbers "1" "10" R1 R10 eq_refl) as [_ H10_1].
  destruct (naturalSort_page_numbers "1" "2" R1 R2 eq_refl) as [_ H2_1].
  destruct (naturalSort_page_numbers "2" "10" R2 R10 eq_refl) as [H2_10 _].
  unfold pageNames. rewrite matched_matchFiles.
  change (sort _ (images (imagesOnly _)))
    with (insert (fun a b => naturalSort localeCompare (i_filename a) (i_filename b))
            (namedImage "page2.jpg")
            (insert (fun a b => naturalSort localeCompare (i_filename a) (i_filename b))
               (namedImage "page10.jpg") [namedImage "page1.jpg"])).
  cbn [insert].
  change (i_filename (namedImage "page10.jpg")) with ("page" ++ "10" ++ ".jpg").
  change (i_filename (namedImage "page1.jpg")) with ("page" ++ "1" ++ ".jpg").
  change (i_filename (namedImage "page2.jpg")) with ("page" ++ "2" ++ ".jpg").
  rewrite H10_1. cbn [insert].
  change (i_filename (namedImage "page10.jpg")) with ("page" ++ "10" ++ ".jpg").
  change (i_filename (namedImage "page1.jpg")) with ("page" ++ "1" ++ ".jpg").
  change (i_filename (namedImage "page2.jpg")) with ("page" ++ "2" ++ ".jpg").
  rewrite H2_1, H2_10. reflexivity.
Qed.

End PageOrder.

(** C1 (amended).  For a consistent [localeCompare] that orders digits by
    value, [matchFiles] builds exactly one page per image; the pages are the
    images in an order that is sorted for [naturalSort]; [pageIndex] runs
    through 0..n-1 in page order; and where two file names differ first in a
    digit run of at most ten digits, the page with the smaller number has the
    smaller [pageIndex].  So [page2.jpg], [page10.jpg], [page1.jpg] come out
    as [page1.jpg], [page2.jpg], [page10.jpg]. *)
Theorem pages_in_natural_order
    (localeCompare : string -> string -> comparison)
    `{!Collation localeCompare} (cf : FileManager.CurrentFiles) :
  let pages := FileManager.matched (FileManager.matchFiles localeCompare cf) in
  length pages = length (FileManager.images cf)
  /\ Permutation (List.map FileManager.image pages) (FileManager.images cf)
  /\ List.map FileManager.pageIndex pages
       = seq 0 (length (FileManager.images cf))
  /\ StronglySorted
       (fun a b => FileManager.naturalSort localeCompare
                     (FileManager.i_filename a) (FileManager.i_filename b) <> Gt)
       (List.map FileManager.image pages)
  /\ (forall P Q prefix run1 rest1 run2 rest2,
        In P pages -> In Q pages ->
        FileManager.i_filename (FileManager.image P)
          = (prefix ++ run1 ++ rest1)%string ->
        FileManager.i_filename (FileManager.image Q)
          = (prefix ++ run2 ++ rest2)%string ->
        digit_run_at prefix run1 rest1 -> digit_run_at prefix run2 rest2 ->
        (numValue run1 < numValue run2)%N ->
        (FileManager.pageIndex P < FileManager.pageIndex Q)%nat)
  /\ pageNames localeCompare (imagesOnly ["page2.jpg"; "page10.jpg"; "page1.jpg"])
     = ["page1.jpg"; "page2.jpg"; "page10.jpg"].
Proof.
  intros pages.
  set (compare := fun a b => FileManager.naturalSort localeCompare
                     (FileManager.i_filename a) (FileManager.i_filename b)).
  set (sorted := FileManager.sort compare (FileManager.images cf)).
  assert (Hpages : pages = imap (fun k => pageOf (FileManager.translations cf) (0 + k)) sorted)
    by apply matched_matchFiles.
  assert (Himg : List.map FileManager.image pages = sorted)
    by (rewrite Hpages; apply map_image_pages).
  assert (Hidx : List.map FileManager.pageIndex pages = seq 0 (length sorted))
    by (rewrite Hpages; apply map_pageIndex_pages).
  assert (Hlen : length sorted = length (FileManager.images cf))
    by apply sort_length.
  assert (Hsorted : StronglySorted (fun a b => compare a b <> Gt) sorted).
  { apply sort_sorted.
    - intros a b. unfold compare, FileManager.naturalSort.
      apply collation_antisym.
    - intros a b c. unfold compare, FileManager.naturalSort.
      apply collation_trans. }
  split; [|split; [|split; [|split; [|split]]]].
  - now rewrite Hpages, length_imap.
  - rewrite Himg. apply sort_perm.
  - now rewrite Hidx, Hlen.
  - now rewrite Himg.
  - intros P Q prefix run1 rest1 run2 rest2 HP HQ HfP HfQ H1 H2 Hlt.
    apply list_elem_of_In, list_elem_of_lookup in HP as [i Hi].
    apply list_elem_of_In, list_elem_of_lookup in HQ as [j Hj].
    assert (HiP : FileManager.pageIndex P = i /\ sorted !! i = Some (FileManager.image P)).
    { rewrite Hpages, list_lookup_imap in Hi.
      destruct (sorted !! i) as [x|]; [|discriminate]. injection Hi as <-.
      now split. }
    assert (HjQ : FileManager.pageIndex Q = j /\ sorted !! j = Some (FileManager.image Q)).
    { rewrite Hpages, list_lookup_imap in Hj.
      destruct (sorted !! j) as [x|]; [|discriminate]. injection Hj as <-.
      now split. }
    destruct HiP as [-> HiP], HjQ as [-> HjQ].
    pose proof (naturalSort_digit_runs localeCompare _ _ _ _ _ H1 H2 Hlt) as HLt.
    rewrite <- HfP, <- HfQ in HLt.
    destruct (Nat.lt_trichotomy i j) as [Hij | [Hij | Hij]]; [exact Hij | |].
    + subst j. rewrite HiP in HjQ. injection HjQ as HPQ.
      rewrite <- HPQ in HLt. unfold FileManager.naturalSort in HLt.
      rewrite (collation_refl localeCompare) in HLt. discriminate.
    + exfalso.
      apply (StronglySorted_lookup_lt _ _ _ _ _ _ Hsorted HjQ HiP Hij).
      unfold compare. unfold FileManager.naturalSort in *.
      now rewrite collation_antisym, HLt.
  - now apply three_pages_sorted.
Qed.

Lemma pages_in_natural_order_witness :
  pageNames codeUnitCompare (imagesOnly ["page2.jpg"; "page10.jpg"; "page1.jpg"])
  = ["page1.jpg"; "page2.jpg"; "page10.jpg"].
Proof.
  exact (proj2 (proj2 (proj2 (proj2 (proj2
           (pages_in_natural_order codeUnitCompare
              (imagesOnly ["page2.jpg"; "page10.jpg"; "page1.jpg"]))))))).
Defined.

(** C1, as stated, fails for digit runs of more than ten digits, which are
    not padded: 10000000000 sorts before 9999999999. *)
Lemma eleven_digit_run_misordered :
  pageNames codeUnitCompare (imagesOnly ["9999999999.jpg"; "10000000000.jpg"])
  = ["10000000000.jpg"; "9999999999.jpg"]
  /\ (numValue "9999999999" < numValue "10000000000")%N
  /\ FileManager.normalize "10000000000.jpg" = "10000000000.jpg"
  /\ FileManager.normalize "9999999999.jpg" = "9999999999.jpg".
Proof. vm_compute. repeat split; reflexivity. Qed.

(* ====================================================================== *)
(** * Pairing images with translations *)
(* ====================================================================== *)

Lemma find_first_with {A} (f : A -> bool) (l : list A) (t : A) :
  first_with (fun x => f x = true) l t -> List.find f l = Some t.
Proof.
  intros (l1 & l2 & -> & Ht & Hl1).
  induction l1 as [|x l1 IH]; simpl.
  - now rewrite Ht.
  - destruct (f x) eqn:Hx.
    + exfalso. apply (Hl1 x); [now left | exact Hx].
    + apply IH. intros y Hy. apply Hl1. now right.
Qed.

Lemma find_none {A} (f : A -> bool) (l : list A) :
  (forall x, In x l -> f x <> true) -> List.find f l = None.
Proof.
  induction l as [|x l IH]; intros H; simpl; [reflexivity|].
  destruct (f x) eqn:Hx.
  - exfalso. apply (H x); [now left | exact Hx].
  - apply IH. intros y Hy. apply H. now right.
Qed.

Lemma first_with_ext {A} (P Q : A -> Prop) (l : list A) (t : A) :
  (forall x, P x <-> Q x) -> first_with P l t -> first_with Q l t.
Proof.
  intros HPQ (l1 & l2 & Hl & Ht & Hl1). exists l1, l2.
  split; [exact Hl|]. split; [now apply HPQ|].
  intros x Hx HQ. apply (Hl1 x Hx). now apply HPQ.
Qed.

(** [findMatchingTranslation] applies the pairing rule to the recorded
    [baseName] fields. *)
Lemma findMatchingTranslation_paired translations image :
  FileManager.i_baseName image <> EmptyString ->
  pairedOn FileManager.t_baseName translations (FileManager.i_baseName image)
           (FileManager.findMatchingTranslation translations image).
Proof.
  intros Hbase. unfold pairedOn, FileManager.findMatchingTranslation.
  rewrite (truthy_nonempty _ Hbase). simpl.
  set (base := FileManager.i_baseName image).
  set (exactb := fun trans => String.eqb (FileManager.t_baseName trans) base).
  set (fuzzyb := fun trans =>
                   String.eqb (FileManager.normalizeFilename base)
                     (FileManager.normalizeFilename (FileManager.t_baseName trans))).
  split; [|split].
  - intros t Ht.
    rewrite (find_first_with exactb translations t); [reflexivity|].
    eapply first_with_ext; [|exact Ht].
    intros x. unfold exactb. symmetry. apply String.eqb_eq.
  - intros Hno t Ht.
    rewrite (find_none exactb).
    + apply (find_first_with fuzzyb translations t).
      eapply first_with_ext; [|exact Ht].
      intros x. unfold fuzzyb. rewrite String.eqb_eq. split; congruence.
    + intros x Hx. unfold exactb. rewrite String.eqb_eq. now apply Hno.
  - intros Hno.
    rewrite (find_none exactb).
    + apply find_none. intros x Hx. unfold fuzzyb. rewrite String.eqb_eq.
      intros Heq. apply (Hno x Hx). now symmetry.
    + intros x Hx. unfold exactb. rewrite String.eqb_eq.
      intros Heq. apply (Hno x Hx). now rewrite Heq.
Qed.

Lemma first_with_ext_in {A} (P Q : A -> Prop) (l : list A) (t : A) :
  (forall x, In x l -> (P x <-> Q x)) -> first_with P l t -> first_with Q l t.
Proof.
  intros HPQ (l1 & l2 & Hl & Ht & Hl1). exists l1, l2.
  split; [exact Hl|]. subst l. split.
  - apply HPQ; [apply in_or_app; right; now left | exact Ht].
  - intros x Hx HQ. apply (Hl1 x Hx).
    apply HPQ; [apply in_or_app; now left | exact HQ].
Qed.

(** The rule depends on the keys of the listed translations only. *)
Lemma pairedOn_ext key1 key2 translations base found :
  (forall t, In t translations -> key1 t = key2 t) ->
  pairedOn key1 translations base found ->
  pairedOn key2 translations base found.
Proof.
  intros Hkey (Hexact & Hfuzzy & Hnone). unfold pairedOn. cbv zeta.
  split; [|split].
  - intros t Ht. apply Hexact. eapply first_with_ext_in; [|exact Ht].
    intros x Hx. cbv beta. now rewrite (Hkey x Hx).
  - intros Hno t Ht. apply Hfuzzy.
    + intros x Hx. rewrite (Hkey x Hx). now apply Hno.
    + eapply first_with_ext_in; [|exact Ht].
      intros x Hx. cbv beta. now rewrite (Hkey x Hx).
  - intros Hno. apply Hnone. intros x Hx. rewrite (Hkey x Hx). now apply Hno.
Qed.

Section AcceptedNames.
Import JsString FileManager.

(** A name that is not skipped does not start with a dot, so that its
    base name is not empty. *)
Lemma unskipped_baseName filename :
  shouldSkipFile filename = false -> FileUtils.getBaseName filename <> EmptyString.
Proof.
  destruct filename as [|c rest]; [intros H; vm_compute in H; discriminate|].
  intros Hskip. simpl.
  destruct (Ascii.eqb c ".") eqn:Hc; [|discriminate].
  exfalso. apply Ascii.eqb_eq in Hc. subst c.
  unfold shouldSkipFile in Hskip.
  assert (Hdot : startsWith (toLowerCase (String "." rest)) "." = true)
    by (simpl; destruct (toLowerCase rest); reflexivity).
  rewrite Hdot in Hskip. discriminate.
Qed.

Lemma acceptedImage_baseName entry i :
  acceptedImage entry = Some i -> i_baseName i <> EmptyString.
Proof.
  destruct entry as [filename e]. unfold acceptedImage.
  destruct (dir e); [discriminate|].
  destruct (shouldSkipFile filename) eqn:Hskip; [discriminate|]. simpl.
  destruct (negb (FileUtils.isImage filename)); [discriminate|].
  destruct (async_blob e) as [blob|]; [|discriminate].
  destruct (isValidImage blob); [|discriminate].
  intros [= <-]. simpl. now apply unskipped_baseName.
Qed.

(** The fields that extraction records from the name of an entry. *)
Lemma acceptedImage_names filename e i :
  acceptedImage (filename, e) = Some i ->
  i_filename i = cleanFilename filename
  /\ i_baseName i = FileUtils.getBaseName filename.
Proof.
  unfold acceptedImage.
  destruct (_ || _); [discriminate|].
  destruct (async_blob e) as [blob|]; [|discriminate].
  destruct (isValidImage blob); [|discriminate].
  intros [= <-]. now split.
Qed.

Lemma acceptedTranslation_names JSON_parse filename e t :
  acceptedTranslation JSON_parse (filename, e) = Some t ->
  t_filename t = cleanFilename filename
  /\ t_baseName t = FileUtils.getBaseName filename.
Proof.
  unfold acceptedTranslation.
  destruct (_ || _); [discriminate|].
  destruct (async_text e) as [text|]; [|discriminate].
  destruct (JSON_parse text) as [json|]; [|discriminate].
  destruct (isValidMokuroJSON json) as [[]|]; try discriminate.
  intros [= <-]. now split.
Qed.

Lemma cleanFilename_flat filename :
  has_char "/" filename = false -> has_char "\" filename = false ->
  cleanFilename filename = filename.
Proof.
  intros H1 H2. unfold cleanFilename.
  now rewrite (lastSegment_no_sep "/"), (lastSegment_no_sep "\").
Qed.

End AcceptedNames.

(** The code's pairing.  After a successful extraction, every page that
    [matchFiles] builds pairs its image by the rule on the recorded
    [baseName] fields, and [hasTranslation] tells whether there is a
    translation. *)
Lemma recorded_pairing
    (JSON_parse : string -> option jsval)
    (localeCompare : string -> string -> comparison)
    (zipData : list (string * FileManager.ZipEntry))
    (cf : FileManager.CurrentFiles) :
  FileManager.extractFiles JSON_parse zipData FileManager.noFiles = (Ok tt, cf) ->
  forall P,
    In P (FileManager.matched (FileManager.matchFiles localeCompare cf)) ->
    In (FileManager.image P) (FileManager.images cf)
    /\ pairedOn FileManager.t_baseName (FileManager.translations cf)
                (FileManager.i_baseName (FileManager.image P))
                (FileManager.translation P)
    /\ FileManager.hasTranslation P
       = FileManager.is_some (FileManager.translation P).
Proof.
  intros Hextract.
  assert (Hcf : cf = snd (FileManager.extractFiles JSON_parse zipData
                            FileManager.noFiles)) by now rewrite Hextract.
  rewrite extractFiles_files in Hcf.
  intros P HP. rewrite matched_matchFiles in HP.
  apply list_elem_of_In, elem_of_lookup_imap in HP as (k & img & -> & Hk).
  assert (Himg : In img (FileManager.images cf)).
  { apply list_elem_of_In. eapply list_elem_of_lookup_2 in Hk.
    now rewrite sort_perm in Hk. }
  split; [exact Himg|]. split; [|reflexivity].
  apply findMatchingTranslation_paired.
  rewrite Hcf in Himg. simpl in Himg.
  apply list_elem_of_In, list_elem_of_omap in Himg as (entry & _ & Hentry).
  now apply (acceptedImage_baseName entry).
Qed.

(** Where the claim C3 holds.  When no entry name of the archive holds a
    directory separator, the recorded base names are those of the
    specification, and every page is paired as the specification says:
    with the first translation of the same base name when there is one;
    otherwise with the first translation whose normalized base name is
    that of the image; otherwise with none. *)
Lemma flat_archive_pairing
    (JSON_parse : string -> option jsval)
    (localeCompare : string -> string -> comparison)
    (zipData : list (string * FileManager.ZipEntry))
    (cf : FileManager.CurrentFiles) :
  flatArchive zipData ->
  FileManager.extractFiles JSON_parse zipData FileManager.noFiles = (Ok tt, cf) ->
  forall P,
    In P (FileManager.matched (FileManager.matchFiles localeCompare cf)) ->
    paired (FileManager.translations cf) (FileManager.image P)
           (FileManager.translation P)
    /\ FileManager.hasTranslation P
       = FileManager.is_some (FileManager.translation P).
Proof.
  intros Hflat Hextract P HP.
  destruct (recorded_pairing _ _ _ _ Hextract P HP) as (Himg & Hpaired & Hhas).
  split; [|exact Hhas].
  assert (Hcf : cf = snd (FileManager.extractFiles JSON_parse zipData
                            FileManager.noFiles)) by now rewrite Hextract.
  rewrite extractFiles_files in Hcf. unfold paired.
  assert (Hbase : FileManager.i_baseName (FileManager.image P)
                  = specBase_image (FileManager.image P)).
  { rewrite Hcf in Himg. cbn [FileManager.images] in Himg.
    apply list_elem_of_In, list_elem_of_omap in Himg
      as ([filename e] & Hentry & Haccepted).
    apply list_elem_of_In, Hflat in Hentry as [H1 H2].
    apply acceptedImage_names in Haccepted as [Hname Hb].
    unfold specBase_image.
    now rewrite Hname, Hb, (cleanFilename_flat _ H1 H2). }
  rewrite <- Hbase. eapply pairedOn_ext; [|exact Hpaired].
  intros t Ht. rewrite Hcf in Ht. cbn [FileManager.translations] in Ht.
  apply list_elem_of_In, list_elem_of_omap in Ht
    as ([filename e] & Hentry & Haccepted).
  apply list_elem_of_In, Hflat in Hentry as [H1 H2].
  apply acceptedTranslation_names in Haccepted as [Hname Hb].
  unfold specBase_translation.
  now rewrite Hname, Hb, (cleanFilename_flat _ H1 H2).
Qed.

(** The example of the claim C3 is in an archive without directories:
    [Page_05.png] is paired with [page-05.json], both normalizing to
    [page05]. *)
Lemma fuzzy_example_paired :
  flatArchive fuzzyArchive
  /\ FileManager.normalizeFilename "Page_05" = "page05"
  /\ FileManager.normalizeFilename "page-05" = "page05"
  /\ List.map
       (fun P => (FileManager.i_filename (FileManager.image P),
                  option_map FileManager.t_filename (FileManager.translation P)))
       (FileManager.matched
          (FileManager.matchFiles codeUnitCompare
             (snd (FileManager.extractFiles sampleParse fuzzyArchive
                     FileManager.noFiles))))
     = [ ("Page_05.png", Some "page-05.json") ]
  /\ Forall
       (fun P =>
          paired (FileManager.translations
                    (snd (FileManager.extractFiles sampleParse fuzzyArchive
                            FileManager.noFiles)))
                 (FileManager.image P) (FileManager.translation P))
       (FileManager.matched
          (FileManager.matchFiles codeUnitCompare
             (snd (FileManager.extractFiles sampleParse fuzzyArchive
                     FileManager.noFiles)))).
Proof.
  assert (Hflat : flatArchive fuzzyArchive).
  { intros filename e [[= <- <-] | [[= <- <-] | []]]; split; reflexivity. }
  split; [exact Hflat|].
  split; [reflexivity|]. split; [reflexivity|]. split; [reflexivity|].
  apply List.Forall_forall. intros P HP.
  apply (flat_archive_pairing sampleParse codeUnitCompare fuzzyArchive
           (snd (FileManager.extractFiles sampleParse fuzzyArchive
                   FileManager.noFiles)) Hflat eq_refl P HP).
Qed.

(** C3 (the code departs from the claim).  The image [images/page_01.jpg]
    and the translation [ocr/page_01.json] are both extracted, with the
    file names [page_01.jpg] and [page_01.json], and both have the base
    name [page_01] of the specification, an exact match.  The code joins
    on the recorded [baseName] fields, which keep the directory
    ([images/page_01] and [ocr/page_01], normalized [imagespage01] and
    [ocrpage01]): the page gets no translation, against the pairing of
    the specification. *)
Theorem pairing_misses_across_directories :
  let run := FileManager.extractFiles sampleParse crossArchive
               FileManager.noFiles in
  let cf := snd run in
  let pages := FileManager.matched (FileManager.matchFiles codeUnitCompare cf) in
  fst run = Ok tt
  /\ List.map (fun i => (FileManager.i_filename i, FileManager.i_baseName i,
                         specBase_image i))
              (FileManager.images cf)
     = [ ("page_01.jpg", "images/page_01", "page_01") ]
  /\ List.map (fun t => (FileManager.t_filename t, FileManager.t_baseName t,
                         specBase_translation t))
              (FileManager.translations cf)
     = [ ("page_01.json", "ocr/page_01", "page_01") ]
  /\ spec_baseName "images/page_01.jpg" = spec_baseName "ocr/page_01.json"
  /\ FileManager.normalizeFilename "images/page_01" = "imagespage01"
  /\ FileManager.normalizeFilename "ocr/page_01" = "ocrpage01"
  /\ List.map
       (fun P => (FileManager.i_filename (FileManager.image P),
                  option_map FileManager.t_filename (FileManager.translation P),
                  FileManager.hasTranslation P))
       pages
     = [ ("page_01.jpg", None, false) ]
  /\ Forall
       (fun P => ~ paired (FileManager.translations cf) (FileManager.image P)
                          (FileManager.translation P))
       pages.
Proof.
  intros run cf pages.
  split; [reflexivity|]. split; [reflexivity|]. split; [reflexivity|].
  split; [reflexivity|]. split; [reflexivity|]. split; [reflexivity|].
  split; [vm_compute; reflexivity|].
  assert (Hpages :
    pages = [ {| FileManager.image :=
                   FileManager.imageData "images/page_01.jpg"
                     {| FileManager.blob_size := 1000 |};
                 FileManager.translation := None;
                 FileManager.hasTranslation := false;
                 FileManager.pageIndex := 0 |} ])
    by (vm_compute; reflexivity).
  assert (Htrans :
    FileManager.translations cf
    = [ FileManager.translationData "ocr/page_01.json" "{doc}" sampleDocument ])
    by (vm_compute; reflexivity).
  rewrite Hpages, Htrans. constructor; [|constructor].
  cbn [FileManager.image FileManager.translation].
  intros (Hexact & _).
  specialize (Hexact
    (FileManager.translationData "ocr/page_01.json" "{doc}" sampleDocument)).
  assert (Hnone : @None FileManager.TranslationData
                  = Some (FileManager.translationData "ocr/page_01.json"
                            "{doc}" sampleDocument)); [|discriminate Hnone].
  apply Hexact. exists [], []. split; [reflexivity|].
  split; [reflexivity|]. intros x [].
Qed.

(* ====================================================================== *)
(** * Overlap separation *)
(* ====================================================================== *)

Section Rationals.
Local Open Scope Q_scope.

Lemma Qabs_bounds x : - Qabs x <= x /\ x <= Qabs x.
Proof.
  split.
  - pose proof (Qle_Qabs (- x)) as H. rewrite Qabs_opp in H. lra.
  - apply Qle_Qabs.
Qed.

Lemma Qabs_le_of_bounds x y : - y <= x -> x <= y -> Qabs x <= y.
Proof. intros H1 H2. apply Qabs_Qle_condition. split; assumption. Qed.

Lemma Qabs_nonneg' x : 0 <= Qabs x.
Proof. apply Qabs_nonneg. Qed.

Lemma Qabs_zero : Qabs 0 == 0.
Proof. reflexivity. Qed.

Lemma Qabs_signed_step dir step :
  (dir = 1 \/ dir = -1) -> 0 < step ->
  Qabs (dir * step) == step /\ Qabs (- dir * step) == step.
Proof.
  intros [-> | ->] Hs; split.
  - rewrite Qabs_pos; lra.
  - rewrite Qabs_neg; lra.
  - rewrite Qabs_neg; lra.
  - rewrite Qabs_pos; lra.
Qed.

Lemma Qle_bool_true x y : Qle_bool x y = true <-> x <= y.
Proof. apply Qle_bool_iff. Qed.

Lemma Qle_bool_false x y : Qle_bool x y = false <-> y < x.
Proof.
  split.
  - intros H. apply Qnot_le_lt. intros Hle.
    apply Qle_bool_iff in Hle. congruence.
  - intros H. destruct (Qle_bool x y) eqn:E; [|reflexivity].
    apply Qle_bool_iff in E. lra.
Qed.

End Rationals.

Section Nudge.
Import MangaReader.
Local Open Scope Q_scope.

Lemma nudge_size el dx dy ov :
  b_width (nudgeWithinOverlay el dx dy ov) = b_width el
  /\ b_height (nudgeWithinOverlay el dx dy ov) = b_height el.
Proof. split; reflexivity. Qed.

Lemma clamp_inside lo hi x d :
  lo <= x -> x <= hi ->
  lo <= Qmax lo (Qmin hi (x + d)) /\ Qmax lo (Qmin hi (x + d)) <= hi
  /\ Qabs (Qmax lo (Qmin hi (x + d)) - x) <= Qabs d.
Proof.
  intros Hlo Hhi. pose proof (Qabs_bounds d) as [Hd1 Hd2].
  destruct (Q.min_spec hi (x + d)) as [[Hm Em] | [Hm Em]];
    destruct (Q.max_spec lo (Qmin hi (x + d))) as [[HM EM] | [HM EM]];
    rewrite EM; rewrite ?Em in *;
    (split; [lra | split; [lra | apply Qabs_le_of_bounds; lra]]).
Qed.

(** Inside the bounds the clamp only shortens a move. *)
Lemma nudge_in_bounds el dx dy ov :
  in_bounds ov el ->
  in_bounds ov (nudgeWithinOverlay el dx dy ov)
  /\ displacement el (nudgeWithinOverlay el dx dy ov) <= Qabs dx + Qabs dy.
Proof.
  intros (Hl1 & Hl2 & Ht1 & Ht2).
  destruct (clamp_inside margin (r_width ov - b_width el - margin)
              (b_left el) dx Hl1 Hl2) as (A1 & A2 & A3).
  destruct (clamp_inside margin (r_height ov - b_height el - margin)
              (b_top el) dy Ht1 Ht2) as (B1 & B2 & B3).
  unfold in_bounds, displacement, nudgeWithinOverlay.
  cbn [b_left b_top b_width b_height getBoundingClientRect r_width r_height].
  repeat split; try assumption. lra.
Qed.

End Nudge.

Section PairStep.
Import MangaReader.
Local Open Scope Q_scope.


Lemma pushDir_unit axis ra rb :
  pushDir axis ra rb = 1 \/ pushDir axis ra rb = -1.
Proof.
  unfold pushDir. destruct axis;
    match goal with |- context [Qle_bool ?x ?y] => destruct (Qle_bool x y) end;
    auto.
Qed.


Lemma along_requested axis dir step :
  (dir = 1 \/ dir = -1) -> 0 < step ->
  let da := along axis (- dir * step) in
  let db := along axis (dir * step) in
  Qabs (fst da) + Qabs (snd da) == step
  /\ Qabs (fst db) + Qabs (snd db) == step
  /\ fst da == - fst db /\ snd da == - snd db.
Proof.
  intros Hdir Hstep.
  destruct (Qabs_signed_step dir step Hdir Hstep) as [H1 H2].
  destruct axis; simpl; rewrite H1, H2, Qabs_zero; repeat split; lra.
Qed.

Lemma separatePair_cases ov s i j :
  separatePair ov s (i, j) = (s, false)
  \/ exists a b,
       s_blocks s !! i = Some a /\ s_blocks s !! j = Some b
       /\ rectsOverlap (getBoundingClientRect ov a)
                       (getBoundingClientRect ov b) = true
       /\ 0 < pairStep (s_moved s) i j (getBoundingClientRect ov a)
                       (getBoundingClientRect ov b)
       /\ separatePair ov s (i, j) = (pushedState ov s i j a b, true).
Proof.
  unfold separatePair.
  destruct (s_blocks s !! i) as [a|]; [|now left].
  destruct (s_blocks s !! j) as [b|]; [|now left].
  destruct (rectsOverlap _ _) eqn:Hover; [|now left]. simpl negb. cbv iota.
  destruct (Qle_bool _ 0) eqn:Hstep; [now left|].
  right. exists a, b. apply Qle_bool_false in Hstep.
  repeat split; try assumption.
  unfold pushedState.
  destruct (pushAxis (getBoundingClientRect ov a) (getBoundingClientRect ov b));
    reflexivity.
Qed.

End PairStep.

Section Pairs.
Import MangaReader.

Lemma in_pairs n i j : In (i, j) (pairs n) <-> (i < j < n)%nat.
Proof.
  unfold pairs. rewrite in_flat_map. split.
  - intros (k & Hk & Hin). apply in_map_iff in Hin as (m & [= <- <-] & Hm).
    apply in_seq in Hk, Hm. lia.
  - intros H. exists i. split; [apply in_seq; lia|].
    apply in_map_iff. exists j. split; [reflexivity | apply in_seq; lia].
Qed.

Lemma pairs_lt n p : In p (pairs n) -> (fst p < snd p < n)%nat.
Proof. destruct p as [i j]. apply in_pairs. Qed.

End Pairs.

Section SweepInvariants.
Import MangaReader.

Variable ov : DOMRect.
Variable I : Sep -> Prop.
Hypothesis pair_preserves :
  forall s i j, (i < j)%nat -> I s -> I (fst (separatePair ov s (i, j))).

Lemma fold_sweepStep_preserves l : forall acc,
  (forall p, In p l -> (fst p < snd p)%nat) ->
  I (fst acc) -> I (fst (fold_left (sweepStep ov) l acc)).
Proof.
  induction l as [|[i j] l IH]; intros [s any] Hl Hs; [exact Hs|].
  cbn [fold_left]. apply IH.
  - intros p Hp. apply Hl. now right.
  - unfold sweepStep.
    specialize (pair_preserves s i j (Hl (i, j) (or_introl eq_refl)) Hs).
    destruct (separatePair ov s (i, j)) as [s' pushed]. exact pair_preserves.
Qed.

Lemma sweep_preserves s : I s -> I (fst (sweep ov s)).
Proof.
  intros Hs. unfold sweep. apply fold_sweepStep_preserves; [|exact Hs].
  intros p Hp. apply pairs_lt in Hp. lia.
Qed.

Lemma sweeps_preserves fuel : forall s, I s -> I (fst (sweeps fuel ov s)).
Proof.
  induction fuel as [|fuel IH]; intros s Hs; [exact Hs|].
  cbn [sweeps]. pose proof (sweep_preserves s Hs) as H1.
  destruct (sweep ov s) as [s1 any]. destruct any; [|exact H1].
  specialize (IH s1 H1). destruct (sweeps fuel ov s1) as [s2 flags].
  exact IH.
Qed.

End SweepInvariants.

Section MovedTotals.
Import MangaReader.
Local Open Scope Q_scope.





End MovedTotals.

Section PushedBlocks.
Import MangaReader.
Local Open Scope Q_scope.

(** The blocks of a pushed pair: both keep their size; one that was inside
    the bounds stays inside and moves by at most the step. *)
Lemma pushed_blocks ov s i j a b :
  0 < pairStep (s_moved s) i j (getBoundingClientRect ov a)
               (getBoundingClientRect ov b) ->
  exists a' b',
    s_blocks (pushedState ov s i j a b)
      = <[j := b']> (<[i := a']> (s_blocks s))
    /\ b_width a' = b_width a /\ b_height a' = b_height a
    /\ b_width b' = b_width b /\ b_height b' = b_height b
    /\ (in_bounds ov a ->
        in_bounds ov a'
        /\ displacement a a'
           <= pairStep (s_moved s) i j (getBoundingClientRect ov a)
                       (getBoundingClientRect ov b))
    /\ (in_bounds ov b ->
        in_bounds ov b'
        /\ displacement b b'
           <= pairStep (s_moved s) i j (getBoundingClientRect ov a)
                       (getBoundingClientRect ov b)).
Proof.
  intros Hstep. unfold pushedState. cbn [s_blocks].
  set (ra := getBoundingClientRect ov a) in *.
  set (rb := getBoundingClientRect ov b) in *.
  set (step := pairStep (s_moved s) i j ra rb) in *.
  destruct (along_requested (pushAxis ra rb) (pushDir (pushAxis ra rb) ra rb)
              step (pushDir_unit _ _ _) Hstep) as (Ha & Hb & _).
  eexists. eexists. split; [reflexivity|].
  split; [reflexivity|]. split; [reflexivity|].
  split; [reflexivity|]. split; [reflexivity|].
  split; intros Hin.
  - match goal with
    | |- context [nudgeWithinOverlay a ?dx ?dy ov] =>
        destruct (nudge_in_bounds a dx dy ov Hin) as [H1 H2]
    end.
    split; [exact H1 | lra].
  - match goal with
    | |- context [nudgeWithinOverlay b ?dx ?dy ov] =>
        destruct (nudge_in_bounds b dx dy ov Hin) as [H1 H2]
    end.
    split; [exact H1 | lra].
Qed.

Lemma pushed_lookup (blocks : list Block) i j a b a' b' k :
  i <> j -> blocks !! i = Some a -> blocks !! j = Some b ->
  <[j := b']> (<[i := a']> blocks) !! k
  = if decide (k = j) then Some b'
    else if decide (k = i) then Some a' else blocks !! k.
Proof.
  intros Hij Hi Hj.
  apply lookup_lt_Some in Hi, Hj.
  destruct (decide (k = j)) as [->|Hkj].
  - apply list_lookup_insert_eq. now rewrite length_insert.
  - rewrite list_lookup_insert_ne by congruence.
    destruct (decide (k = i)) as [->|Hki].
    + now apply list_lookup_insert_eq.
    + now rewrite list_lookup_insert_ne by congruence.
Qed.


End PushedBlocks.

Section Sweeps.
Import MangaReader.
Local Open Scope Q_scope.






End Sweeps.

Section SeparateRun.
Import MangaReader.
Local Open Scope Q_scope.

Lemma separate_invariant (I : Sep -> Prop) r :
  (forall s i j, (i < j)%nat -> I s -> I (fst (separatePair (overlay r) s (i, j)))) ->
  I {| s_blocks := blocks r; s_original := originalPositions r; s_moved := ∅ |} ->
  I (fst (separate r)).
Proof.
  intros Hpair Hstart. unfold separate.
  destruct (blocks r) eqn:Hb; [exact Hstart|]. rewrite <- Hb in *.
  now apply sweeps_preserves.
Qed.



End SeparateRun.



(* ====================================================================== *)
(** * Saved originals *)
(* ====================================================================== *)

Section Originals.
Import MangaReader.
Local Open Scope Q_scope.

Variable blocks0 : list Block.







End Originals.

Section LazySaving.
Import MangaReader.
Local Open Scope Q_scope.



End LazySaving.



(* ====================================================================== *)
(** * Further properties: file names *)
(* ====================================================================== *)

Section FileNames.
Import JsString.
Local Open Scope string_scope.

Lemma has_char_app sep (a b : string) :
  has_char sep (a ++ b) = has_char sep a || has_char sep b.
Proof.
  induction a as [|c a IH]; [reflexivity|].
  rewrite append_cons. simpl. now rewrite IH, orb_assoc.
Qed.

Lemma lastSegment_clean sep s : has_char sep (lastSegment sep s) = false.
Proof.
  induction s as [|c s IH]; [reflexivity|]. simpl.
  destruct (has_char sep s) eqn:Hs; [exact IH|].
  destruct (Ascii.eqb c sep) eqn:Hc; [exact Hs|].
  simpl. now rewrite Hc, Hs.
Qed.

Lemma lastSegment_suffix sep s : exists p, s = p ++ lastSegment sep s.
Proof.
  induction s as [|c s [p IH]]; [now exists EmptyString|]. simpl.
  destruct (has_char sep s).
  - exists (String c p). now rewrite append_cons, <- IH.
  - destruct (Ascii.eqb c sep).
    + now exists (String c EmptyString).
    + now exists EmptyString.
Qed.

Lemma lower_char_dot c : lower_char c = "."%char <-> c = "."%char.
Proof.
  destruct c as [[] [] [] [] [] [] [] []]; vm_compute; split; congruence.
Qed.

Lemma has_dot_toLowerCase s : has_char "." (toLowerCase s) = has_char "." s.
Proof.
  induction s as [|c s IH]; [reflexivity|]. simpl. rewrite IH. f_equal.
  destruct (Ascii.eqb_spec c "."%char) as [Hc|Hne].
  - apply Ascii.eqb_eq, (proj2 (lower_char_dot c)), Hc.
  - apply Ascii.eqb_neq. intros H. apply Hne, (proj1 (lower_char_dot c)), H.
Qed.

Lemma media_ext_no_dot rest :
  FileUtils.is_media_ext rest = true -> has_char "." rest = false.
Proof.
  unfold FileUtils.is_media_ext, mem, FileUtils.mediaExtensions.
  intros H. rewrite <- has_dot_toLowerCase.
  apply existsb_exists in H as (e & He & Heq).
  apply String.eqb_eq in Heq. rewrite Heq.
  simpl in He. repeat (destruct He as [<- | He]; [reflexivity|]). destruct He.
Qed.

Lemma getBaseName_strips p e :
  FileUtils.is_media_ext e = true ->
  FileUtils.getBaseName (p ++ String "." e) = p.
Proof.
  intros He. induction p as [|c p IH].
  - rewrite append_nil_l. simpl. now rewrite He.
  - rewrite append_cons. simpl. rewrite IH.
    destruct (Ascii.eqb c ".") eqn:Hc; [|reflexivity].
    destruct (FileUtils.is_media_ext (p ++ String "." e)) eqn:Hm; [|reflexivity].
    apply media_ext_no_dot in Hm. rewrite has_char_app in Hm. simpl in Hm.
    now rewrite orb_true_r in Hm.
Qed.

Lemma getBaseName_keeps f :
  (forall p e, f = p ++ String "." e -> FileUtils.is_media_ext e = false) ->
  FileUtils.getBaseName f = f.
Proof.
  induction f as [|c f IH]; intros H; [reflexivity|]. simpl.
  rewrite IH.
  - destruct (Ascii.eqb_spec c "."%char) as [->|Hne]; [|reflexivity].
    now rewrite (H EmptyString f eq_refl).
  - intros p e ->. apply (H (String c p) e). now rewrite append_cons.
Qed.

Lemma endsWith_app s suf : endsWith s suf = true <-> exists p, s = p ++ suf.
Proof.
  split.
  - induction s as [|c s IH]; cbn [endsWith]; intros H;
      apply orb_true_iff in H as [H|H]; try discriminate H;
      try (apply String.eqb_eq in H; subst suf; now exists EmptyString).
    destruct (IH H) as [p ->]. now exists (String c p).
  - intros [p ->]. induction p as [|c p IH].
    + rewrite append_nil_l. destruct suf; cbn [endsWith];
        now rewrite String.eqb_refl.
    + rewrite append_cons. cbn [endsWith]. now rewrite IH, orb_true_r.
Qed.

Lemma lastSegment_json p : lastSegment "." (p ++ ".json") = "json".
Proof.
  induction p as [|c p IH]; [reflexivity|].
  rewrite append_cons. simpl. rewrite has_char_app. simpl.
  now rewrite orb_true_r.
Qed.

End FileNames.


(** X2.  [getBaseName] removes a final [.ext] when [ext] is one of jpg,
    jpeg, png, gif, webp and json in any letter case, and only that: a name
    [p.ext] gives [p], whatever dots [p] holds, and a name without such an
    ending is returned as it is. *)
Theorem getBaseName_extension (filename : string) :
  (forall p e,
     filename = (p ++ String "." e)%string ->
     FileUtils.is_media_ext e = true ->
     FileUtils.getBaseName filename = p)
  /\ ((forall p e,
         filename = (p ++ String "." e)%string ->
         FileUtils.is_media_ext e = false) ->
      FileUtils.getBaseName filename = filename).
Proof.
  split.
  - intros p e -> He. now apply getBaseName_strips.
  - apply getBaseName_keeps.
Qed.

(** X3.  No name is both an image name and a JSON name: a name that
    [isJSON] accepts has [json] after its last dot, which [isImage]
    rejects.  A name that [shouldSkipFile] lets through is an image name or
    has [json] after its last dot (or is the bare word [json]). *)
Theorem image_and_json_names (filename : string) :
  (FileUtils.isJSON filename = true ->
   JsString.lastSegment "." (JsString.toLowerCase filename) = "json"
   /\ FileUtils.isImage filename = false)
  /\ (FileManager.shouldSkipFile filename = false ->
      FileUtils.isImage filename = true
      \/ JsString.lastSegment "." (JsString.toLowerCase filename) = "json").
Proof.
  split.
  - unfold FileUtils.isJSON, FileUtils.isImage. intros H.
    apply endsWith_app in H as [p Hp]. rewrite Hp, lastSegment_json.
    split; reflexivity.
  - unfold FileManager.shouldSkipFile, FileUtils.isImage.
    destruct (_ || _); [discriminate|]. destruct (_ || _); [discriminate|].
    change FileManager.supportedImageTypes with FileUtils.imageExtensions.
    destruct (JsString.mem _ FileUtils.imageExtensions); [now left|].
    simpl. destruct (String.eqb_spec
                       (JsString.lastSegment "." (JsString.toLowerCase filename))
                       "json") as [->|Hne]; [now right | discriminate].
Qed.

(* ====================================================================== *)
(** * Further properties: normal forms of names *)
(* ====================================================================== *)

Section NormalForms.
Import JsString.
Local Open Scope string_scope.

Lemma sanitize_cons c s :
  StringUtils.sanitize (String c s)
  = String (lower_char (if StringUtils.is_key_char c then c else "_"%char))
      (StringUtils.sanitize s).
Proof. reflexivity. Qed.

Lemma sanitize_char_key c :
  storageKeyChar
    (lower_char (if StringUtils.is_key_char c then c else "_"%char)) = true.
Proof. destruct c as [[] [] [] [] [] [] [] []]; reflexivity. Qed.

Lemma sanitize_char_fix c :
  storageKeyChar c = true ->
  lower_char (if StringUtils.is_key_char c then c else "_"%char) = c.
Proof.
  destruct c as [[] [] [] [] [] [] [] []]; vm_compute; congruence.
Qed.

Lemma sanitize_fix s :
  Validation.all storageKeyChar s = true -> StringUtils.sanitize s = s.
Proof.
  induction s as [|c s IH]; [reflexivity|]. cbn [Validation.all].
  intros H. apply andb_true_iff in H as [Hc Hs].
  now rewrite sanitize_cons, sanitize_char_fix, IH.
Qed.

Lemma sanitize_all s :
  Validation.all storageKeyChar (StringUtils.sanitize s) = true.
Proof.
  induction s as [|c s IH]; [reflexivity|].
  rewrite sanitize_cons. cbn [Validation.all].
  now rewrite sanitize_char_key, IH.
Qed.

Lemma sanitize_length s :
  String.length (StringUtils.sanitize s) = String.length s.
Proof.
  induction s as [|c s IH]; [reflexivity|].
  rewrite sanitize_cons. cbn [String.length]. now rewrite IH.
Qed.

Lemma sanitize_truthy s : truthy (StringUtils.sanitize s) = truthy s.
Proof. destruct s; reflexivity. Qed.

Lemma lower_char_idem c : lower_char (lower_char c) = lower_char c.
Proof. destruct c as [[] [] [] [] [] [] [] []]; reflexivity. Qed.

Lemma lower_char_alnum c : lowerAlnum c = true -> lower_char c = c.
Proof.
  destruct c as [[] [] [] [] [] [] [] []]; vm_compute; congruence.
Qed.

Lemma toLowerCase_idem s : toLowerCase (toLowerCase s) = toLowerCase s.
Proof.
  induction s as [|c s IH]; [reflexivity|]. simpl.
  now rewrite lower_char_idem, IH.
Qed.

Lemma toLowerCase_alnum s :
  Validation.all lowerAlnum s = true -> toLowerCase s = s.
Proof.
  induction s as [|c s IH]; [reflexivity|]. cbn [Validation.all].
  intros H. apply andb_true_iff in H as [Hc Hs]. simpl.
  now rewrite lower_char_alnum, IH.
Qed.

Lemma all_filter f s : Validation.all f (filter f s) = true.
Proof.
  induction s as [|c s IH]; [reflexivity|]. simpl.
  destruct (f c) eqn:Hc; [|exact IH]. cbn [Validation.all].
  now rewrite Hc, IH.
Qed.

Lemma filter_all f s : Validation.all f s = true -> filter f s = s.
Proof.
  induction s as [|c s IH]; [reflexivity|]. cbn [Validation.all].
  intros H. apply andb_true_iff in H as [Hc Hs]. simpl.
  now rewrite Hc, IH.
Qed.

Lemma all_dropWhile f g s :
  Validation.all f s = true -> Validation.all f (dropWhile g s) = true.
Proof.
  induction s as [|c s IH]; [reflexivity|]. intros H. simpl.
  destruct (g c); [|exact H].
  cbn [Validation.all] in H. apply andb_true_iff in H as [_ Hs]. now apply IH.
Qed.

Lemma dropWhile_idem f s : dropWhile f (dropWhile f s) = dropWhile f s.
Proof.
  induction s as [|c s IH]; [reflexivity|]. simpl.
  destruct (f c) eqn:Hc; [exact IH|]. simpl. now rewrite Hc.
Qed.

Lemma dropWhile_head f s c r : dropWhile f s = String c r -> f c = false.
Proof.
  induction s as [|d s IH]; [discriminate|]. simpl.
  destruct (f d) eqn:Hd; [exact IH|]. intros H. now inversion H; subst.
Qed.

Lemma trimEnd_idem s : Validation.trimEnd (Validation.trimEnd s) = Validation.trimEnd s.
Proof.
  induction s as [|c s IH]; [reflexivity|]. cbn [Validation.trimEnd].
  destruct (Validation.trimEnd s) as [|d r] eqn:Hr.
  - destruct (Validation.is_space c) eqn:Hc; [reflexivity|].
    cbn [Validation.trimEnd]. now rewrite Hc.
  - cbn [Validation.trimEnd]. cbn [Validation.trimEnd] in IH.
    destruct (Validation.trimEnd r) as [|d' r'].
    + destruct (Validation.is_space d); [discriminate IH|].
      now inversion IH; subst.
    + now inversion IH; subst.
Qed.

Lemma trimEnd_head c r :
  Validation.is_space c = false ->
  exists r', Validation.trimEnd (String c r) = String c r'.
Proof.
  intros Hc. cbn [Validation.trimEnd].
  destruct (Validation.trimEnd r) as [|d r'].
  - rewrite Hc. now exists EmptyString.
  - now exists (String d r').
Qed.

Lemma trim_idem s : Validation.trim (Validation.trim s) = Validation.trim s.
Proof.
  unfold Validation.trim.
  destruct (dropWhile Validation.is_space s) as [|c r] eqn:Hd; [reflexivity|].
  apply dropWhile_head in Hd.
  destruct (trimEnd_head c r Hd) as [r' Hr]. rewrite Hr.
  cbn [dropWhile]. rewrite Hd, <- Hr. apply trimEnd_idem.
Qed.

Lemma substring0_length n s :
  String.length (StringUtils.substring0 n s) = Nat.min n (String.length s).
Proof.
  revert s. induction n as [|n IH]; intros [|c s]; try reflexivity.
  cbn [StringUtils.substring0 String.length]. now rewrite IH.
Qed.

Lemma substring0_prefix n s :
  exists rest, s = StringUtils.substring0 n s ++ rest.
Proof.
  revert s. induction n as [|n IH]; intros s.
  - exists s. now destruct s.
  - destruct s as [|c s]; [now exists EmptyString|].
    destruct (IH s) as [rest Hr]. exists rest.
    cbn [StringUtils.substring0]. now rewrite append_cons, <- Hr.
Qed.

End NormalForms.

(** X4.  [sanitize] maps every string to one of the same length over
    [[a-z0-9-_]], and leaves every such string as it is; so a sanitized
    name is its own storage key. *)
Theorem sanitize_normal_form (str : string) :
  String.length (StringUtils.sanitize str) = String.length str
  /\ Validation.all storageKeyChar (StringUtils.sanitize str) = true
  /\ StringUtils.sanitize (StringUtils.sanitize str) = StringUtils.sanitize str
  /\ (Validation.all storageKeyChar str = true ->
      StringUtils.sanitize str = str).
Proof.
  split; [apply sanitize_length|]. split; [apply sanitize_all|].
  split; [|apply sanitize_fix]. apply sanitize_fix, sanitize_all.
Qed.

(** X5.  [normalizeFilename] maps every name to a string over [[a-z0-9]]
    that does not start with [0]; it leaves its own results as they are
    and does not see the letter case of its argument. *)
Theorem normalizeFilename_normal_form (filename : string) :
  Validation.all lowerAlnum (FileManager.normalizeFilename filename) = true
  /\ JsString.startsWith (FileManager.normalizeFilename filename) "0" = false
  /\ FileManager.normalizeFilename (FileManager.normalizeFilename filename)
     = FileManager.normalizeFilename filename
  /\ FileManager.normalizeFilename (JsString.toLowerCase filename)
     = FileManager.normalizeFilename filename.
Proof.
  unfold FileManager.normalizeFilename.
  change (fun c => JsString.is_lower c || JsString.is_digit c) with lowerAlnum.
  set (kept := JsString.filter lowerAlnum (JsString.toLowerCase filename)).
  assert (Hall : Validation.all lowerAlnum
                   (JsString.dropWhile (Ascii.eqb "0") kept) = true)
    by apply all_dropWhile, all_filter.
  split; [exact Hall|]. split; [|split].
  - destruct (JsString.dropWhile (Ascii.eqb "0") kept) as [|c r] eqn:Hd;
      [reflexivity|].
    apply dropWhile_head in Hd. cbn [JsString.startsWith].
    now rewrite Ascii.eqb_sym, Hd.
  - rewrite (toLowerCase_alnum _ Hall), (filter_all _ _ Hall).
    apply dropWhile_idem.
  - subst kept. now rewrite toLowerCase_idem.
Qed.

(** X6.  A name that [Validation.seriesName] accepts is returned trimmed:
    the value has 1 to 50 characters, all of them allowed, validating it
    again returns it unchanged, and [saveProgress] does not refuse it. *)
Theorem seriesName_accepted (roundPercent : Z -> Z -> Z)
    (name value : string) (sm : StorageManager.State)
    (progressData : StorageManager.ProgressData) (now : Z) :
  Validation.seriesName name = inl value ->
  value = Validation.trim name
  /\ (1 <= String.length value <= 50)%nat
  /\ Validation.all Validation.is_name_char value = true
  /\ Validation.seriesName value = inl value
  /\ fst (StorageManager.saveProgress roundPercent sm value progressData now)
     = true.
Proof.
  unfold Validation.seriesName at 1.
  destruct (negb (JsString.truthy name)); [discriminate|]. cbv zeta.
  destruct (String.length (Validation.trim name) <? 1)%nat eqn:H1;
    [discriminate|].
  destruct (50 <? String.length (Validation.trim name))%nat eqn:H50;
    [discriminate|].
  destruct (negb (Validation.all Validation.is_name_char (Validation.trim name)))
    eqn:Hall; [discriminate|].
  intros H. injection H as <-.
  apply Nat.ltb_ge in H1, H50. apply negb_false_iff in Hall.
  assert (Ht : JsString.truthy (Validation.trim name) = true).
  { destruct (Validation.trim name); [simpl in H1; lia | reflexivity]. }
  split; [reflexivity|]. split; [lia|]. split; [exact Hall|]. split.
  - unfold Validation.seriesName. rewrite Ht, trim_idem. cbv zeta.
    apply Nat.ltb_ge in H1, H50. now rewrite H1, H50, Hall.
  - unfold StorageManager.saveProgress. now rewrite Ht.
Qed.

(** X7.  [truncate] returns a string of at most [length] characters as it
    is; a longer one is cut to its first [length] characters followed by
    three dots, [length + 3] characters in all. *)
Theorem truncate_length (str : string) (length : nat) :
  ((String.length str <= length)%nat -> StringUtils.truncate str length = str)
  /\ ((length < String.length str)%nat ->
      String.length (StringUtils.truncate str length) = (length + 3)%nat
      /\ exists rest,
           str = (StringUtils.substring0 length str ++ rest)%string
           /\ StringUtils.truncate str length
              = (StringUtils.substring0 length str ++ "...")%string).
Proof.
  unfold StringUtils.truncate. split.
  - intros H. destruct str as [|c s]; [reflexivity|]. cbn [JsString.truthy negb].
    apply Nat.leb_le in H. now rewrite H.
  - intros H. destruct str as [|c s]; [simpl in H; lia|].
    cbn [JsString.truthy negb].
    apply Nat.leb_gt in H. rewrite H. apply Nat.leb_gt in H. split.
    + rewrite length_append, substring0_length. simpl String.length at 2. lia.
    + destruct (substring0_prefix length (String c s)) as [rest Hr].
      exists rest. now split.
Qed.

Lemma seriesName_accepted_witness :
  Validation.seriesName "  One Piece (2) " = inl "One Piece (2)"
  /\ Validation.seriesName "One Piece (2)" = inl "One Piece (2)".
Proof.
  split; [reflexivity|].
  destruct (seriesName_accepted (fun _ _ => 0%Z) "  One Piece (2) "
              "One Piece (2)" noProgress sampleProgress 0 eq_refl)
    as (_ & _ & _ & H & _).
  exact H.
Defined.

(* ====================================================================== *)
(** * Further properties: the file manager *)
(* ====================================================================== *)

Section MoreSorting.
Import FileManager.

Context {A : Type} (compare : A -> A -> comparison).

Lemma sort_of_sorted l :
  StronglySorted (fun a b => compare a b <> Gt) l -> sort compare l = l.
Proof.
  induction 1 as [|x l Hl IH Hx]; [reflexivity|].
  cbn [sort]. rewrite IH. destruct l as [|y l']; [reflexivity|].
  cbn [insert]. inversion Hx as [|? ? Hxy _]; subst.
  destruct (compare x y); [reflexivity | reflexivity | congruence].
Qed.

End MoreSorting.

Section Counting.

Context {A : Type} (f : A -> bool).

Lemma filter_length_bound (l : list A) :
  (length (List.filter f l) <= length l)%nat.
Proof.
  induction l as [|x l IH]; simpl; [lia|]. destruct (f x); simpl; lia.
Qed.

Lemma existsb_filter (l : list A) :
  existsb f l = true <-> (0 < length (List.filter f l))%nat.
Proof.
  induction l as [|x l IH]; simpl.
  - split; [discriminate | lia].
  - destruct (f x); simpl; [split; [lia | reflexivity] | exact IH].
Qed.

End Counting.

Lemma validateZipFile_errors file e :
  FileManager.validateZipFile file = Err e ->
  In e [NoFileProvided; NotAZipFile; FileTooLarge; EmptyZipFile].
Proof.
  unfold FileManager.validateZipFile. destruct file as [f|].
  - destruct (_ && _); [intros [= <-]; simpl; tauto|].
    destruct (_ >? _)%Z; [intros [= <-]; simpl; tauto|].
    destruct (_ =? _)%Z; [intros [= <-]; simpl; tauto | discriminate].
  - intros [= <-]. simpl. tauto.
Qed.

Section ManagerFacts.
Import FileManager.

Variable JSON_parse : string -> option jsval.
Variable localeCompare : string -> string -> comparison.
Variable loadAsync : File -> result (list (string * ZipEntry)).

Lemma matchFiles_images cf :
  Permutation (images (matchFiles localeCompare cf)) (images cf).
Proof. apply sort_perm. Qed.

Lemma matchFiles_pages cf :
  length (matched (matchFiles localeCompare cf)) = length (images cf).
Proof.
  rewrite matched_matchFiles, length_imap. apply sort_length.
Qed.

Lemma validate_matchFiles cf :
  images cf <> [] ->
  exists h k,
    validateFileStructure (matchFiles localeCompare cf)
    = Valid h (length (images cf)) k.
Proof.
  intros Hne. unfold validateFileStructure.
  pose proof (matchFiles_images cf) as Hperm.
  pose proof (matchFiles_pages cf) as Hlen.
  destruct (images (matchFiles localeCompare cf)) as [|x l] eqn:Hi.
  - apply Permutation_nil in Hperm. congruence.
  - destruct (matched (matchFiles localeCompare cf)) as [|p ps] eqn:Hm.
    + destruct (images cf); [congruence | discriminate Hlen].
    + rewrite <- Hlen. eauto.
Qed.

(** What the [try] block of [processZipFile] comes to. *)
Lemma processBody_spec file :
  processBody JSON_parse localeCompare loadAsync file
  = match validateZipFile file, file with
    | Err e, _ => (Err e, noFiles)
    | Ok _, None => (Err NoFileProvided, noFiles)
    | Ok _, Some f =>
        match loadAsync f with
        | Err e => (Err e, noFiles)
        | Ok zipData =>
            let cf := {| images := omap acceptedImage zipData;
                         translations :=
                           omap (acceptedTranslation JSON_parse) zipData;
                         matched := [] |} in
            match zipData, images cf with
            | [], _ => (Err NoFilesInZip, noFiles)
            | _, [] => (Err NoValidImages, cf)
            | _, _ =>
                (Ok (zipResult (matchFiles localeCompare cf) f),
                 matchFiles localeCompare cf)
            end
        end
    end.
Proof.
  unfold processBody.
  destruct (validateZipFile file); [|reflexivity].
  destruct file as [f|]; [|reflexivity].
  destruct (loadAsync f) as [zipData|e]; [|reflexivity].
  pose proof (extractFiles_files JSON_parse zipData) as Hfiles.
  pose proof (extractFiles_outcome JSON_parse zipData) as Hout.
  destruct (extractFiles JSON_parse zipData noFiles) as [outcome cf].
  cbn [fst snd] in Hfiles, Hout. subst cf outcome. cbv zeta.
  cbn [images]. destruct zipData as [|entry rest]; [reflexivity|].
  set (zipData := entry :: rest).
  destruct (omap acceptedImage zipData) as [|i l] eqn:Himages; [reflexivity|].
  rewrite <- Himages.
  set (cf := {| images := omap acceptedImage zipData;
                translations := omap (acceptedTranslation JSON_parse) zipData;
                matched := [] |}).
  destruct (validate_matchFiles cf) as (h & k & ->); [|reflexivity].
  subst cf. cbn [images]. now rewrite Himages.
Qed.

Lemma getPage_none_of_empty st index :
  matched (currentFiles st) = [] -> getPage st index = None.
Proof.
  unfold getPage. intros ->. cbn [length].
  destruct (index <? 0)%Z eqn:Hneg; [reflexivity|].
  apply Z.ltb_ge in Hneg.
  assert (Hge : (index >=? Z.of_nat 0)%Z = true)
    by (rewrite Z.geb_leb; apply Z.leb_le; exact Hneg).
  now rewrite Hge.
Qed.

End ManagerFacts.

Section SystemNames.
Import JsString.
Local Open Scope string_scope.

Lemma toLowerCase_app a b :
  toLowerCase (a ++ b) = toLowerCase a ++ toLowerCase b.
Proof.
  induction a as [|c a IH]; [reflexivity|].
  rewrite append_cons. cbn [toLowerCase]. now rewrite IH, append_cons.
Qed.

Lemma startsWith_app m s : startsWith (m ++ s) m = true.
Proof.
  induction m as [|c m IH]; [now destruct s|].
  rewrite append_cons. cbn [startsWith]. now rewrite Ascii.eqb_refl, IH.
Qed.

Lemma includes_app p m s : includes (p ++ m ++ s) m = true.
Proof.
  induction p as [|c p IH].
  - rewrite append_nil_l. pose proof (startsWith_app m s) as H.
    destruct (m ++ s); cbn [includes]; [exact H | now rewrite H].
  - rewrite append_cons. cbn [includes]. now rewrite IH, orb_true_r.
Qed.

Lemma shouldSkipFile_system filename :
  systemName filename -> FileManager.shouldSkipFile filename = true.
Proof.
  unfold FileManager.shouldSkipFile.
  intros [[rest ->] | (dir & marker & rest & -> & Hm)].
  - change (toLowerCase (String "." rest))
      with (String "."%char (toLowerCase rest)).
    now destruct (toLowerCase rest).
  - rewrite !toLowerCase_app.
    pose proof (includes_app (toLowerCase dir) (toLowerCase marker)
                  (toLowerCase rest)) as Hinc.
    cbv zeta.
    destruct Hm as [Hm | [Hm | [Hm | []]]]; rewrite <- Hm in Hinc |- *;
      rewrite Hinc, ?orb_true_r; [reflexivity | |];
      now destruct (_ || _).
Qed.

End SystemNames.

(** X8.  When [processZipFile] returns a result, the manager was idle and
    is idle again, the file passed [validateZipFile] and was read, and the
    result is the content of the archive: its images are those accepted
    from the entries, in another order, there is at least one, the
    translations are those accepted, in entry order, the pages carry the
    images in order with the indices 0, 1, ..., the counts of the
    statistics are the lengths of the lists, and the manager keeps the same
    three lists. *)
Theorem processZipFile_success
    (JSON_parse : string -> option jsval)
    (localeCompare : string -> string -> comparison)
    (loadAsync : FileManager.File ->
                 result (list (string * FileManager.ZipEntry)))
    (st st' : FileManager.State) (file : option FileManager.File)
    (r : FileManager.ZipResult) :
  FileManager.processZipFile JSON_parse localeCompare loadAsync st file
    = (Ok r, st') ->
  exists f zipData,
    file = Some f
    /\ FileManager.processing st = false
    /\ FileManager.validateZipFile file = Ok tt
    /\ loadAsync f = Ok zipData
    /\ FileManager.success r = true
    /\ Permutation (FileManager.r_images r) (omap acceptedImage zipData)
    /\ FileManager.r_images r <> []
    /\ FileManager.r_translations r
       = omap (acceptedTranslation JSON_parse) zipData
    /\ List.map FileManager.image (FileManager.r_matched r)
       = FileManager.r_images r
    /\ List.map FileManager.pageIndex (FileManager.r_matched r)
       = seq 0 (length (FileManager.r_images r))
    /\ FileManager.imageCount (FileManager.stats r)
       = length (FileManager.r_images r)
    /\ FileManager.matchedCount (FileManager.stats r)
       = length (FileManager.r_images r)
    /\ FileManager.translationCount (FileManager.stats r)
       = length (FileManager.r_translations r)
    /\ FileManager.totalSize (FileManager.stats r) = FileManager.file_size f
    /\ st' = idle {| FileManager.images := FileManager.r_images r;
                     FileManager.translations := FileManager.r_translations r;
                     FileManager.matched := FileManager.r_matched r |}.
Proof.
  unfold FileManager.processZipFile.
  destruct (FileManager.processing st) eqn:Hidle; [discriminate|].
  rewrite processBody_spec.
  destruct (FileManager.validateZipFile file) as [[]|e] eqn:Hvalid;
    [|discriminate].
  destruct file as [f|]; [|discriminate].
  destruct (loadAsync f) as [zipData|e] eqn:Hload; [|discriminate].
  cbv zeta. cbn [FileManager.images].
  destruct zipData as [|entry rest]; [discriminate|].
  set (zipData := entry :: rest) in *.
  destruct (omap acceptedImage zipData) as [|i l] eqn:Himages; [discriminate|].
  rewrite <- Himages.
  set (cf := {| FileManager.images := omap acceptedImage zipData;
                FileManager.translations :=
                  omap (acceptedTranslation JSON_parse) zipData;
                FileManager.matched := [] |}).
  intros H. injection H as <- <-.
  assert (Hpages : FileManager.matched (FileManager.matchFiles localeCompare cf)
                   = imap (fun k => pageOf (FileManager.translations cf) (0 + k))
                       (FileManager.images
                          (FileManager.matchFiles localeCompare cf)))
    by apply matched_matchFiles.
  exists f, zipData. cbn [FileManager.zipResult FileManager.success
    FileManager.r_images FileManager.r_translations FileManager.r_matched
    FileManager.stats FileManager.imageCount FileManager.matchedCount
    FileManager.translationCount FileManager.totalSize].
  split_and!; try reflexivity; try assumption.
  - apply (matchFiles_images localeCompare cf).
  - intros Hnil. pose proof (matchFiles_images localeCompare cf) as Hperm.
    rewrite Hnil in Hperm. apply Permutation_nil in Hperm.
    cbn [cf FileManager.images] in Hperm. congruence.
  - rewrite Hpages. apply map_image_pages.
  - rewrite Hpages. apply map_pageIndex_pages.
  - rewrite Hpages. apply length_imap.
Qed.

Lemma processZipFile_success_witness :
  exists r st',
    FileManager.processZipFile sampleParse codeUnitCompare sampleLoad
      FileManager.new (Some sampleArchive) = (Ok r, st')
    /\ List.map FileManager.i_filename (FileManager.r_images r) = ["page1.jpg"]
    /\ st' = idle {| FileManager.images := FileManager.r_images r;
                     FileManager.translations := FileManager.r_translations r;
                     FileManager.matched := FileManager.r_matched r |}.
Proof.
  destruct (FileManager.processZipFile sampleParse codeUnitCompare sampleLoad
              FileManager.new (Some sampleArchive)) as [[r|e] st'] eqn:Hrun;
    [|vm_compute in Hrun; discriminate Hrun].
  exists r, st'. split; [reflexivity|].
  destruct (processZipFile_success _ _ _ _ _ _ _ Hrun)
    as (f & zipData & _ & _ & _ & _ & _ & _ & _ & _ & _ & _ & _ & _ & _ & _ & Hst).
  split; [|exact Hst].
  vm_compute in Hrun. now injection Hrun as <- _.
Defined.

(** X9.  When [processZipFile] fails, a manager that was busy is left as it
    was and the error is [AlreadyProcessing]; an idle manager is idle
    again and holds no image and no page, so that [getPage] answers
    [null] at every index, and the two errors of [validateFileStructure]
    do not occur: a structure error can only be one that [loadAsync]
    raised. *)
Theorem processZipFile_failure
    (JSON_parse : string -> option jsval)
    (localeCompare : string -> string -> comparison)
    (loadAsync : FileManager.File ->
                 result (list (string * FileManager.ZipEntry)))
    (st st' : FileManager.State) (file : option FileManager.File)
    (e : Error) :
  FileManager.processZipFile JSON_parse localeCompare loadAsync st file
    = (Err e, st') ->
  (FileManager.processing st = true -> e = AlreadyProcessing /\ st' = st)
  /\ (FileManager.processing st = false ->
      FileManager.processing st' = false
      /\ FileManager.images (FileManager.currentFiles st') = []
      /\ FileManager.getPageCount st' = 0%nat
      /\ (forall index, FileManager.getPage st' index = None)
      /\ (forall msg, e = StructureError msg ->
          exists f, file = Some f /\ loadAsync f = Err e)).
Proof.
  unfold FileManager.processZipFile.
  destruct (FileManager.processing st) eqn:Hidle.
  { intros H. injection H as <- <-. split; [now split | discriminate]. }
  rewrite processBody_spec. intros Hrun.
  split; [discriminate|]. intros _.
  assert (Hgoal :
    FileManager.processing st' = false
    /\ FileManager.images (FileManager.currentFiles st') = []
    /\ FileManager.matched (FileManager.currentFiles st') = []
    /\ (forall msg, e = StructureError msg ->
        exists f, file = Some f /\ loadAsync f = Err e)).
  { destruct (FileManager.validateZipFile file) as [[]|e0] eqn:Hvalid.
    - destruct file as [f|].
      + destruct (loadAsync f) as [zipData|e0] eqn:Hload.
        * cbv zeta in Hrun. cbn [FileManager.images] in Hrun.
          destruct zipData as [|entry rest].
          { injection Hrun as <- <-. split_and!; try reflexivity.
            discriminate. }
          set (zipData := entry :: rest) in *.
          destruct (omap acceptedImage zipData) as [|i l] eqn:Himages.
          { injection Hrun as <- <-. split_and!; try reflexivity.
            discriminate. }
          discriminate Hrun.
        * injection Hrun as <- <-. split_and!; try reflexivity.
          intros msg _. now exists f.
      + injection Hrun as <- <-. split_and!; try reflexivity. discriminate.
    - injection Hrun as <- <-. split_and!; try reflexivity.
      intros msg ->. apply validateZipFile_errors in Hvalid.
      simpl in Hvalid. intuition discriminate. }
  destruct Hgoal as (Hp & Hi & Hm & Hs).
  split; [exact Hp|]. split; [exact Hi|]. split; [|split; [|exact Hs]].
  - unfold FileManager.getPageCount. now rewrite Hm.
  - intros index. now apply getPage_none_of_empty.
Qed.

Lemma processZipFile_failure_witness :
  FileManager.processZipFile sampleParse codeUnitCompare sampleLoad
    (idle (FileManager.matchFiles codeUnitCompare
             (snd (FileManager.extractFiles sampleParse fiveImages
                     FileManager.noFiles))))
    (Some emptyArchive)
  = (Err EmptyZipFile, FileManager.new).
Proof.
  destruct (FileManager.processZipFile sampleParse codeUnitCompare sampleLoad
              (idle (FileManager.matchFiles codeUnitCompare
                       (snd (FileManager.extractFiles sampleParse fiveImages
                               FileManager.noFiles))))
              (Some emptyArchive)) as [[r|e] st'] eqn:Hrun;
    [vm_compute in Hrun; discriminate Hrun|].
  destruct (processZipFile_failure _ _ _ _ _ _ _ Hrun) as [_ H].
  destruct (H eq_refl) as (_ & _ & _ & _ & _).
  vm_compute in Hrun. now injection Hrun as <- <-.
Defined.

(** X10.  After [matchFiles] the manager has one page for each image, and
    [getPage] returns at every index from 0 to the page count, excluded,
    a page whose [pageIndex] is that index and whose image is one of the
    images; at any other index it returns [null]. *)
Theorem getPage_index
    (localeCompare : string -> string -> comparison)
    (cf : FileManager.CurrentFiles) (busy : bool) (index : Z) :
  let st := {| FileManager.currentFiles := FileManager.matchFiles localeCompare cf;
               FileManager.processing := busy |} in
  FileManager.getPageCount st = length (FileManager.images cf)
  /\ ((0 <= index < Z.of_nat (length (FileManager.images cf)))%Z ->
      exists p,
        FileManager.getPage st index = Some p
        /\ Z.of_nat (FileManager.pageIndex p) = index
        /\ In (FileManager.image p) (FileManager.images cf))
  /\ ((index < 0 \/ Z.of_nat (length (FileManager.images cf)) <= index)%Z ->
      FileManager.getPage st index = None).
Proof.
  intros st.
  assert (Hcount : FileManager.getPageCount st = length (FileManager.images cf))
    by apply matchFiles_pages.
  split; [exact Hcount|].
  unfold FileManager.getPage. fold (FileManager.getPageCount st).
  rewrite Hcount, Z.geb_leb. split.
  - intros Hin.
    destruct (Z.ltb_spec index 0); [lia|].
    destruct (Z.leb_spec (Z.of_nat (length (FileManager.images cf))) index);
      [lia|].
    cbn [orb]. subst st. cbn [FileManager.currentFiles].
    rewrite matched_matchFiles, list_lookup_imap.
    set (sorted := FileManager.sort _ (FileManager.images cf)).
    assert (Hperm : Permutation sorted (FileManager.images cf))
      by apply sort_perm.
    destruct (sorted !! Z.to_nat index) as [x|] eqn:Hx.
    + exists (pageOf (FileManager.translations cf) (Z.to_nat index) x).
      split; [reflexivity|]. split; [cbn [pageOf FileManager.pageIndex]; lia|].
      cbn [pageOf FileManager.image].
      apply (Permutation_in _ Hperm), list_elem_of_In.
      eapply list_elem_of_lookup_2. exact Hx.
    + apply lookup_ge_None in Hx.
      apply Permutation_length in Hperm. lia.
  - intros Hout.
    destruct (Z.ltb_spec index 0); [reflexivity|].
    destruct (Z.leb_spec (Z.of_nat (length (FileManager.images cf))) index);
      [reflexivity | lia].
Qed.

(** X11.  [matchFiles] is idempotent when [localeCompare] is a consistent
    collation: the images it leaves are sorted, so a second run keeps their
    order and builds the same pages. *)
Theorem matchFiles_idempotent
    (localeCompare : string -> string -> comparison)
    `{!Collation localeCompare} (cf : FileManager.CurrentFiles) :
  FileManager.matchFiles localeCompare (FileManager.matchFiles localeCompare cf)
  = FileManager.matchFiles localeCompare cf.
Proof.
  unfold FileManager.matchFiles.
  cbn [FileManager.images FileManager.translations].
  rewrite sort_of_sorted; [reflexivity|].
  apply sort_sorted.
  - intros a b. unfold FileManager.naturalSort. apply collation_antisym.
  - intros a b c. unfold FileManager.naturalSort. apply collation_trans.
Qed.

Lemma matchFiles_idempotent_witness :
  FileManager.matchFiles codeUnitCompare
    (FileManager.matchFiles codeUnitCompare
       (imagesOnly ["page2.jpg"; "page10.jpg"; "page1.jpg"]))
  = FileManager.matchFiles codeUnitCompare
      (imagesOnly ["page2.jpg"; "page10.jpg"; "page1.jpg"]).
Proof.
  exact (matchFiles_idempotent codeUnitCompare
           (imagesOnly ["page2.jpg"; "page10.jpg"; "page1.jpg"])).
Defined.

(** X12.  The statistics of [validateFileStructure] are consistent: a
    valid structure has at least one image and one page, no more pages
    with a translation than pages, and [hasTranslations] set exactly when
    some page has one.  After [matchFiles] the structure is invalid exactly
    when there is no image, and [No pages could be processed] is never
    the answer. *)
Theorem validateFileStructure_stats
    (localeCompare : string -> string -> comparison)
    (cf : FileManager.CurrentFiles) :
  (forall h n k,
     FileManager.validateFileStructure cf = FileManager.Valid h n k ->
     FileManager.images cf <> []
     /\ n = length (FileManager.matched cf)
     /\ (0 < n)%nat /\ (k <= n)%nat /\ (h = true <-> (0 < k)%nat))
  /\ (FileManager.images cf = [] <->
      FileManager.validateFileStructure
        (FileManager.matchFiles localeCompare cf)
      = FileManager.Invalid "No image files found")
  /\ FileManager.validateFileStructure
       (FileManager.matchFiles localeCompare cf)
     <> FileManager.Invalid "No pages could be processed".
Proof.
  split; [|split].
  - intros h n k. unfold FileManager.validateFileStructure.
    destruct (FileManager.images cf) as [|i l]; [discriminate|].
    destruct (FileManager.matched cf) as [|p ps] eqn:Hm; [discriminate|].
    intros H. injection H as <- <- <-.
    split; [discriminate|]. split; [reflexivity|]. split; [simpl; lia|].
    split; [apply (filter_length_bound FileManager.hasTranslation (p :: ps))
           | apply (existsb_filter FileManager.hasTranslation (p :: ps))].
  - split.
    + intros Hnil. unfold FileManager.validateFileStructure,
        FileManager.matchFiles. cbn [FileManager.images]. now rewrite Hnil.
    + intros Hinv. destruct (FileManager.images cf) as [|i l] eqn:Hi;
        [reflexivity|].
      destruct (validate_matchFiles localeCompare cf) as (h & k & Hv);
        [congruence|]. congruence.
  - destruct (FileManager.images cf) as [|i l] eqn:Hi.
    + unfold FileManager.validateFileStructure, FileManager.matchFiles.
      cbn [FileManager.images]. rewrite Hi. discriminate.
    + destruct (validate_matchFiles localeCompare cf) as (h & k & Hv);
        [congruence|]. congruence.
Qed.

(** X13.  A hidden or system entry, whose name starts with a dot or holds
    [/.], [__MACOSX] or [Thumbs.db] in any letter case, is skipped:
    [extractFiles] leaves the collected files as they are, whatever the
    entry holds and whatever its extension. *)
Theorem system_entries_skipped
    (JSON_parse : string -> option jsval)
    (cf : FileManager.CurrentFiles) (filename : string)
    (zipEntry : FileManager.ZipEntry) :
  systemName filename ->
  FileManager.shouldSkipFile filename = true
  /\ FileManager.extractEntry JSON_parse cf (filename, zipEntry) = cf
  /\ acceptedImage (filename, zipEntry) = None
  /\ acceptedTranslation JSON_parse (filename, zipEntry) = None.
Proof.
  intros Hname. apply shouldSkipFile_system in Hname.
  split; [exact Hname|].
  unfold FileManager.extractEntry, acceptedImage, acceptedTranslation.
  rewrite Hname, !orb_true_r. cbn [orb].
  now destruct (FileManager.dir zipEntry).
Qed.

Lemma system_entries_skipped_witness :
  FileManager.extractEntry sampleParse FileManager.noFiles
    ("__MACOSX/._page1.jpg", imageEntry 1000) = FileManager.noFiles.
Proof.
  apply (system_entries_skipped sampleParse FileManager.noFiles
           "__MACOSX/._page1.jpg" (imageEntry 1000)).
  right. exists EmptyString, "__MACOSX", "/._page1.jpg".
  split; [reflexivity|]. right. left. reflexivity.
Defined.

(* ====================================================================== *)
(** * Further properties: the series store *)
(* ====================================================================== *)

Section StoreFacts.
Import IndexedDBManager.

Lemma lookup_positive_size (m : gmap string SeriesData) k d :
  m !! k = Some d -> (0 < size m)%nat.
Proof.
  intros H. destruct (size m) eqn:Hs; [|lia].
  apply map_size_empty_inv in Hs. subst m. now rewrite lookup_empty in H.
Qed.

Lemma lookup_Some_eq (m1 m2 : gmap string SeriesData) :
  (forall k d, m1 !! k = Some d <-> m2 !! k = Some d) -> m1 = m2.
Proof.
  intros H. apply map_eq. intros k. apply option_eq. intros d. apply H.
Qed.

Lemma cleanupStep_eq now c m k0 d0 :
  cleanupStep now (c, m) (k0, d0)
  = if (expiresAt d0 <? now)%Z then (S c, delete k0 m) else (c, m).
Proof. reflexivity. Qed.

(** The invariant of the cursor loop: the records met so far that had
    expired are gone and counted, the others are as they were. *)
Lemma cleanup_fold now l : forall c m,
  NoDup (l.*1) ->
  (forall k d, (k, d) ∈ l -> m !! k = Some d) ->
  let run := fold_left (cleanupStep now) l (c, m) in
  (fst run + size (snd run) = c + size m)%nat
  /\ forall k d,
       snd run !! k = Some d
       <-> m !! k = Some d /\ ~ ((k, d) ∈ l /\ (expiresAt d < now)%Z).
Proof.
  induction l as [|[k0 d0] l IH]; intros c m Hnd Hin run; subst run.
  - cbn [fold_left fst snd]. split; [reflexivity|]. intros k d. split.
    + intros H. split; [exact H|]. intros [Hel _].
      now apply elem_of_nil in Hel.
    + now intros [H _].
  - cbn [fold_left]. rewrite cleanupStep_eq.
    rewrite fmap_cons in Hnd. cbn [fst] in Hnd.
    apply NoDup_cons in Hnd as [Hk0 Hnd].
    assert (Hhead : m !! k0 = Some d0) by (apply Hin; left).
    assert (Hother : forall k d, (k, d) ∈ l -> k <> k0).
    { intros k d Hel ->. apply Hk0.
      apply (list_elem_of_fmap_2 fst) in Hel. exact Hel. }
    destruct (Z.ltb_spec (expiresAt d0) now) as [Hexp|Hfresh].
    + destruct (IH (S c) (delete k0 m) Hnd) as [Hsize Hlook].
      { intros k d Hel. rewrite lookup_delete_ne.
        - apply Hin. now right.
        - intros ->. now apply (Hother _ _ Hel). }
      split.
      * rewrite Hsize, map_size_delete, Hhead.
        pose proof (lookup_positive_size _ _ _ Hhead). lia.
      * intros k d. rewrite Hlook. destruct (decide (k = k0)) as [->|Hne].
        -- rewrite lookup_delete_eq. split; [now intros [? _]|].
           intros [Hk Hnot]. exfalso. apply Hnot.
           rewrite Hhead in Hk. injection Hk as <-. split; [left | exact Hexp].
        -- rewrite lookup_delete_ne by congruence.
           split; intros [Hk Hnot]; (split; [exact Hk|]); intros [Hel Hd];
             apply Hnot; (split; [|exact Hd]).
           ++ apply elem_of_cons in Hel as [[= -> ->]|Hel];
                [congruence | exact Hel].
           ++ now right.
    + destruct (IH c m Hnd) as [Hsize Hlook].
      { intros k d Hel. apply Hin. now right. }
      split; [exact Hsize|].
      intros k d. rewrite Hlook.
      split; intros [Hk Hnot]; (split; [exact Hk|]); intros [Hel Hd];
        apply Hnot; (split; [|exact Hd]).
      * apply elem_of_cons in Hel as [[= -> ->]|Hel]; [lia | exact Hel].
      * now right.
Qed.

Lemma cleanup_store now store :
  let run := fold_left (cleanupStep now) (map_to_list store) (0%nat, store) in
  (fst run + size (snd run) = size store)%nat
  /\ forall k d,
       snd run !! k = Some d
       <-> store !! k = Some d /\ (now <= expiresAt d)%Z.
Proof.
  intros run.
  destruct (cleanup_fold now (map_to_list store) 0%nat store) as [Hsize Hlook].
  - apply NoDup_fst_map_to_list.
  - intros k d. apply elem_of_map_to_list.
  - fold run in Hsize, Hlook. split; [exact Hsize|].
    intros k d. rewrite Hlook. split; intros [Hk H]; (split; [exact Hk|]).
    + destruct (Z.le_gt_cases now (expiresAt d)) as [Hle|Hgt]; [exact Hle|].
      exfalso. apply H. split; [|lia]. now apply elem_of_map_to_list.
    + intros [_ Hd]. lia.
Qed.

End StoreFacts.

(** X14.  [cleanupExpired] on an open database removes the records that
    have expired and no other: a record is left exactly when it was there
    and its [expiresAt] is not before [now]; the count returned is the
    number of records removed; [getSeries] then finds every record that is
    left and removes nothing more, and it resolves to the same value as it
    would have before the clean-up; a second clean-up at the same time
    removes nothing.  On a database that is not open [cleanupExpired]
    returns at once. *)
Theorem cleanupExpired_removes_expired
    (store : gmap string IndexedDBManager.SeriesData) (now : Z) :
  IndexedDBManager.cleanupExpired None now = None
  /\ exists deletedCount store',
       IndexedDBManager.cleanupExpired (Some store) now
       = Some (deletedCount, store')
       /\ (forall k d,
             store' !! k = Some d
             <-> store !! k = Some d /\ (now <= IndexedDBManager.expiresAt d)%Z)
       /\ (deletedCount + size store' = size store)%nat
       /\ (forall name,
             IndexedDBManager.getSeries (Some store') name now
             = Ok (store' !! name, store'))
       /\ (forall name,
             exists left,
               IndexedDBManager.getSeries (Some store) name now
               = Ok (store' !! name, left))
       /\ IndexedDBManager.cleanupExpired (Some store') now
          = Some (0%nat, store').
Proof.
  split; [reflexivity|].
  unfold IndexedDBManager.cleanupExpired.
  pose proof (cleanup_store now store) as [Hsize Hlook].
  destruct (fold_left (IndexedDBManager.cleanupStep now) (map_to_list store)
              (0%nat, store)) as [deletedCount store'] eqn:Hrun.
  cbn [fst snd] in Hsize, Hlook.
  exists deletedCount, store'. split; [reflexivity|].
  split; [exact Hlook|]. split; [exact Hsize|]. split; [|split].
  - intros name. unfold IndexedDBManager.getSeries.
    destruct (store' !! name) as [d|] eqn:Hd; [|reflexivity].
    apply Hlook in Hd as [_ Hd].
    destruct (Z.ltb_spec (IndexedDBManager.expiresAt d) now); [lia|reflexivity].
  - intros name. unfold IndexedDBManager.getSeries.
    destruct (store !! name) as [d|] eqn:Hd.
    + destruct (Z.ltb_spec (IndexedDBManager.expiresAt d) now) as [Hexp|Hfresh].
      * exists (delete name store). f_equal. f_equal. symmetry.
        destruct (store' !! name) as [d'|] eqn:Hd'; [|reflexivity].
        apply Hlook in Hd' as [Hs Hd']. rewrite Hd in Hs.
        injection Hs as <-. lia.
      * exists store. f_equal. f_equal. symmetry. apply Hlook. now split.
    + exists store. f_equal. f_equal. symmetry.
      destruct (store' !! name) as [d'|] eqn:Hd'; [|reflexivity].
      apply Hlook in Hd' as [Hs _]. congruence.
  - pose proof (cleanup_store now store') as [Hsize' Hlook'].
    destruct (fold_left (IndexedDBManager.cleanupStep now) (map_to_list store')
                (0%nat, store')) as [count' store''].
    cbn [fst snd] in Hsize', Hlook'.
    assert (Heq : store'' = store').
    { apply lookup_Some_eq. intros k d. rewrite Hlook'.
      split; [now intros [H _]|]. intros H. split; [exact H|].
      now apply Hlook in H. }
    subst store''. do 2 f_equal. lia.
Qed.

(** X15.  [getSeries] leaves under [name] what it resolves to and leaves
    every other record as it is; a second call at the same time gives the
    same value and changes nothing, and once it has resolved to [null] it
    does so at any later time. *)
Theorem getSeries_stable
    (store : gmap string IndexedDBManager.SeriesData)
    (name : string) (now : Z) :
  exists found store',
    IndexedDBManager.getSeries (Some store) name now = Ok (found, store')
    /\ store' !! name = found
    /\ (forall other, other <> name -> store' !! other = store !! other)
    /\ IndexedDBManager.getSeries (Some store') name now = Ok (found, store')
    /\ (found = None ->
        forall later,
          IndexedDBManager.getSeries (Some store') name later
          = Ok (None, store')).
Proof.
  unfold IndexedDBManager.getSeries.
  destruct (store !! name) as [d|] eqn:Hd.
  - destruct (IndexedDBManager.expiresAt d <? now)%Z eqn:Hexp.
    + exists None, (delete name store). rewrite lookup_delete_eq.
      split; [reflexivity|]. split; [reflexivity|]. split; [|now split].
      intros other Hne. apply lookup_delete_ne. congruence.
    + exists (Some d), store. rewrite Hd, Hexp.
      split; [reflexivity|]. split; [reflexivity|]. split; [reflexivity|].
      split; [reflexivity | discriminate].
  - exists None, store. rewrite Hd.
    split; [reflexivity|]. split; [reflexivity|]. split; [reflexivity|].
    now split.
Qed.

(** X16.  [storeSeries] writes one record and [deleteSeries] removes one:
    the other records are as before; storing twice under a name keeps the
    second record; after [deleteSeries] a [getSeries] of the name resolves
    to [null]; and deleting what was just stored under a new name gives
    the store back.  Both fail on a database that is not open, as
    [getSeries] does. *)
Theorem storeSeries_deleteSeries
    (store : gmap string IndexedDBManager.SeriesData)
    (name : string) (files files' : jsval) (now1 now2 now1' now2' now : Z) :
  IndexedDBManager.storeSeries None name files now1 now2 = Err NotInitialized
  /\ IndexedDBManager.deleteSeries None name = Err NotInitialized
  /\ IndexedDBManager.getSeries None name now = Err NotInitialized
  /\ exists stored again deleted,
       IndexedDBManager.storeSeries (Some store) name files now1 now2
       = Ok stored
       /\ IndexedDBManager.storeSeries (Some stored) name files' now1' now2'
          = Ok again
       /\ IndexedDBManager.deleteSeries (Some stored) name = Ok deleted
       /\ (forall other, other <> name ->
             stored !! other = store !! other
             /\ deleted !! other = store !! other)
       /\ IndexedDBManager.storeSeries (Some store) name files' now1' now2'
          = Ok again
       /\ IndexedDBManager.getSeries (Some deleted) name now
          = Ok (None, deleted)
       /\ deleted = delete name store
       /\ (store !! name = None -> deleted = store).
Proof.
  split; [reflexivity|]. split; [reflexivity|]. split; [reflexivity|].
  unfold IndexedDBManager.storeSeries, IndexedDBManager.deleteSeries,
    IndexedDBManager.getSeries.
  eexists _, _, _. split; [reflexivity|]. split; [reflexivity|].
  split; [reflexivity|]. split; [|split; [|split; [|split]]].
  - intros other Hne. split.
    + apply lookup_insert_ne. congruence.
    + rewrite lookup_delete_ne, lookup_insert_ne by congruence. reflexivity.
  - now rewrite insert_insert_eq.
  - now rewrite lookup_delete_eq.
  - apply delete_insert_eq.
  - intros Hnew. rewrite delete_insert_eq. now apply delete_id.
Qed.

(* ====================================================================== *)
(** * Further properties: progress, recent series and settings *)
(* ====================================================================== *)

Section StorageFacts.
Import StorageManager.

Lemma prototype_key_proto k :
  JsString.mem k PlainObject.objectPrototype = false -> k <> "__proto__".
Proof. intros H ->. discriminate H. Qed.

Lemma removeFirst_sublist key (l : list RecentSeries) :
  removeFirst key l `sublist_of` l.
Proof.
  induction l as [|s l IH]; cbn [removeFirst]; [constructor|].
  destruct (String.eqb (id s) key).
  - now apply sublist_cons.
  - now apply sublist_skip.
Qed.

Lemma removeFirst_absent key (l : list RecentSeries) :
  key ∉ id <$> l -> removeFirst key l = l.
Proof.
  induction l as [|s l IH]; [reflexivity|]. cbn [removeFirst].
  rewrite fmap_cons, not_elem_of_cons. intros [Hne Hl].
  destruct (String.eqb_spec (id s) key) as [Heq|_]; [congruence|].
  now rewrite IH.
Qed.

Lemma removeFirst_removes key (l : list RecentSeries) :
  NoDup (id <$> l) -> key ∉ id <$> removeFirst key l.
Proof.
  induction l as [|s l IH]; cbn [removeFirst].
  - intros _ H. now apply elem_of_nil in H.
  - rewrite fmap_cons, NoDup_cons. intros [Hs Hl].
    destruct (String.eqb_spec (id s) key) as [<-|Hne]; [exact Hs|].
    rewrite fmap_cons, not_elem_of_cons. split; [congruence | now apply IH].
Qed.

Lemma removeFirst_keeps key (l : list RecentSeries) s :
  s ∈ l -> id s <> key -> s ∈ removeFirst key l.
Proof.
  induction l as [|x l IH]; cbn [removeFirst]; intros Hs Hne.
  - exact Hs.
  - apply elem_of_cons in Hs as [->|Hs].
    + destruct (String.eqb_spec (id x) key) as [Heq|_]; [congruence|]. left.
    + destruct (String.eqb (id x) key); [exact Hs|]. right. now apply IH.
Qed.

Lemma ids_sublist (l1 l2 : list RecentSeries) :
  l1 `sublist_of` l2 -> (id <$> l1) `sublist_of` (id <$> l2).
Proof.
  induction 1; rewrite ?fmap_cons; now constructor.
Qed.

Lemma filter_other_ids key (l : list RecentSeries) :
  key ∉ id <$> l ->
  List.filter (fun s => negb (String.eqb (id s) key)) l = l.
Proof.
  induction l as [|s l IH]; [reflexivity|].
  rewrite fmap_cons, not_elem_of_cons. intros [Hne Hl]. cbn [List.filter].
  destruct (String.eqb_spec (id s) key) as [Heq|_]; [congruence|].
  cbn [negb]. now rewrite IH.
Qed.

Lemma spread_lookup_None (a b : gmap string jsval) key :
  spread a b !! key = None <-> a !! key = None /\ b !! key = None.
Proof. unfold spread. rewrite lookup_union_None. tauto. Qed.

Lemma spread_defaults (m : gmap string jsval) :
  (forall key, m !! key = None -> defaultSettings !! key = None) ->
  spread defaultSettings m = m.
Proof.
  intros H. unfold spread. apply map_eq. intros key. apply option_eq.
  intros v. rewrite lookup_union_Some_raw. split; [|now left].
  intros [Hv | [Hnone Hv]]; [exact Hv|]. rewrite (H key Hnone) in Hv.
  discriminate.
Qed.

End StorageFacts.

(** X17.  [removeProgress] undoes [saveProgress]: for a name whose storage
    key is not a property of [Object.prototype], saving progress and then
    removing it succeeds, leaves the stored progress of every other key as
    it was before the save, [getProgress] then answers [null], and a second
    removal reports that there is nothing to remove. *)
Theorem removeProgress_after_save
    (roundPercent : Z -> Z -> Z) (sm : StorageManager.State)
    (seriesName : string) (data : StorageManager.ProgressData) (now : Z) :
  seriesName <> EmptyString ->
  JsString.mem (StringUtils.sanitize seriesName) PlainObject.objectPrototype
    = false ->
  let saved :=
    snd (StorageManager.saveProgress roundPercent sm seriesName data now) in
  let removed := StorageManager.removeProgress saved seriesName in
  fst removed = true
  /\ StorageManager.progress (snd removed)
     = delete (StringUtils.sanitize seriesName) (StorageManager.progress sm)
  /\ StorageManager.getProgress (snd removed) seriesName = None
  /\ (forall other,
        StringUtils.sanitize other <> StringUtils.sanitize seriesName ->
        StorageManager.getProgress (snd removed) other
        = StorageManager.getProgress sm other)
  /\ StorageManager.removeProgress (snd removed) seriesName
     = (false, snd removed).
Proof.
  intros Hname Hkey saved removed.
  pose proof (prototype_key_proto _ Hkey) as Hproto.
  assert (Hsaved : StorageManager.progress saved
                   = <[StringUtils.sanitize seriesName :=
                         {| StorageManager.originalName := seriesName;
                            StorageManager.p_currentPage :=
                              StorageManager.currentPage data;
                            StorageManager.p_totalPages :=
                              StorageManager.totalPages data;
                            StorageManager.p_lastRead :=
                              if (StorageManager.lastRead data =? 0)%Z then now
                              else StorageManager.lastRead data;
                            StorageManager.percentage :=
                              if (StorageManager.totalPages data >? 0)%Z
                              then roundPercent (StorageManager.currentPage data)
                                     (StorageManager.totalPages data)
                              else 0%Z |}]> (StorageManager.progress sm)).
  { subst saved. unfold StorageManager.saveProgress.
    rewrite (truthy_nonempty _ Hname). cbn [negb snd StorageManager.progress].
    unfold PlainObject.set, StorageManager.getAllProgress.
    now destruct (decide (StringUtils.sanitize seriesName = "__proto__")). }
  assert (Hremoved : removed
                     = (true,
                        {| StorageManager.progress :=
                             delete (StringUtils.sanitize seriesName)
                               (StorageManager.progress sm);
                           StorageManager.currentSeries :=
                             StorageManager.currentSeries saved |})).
  { subst removed. unfold StorageManager.removeProgress.
    rewrite (truthy_nonempty _ Hname). cbn [negb].
    unfold StorageManager.getAllProgress, PlainObject.get.
    now rewrite Hsaved, lookup_insert_eq, delete_insert_eq. }
  rewrite Hremoved. cbn [fst snd StorageManager.progress].
  split; [reflexivity|]. split; [reflexivity|].
  assert (Hget : StorageManager.getProgress
                   {| StorageManager.progress :=
                        delete (StringUtils.sanitize seriesName)
                          (StorageManager.progress sm);
                      StorageManager.currentSeries :=
                        StorageManager.currentSeries saved |} seriesName = None).
  { unfold StorageManager.getProgress, StorageManager.getAllProgress,
      PlainObject.get. rewrite (truthy_nonempty _ Hname).
    cbn [negb StorageManager.progress]. now rewrite lookup_delete_eq, Hkey. }
  split; [exact Hget|]. split.
  - intros other Hother. unfold StorageManager.getProgress,
      StorageManager.getAllProgress, PlainObject.get.
    cbn [StorageManager.progress].
    now rewrite lookup_delete_ne by congruence.
  - unfold StorageManager.removeProgress, StorageManager.getAllProgress,
      PlainObject.get. rewrite (truthy_nonempty _ Hname).
    cbn [negb StorageManager.progress]. now rewrite lookup_delete_eq, Hkey.
Qed.

Lemma removeProgress_after_save_witness :
  StorageManager.getProgress
    (snd (StorageManager.removeProgress
            (snd (StorageManager.saveProgress (fun _ _ => 25%Z) noProgress
                    "One Piece" sampleProgress 0))
            "One Piece"))
    "One Piece" = None.
Proof.
  destruct (removeProgress_after_save (fun _ _ => 25%Z) noProgress
              "One Piece" sampleProgress 0) as (_ & _ & H & _).
  - discriminate.
  - reflexivity.
  - exact H.
Defined.

(** X18.  [addRecentSeries] puts the new entry first and keeps the list
    in shape: at most ten entries; the entries after the first are entries
    of the old list in their old order; when the ids of the old list were
    pairwise distinct, so are those of the new one; and no other entry is
    dropped while the old list has fewer than ten. *)
Theorem addRecentSeries_invariant
    (recentSeries : list StorageManager.RecentSeries)
    (seriesName : string) (stats : jsval) (now : Z) :
  seriesName <> EmptyString ->
  NoDup (StorageManager.id <$> recentSeries) ->
  let entry := {| StorageManager.id := StringUtils.sanitize seriesName;
                  StorageManager.name := seriesName;
                  StorageManager.stats := stats;
                  StorageManager.addedDate := now |} in
  exists rest,
    StorageManager.addRecentSeries recentSeries seriesName stats now
    = (true, entry :: rest)
    /\ (length (entry :: rest) <= 10)%nat
    /\ rest `sublist_of` recentSeries
    /\ NoDup (StorageManager.id <$> entry :: rest)
    /\ ((length recentSeries < 10)%nat ->
        forall s, s ∈ recentSeries ->
                  StorageManager.id s <> StringUtils.sanitize seriesName ->
                  s ∈ rest).
Proof.
  intros Hname Hdup entry.
  set (key := StringUtils.sanitize seriesName).
  set (removed := StorageManager.removeFirst key recentSeries).
  assert (Hsub : removed `sublist_of` recentSeries)
    by apply removeFirst_sublist.
  assert (Hrun : StorageManager.addRecentSeries recentSeries seriesName stats now
                 = (true, entry :: take 9 removed)).
  { unfold StorageManager.addRecentSeries.
    rewrite (truthy_nonempty _ Hname). cbn [negb]. fold key removed entry.
    cbv zeta. f_equal.
    match goal with
    | |- context [(10 <? ?n)%nat] =>
        destruct (Nat.ltb_spec 10 n) as [Hlong|Hshort]
    end.
    - reflexivity.
    - cbn [length] in Hshort. rewrite take_ge by lia. reflexivity. }
  exists (take 9 removed). split; [exact Hrun|].
  assert (Hrest : take 9 removed `sublist_of` recentSeries).
  { etrans; [apply sublist_take | exact Hsub]. }
  split; [|split; [exact Hrest|split]].
  - cbn [length]. rewrite length_take. lia.
  - rewrite fmap_cons. apply NoDup_cons. split.
    + intros Hin. apply (removeFirst_removes key recentSeries Hdup).
      eapply elem_of_sublist; [exact Hin|].
      apply ids_sublist, sublist_take.
    + eapply sublist_NoDup; [exact Hdup|]. now apply ids_sublist.
  - intros Hroom s Hs Hne.
    apply sublist_length in Hsub. rewrite take_ge by lia.
    now apply removeFirst_keeps.
Qed.

Lemma addRecentSeries_invariant_witness :
  exists rest,
    StorageManager.addRecentSeries
      [ {| StorageManager.id := "naruto"; StorageManager.name := "Naruto";
           StorageManager.stats := JNull; StorageManager.addedDate := 1 |};
        {| StorageManager.id := "one_piece"; StorageManager.name := "One Piece";
           StorageManager.stats := JNull; StorageManager.addedDate := 0 |} ]
      "One Piece" JNull 2
    = (true,
       {| StorageManager.id := "one_piece"; StorageManager.name := "One Piece";
          StorageManager.stats := JNull; StorageManager.addedDate := 2 |}
       :: rest)
    /\ (length rest <= 9)%nat.
Proof.
  destruct (addRecentSeries_invariant
              [ {| StorageManager.id := "naruto"; StorageManager.name := "Naruto";
                   StorageManager.stats := JNull;
                   StorageManager.addedDate := 1 |};
                {| StorageManager.id := "one_piece";
                   StorageManager.name := "One Piece";
                   StorageManager.stats := JNull;
                   StorageManager.addedDate := 0 |} ]
              "One Piece" JNull 2) as (rest & Hrun & Hlen & _).
  - discriminate.
  - cbn. apply NoDup_cons. split; [|apply NoDup_singleton].
    intros H. apply list_elem_of_singleton in H. discriminate H.
  - exists rest. split; [exact Hrun|]. cbn [length] in Hlen. lia.
Defined.

(** X19.  [removeRecentSeries] leaves no entry with the id of the name,
    and it undoes [addRecentSeries]: adding a series whose id is new to a
    list of fewer than ten entries and removing it again gives the list
    back. *)
Theorem removeRecentSeries_undoes_add
    (recentSeries : list StorageManager.RecentSeries)
    (seriesName : string) (stats : jsval) (now : Z) :
  seriesName <> EmptyString ->
  (length recentSeries < 10)%nat ->
  StringUtils.sanitize seriesName ∉ StorageManager.id <$> recentSeries ->
  StorageManager.removeRecentSeries
    (snd (StorageManager.addRecentSeries recentSeries seriesName stats now))
    seriesName
  = (true, recentSeries)
  /\ forall list,
       StringUtils.sanitize seriesName
       ∉ StorageManager.id
           <$> snd (StorageManager.removeRecentSeries list seriesName).
Proof.
  intros Hname Hroom Hnew. split.
  - unfold StorageManager.addRecentSeries, StorageManager.removeRecentSeries.
    rewrite (truthy_nonempty _ Hname). cbn [negb snd].
    rewrite (removeFirst_absent _ _ Hnew).
    match goal with
    | |- context [(10 <? ?n)%nat] =>
        destruct (Nat.ltb_spec 10 n) as [Hlong|_];
          [cbn [length] in Hlong; lia|]
    end.
    cbn [List.filter StorageManager.id]. rewrite String.eqb_refl. cbn [negb].
    now rewrite filter_other_ids.
  - intros list. unfold StorageManager.removeRecentSeries.
    rewrite (truthy_nonempty _ Hname). cbn [negb snd].
    intros Hin. apply list_elem_of_fmap in Hin as (s & Hid & Hs).
    apply list_elem_of_In, filter_In in Hs as [_ Hs].
    rewrite <- Hid, String.eqb_refl in Hs. discriminate.
Qed.

Lemma removeRecentSeries_undoes_add_witness :
  StorageManager.removeRecentSeries
    (snd (StorageManager.addRecentSeries [] "One Piece" JNull 2)) "One Piece"
  = (true, []).
Proof.
  apply (removeRecentSeries_undoes_add [] "One Piece" JNull 2).
  - discriminate.
  - cbn [length]. lia.
  - intros H. now apply elem_of_nil in H.
Defined.

(** X20.  Settings survive a reload: after [saveSettings] on a manager
    that [init] has set up, the stored settings are the settings in
    memory, and [getSettings] reads them back unchanged; every key of the
    saved object has its new value, every other key keeps its value, and
    the six default keys are always present. *)
Theorem settings_round_trip
    (saved : option (gmap string jsval)) (new : gmap string jsval) :
  let st0 := StorageManager.initSettings saved in
  let st1 := snd (StorageManager.saveSettings st0 new) in
  StorageManager.initSettings (StorageManager.savedSettings st1) = st1
  /\ StorageManager.getSettings st1 = StorageManager.settings st1
  /\ (forall key v dflt,
        new !! key = Some v ->
        StorageManager.getSetting st1 key dflt = PlainObject.Own v)
  /\ (forall key,
        new !! key = None ->
        StorageManager.settings st1 !! key = StorageManager.settings st0 !! key)
  /\ (forall key,
        is_Some (StorageManager.defaultSettings !! key) ->
        is_Some (StorageManager.settings st0 !! key)
        /\ is_Some (StorageManager.settings st1 !! key))
  /\ (saved = None ->
      StorageManager.settings st0 = StorageManager.defaultSettings).
Proof.
  intros st0 st1.
  assert (Hst1 : StorageManager.settings st1
                 = StorageManager.spread (StorageManager.settings st0) new)
    by reflexivity.
  assert (Hst0 : forall key,
             StorageManager.settings st0 !! key = None ->
             StorageManager.defaultSettings !! key = None).
  { intros key. subst st0. unfold StorageManager.initSettings,
      StorageManager.getSettings. cbn [StorageManager.settings
      StorageManager.savedSettings].
    rewrite spread_lookup_None. tauto. }
  assert (Hdefaults : forall key,
             StorageManager.settings st1 !! key = None ->
             StorageManager.defaultSettings !! key = None).
  { intros key. rewrite Hst1, spread_lookup_None. intros [H _]. auto. }
  assert (Hget : StorageManager.getSettings st1 = StorageManager.settings st1).
  { unfold StorageManager.getSettings. subst st1.
    cbn [StorageManager.saveSettings snd StorageManager.savedSettings
         StorageManager.settings] in *.
    now apply spread_defaults. }
  split; [|split; [exact Hget|split; [|split; [|split]]]].
  - unfold StorageManager.initSettings.
    change (StorageManager.getSettings
              {| StorageManager.settings := ∅;
                 StorageManager.savedSettings :=
                   StorageManager.savedSettings st1 |})
      with (StorageManager.getSettings st1).
    rewrite Hget. reflexivity.
  - intros key v dflt Hv. unfold StorageManager.getSetting, PlainObject.get.
    rewrite Hst1. unfold StorageManager.spread.
    now rewrite (lookup_union_Some_l _ _ _ _ Hv).
  - intros key Hnone. rewrite Hst1. unfold StorageManager.spread.
    now rewrite lookup_union_r.
  - intros key [v Hv]. split.
    + destruct (StorageManager.settings st0 !! key) eqn:H0; [eauto|].
      apply Hst0 in H0. congruence.
    + destruct (StorageManager.settings st1 !! key) eqn:H1; [eauto|].
      apply Hdefaults in H1. congruence.
  - intros ->. subst st0. unfold StorageManager.initSettings,
      StorageManager.getSettings, StorageManager.spread.
    cbn [StorageManager.settings StorageManager.savedSettings].
    apply (left_id ∅ (∪)).
Qed.

(* ====================================================================== *)
(** * Further properties: page navigation *)
(* ====================================================================== *)

Lemma seriesName_truthy input value :
  Validation.seriesName input = inl value -> JsString.truthy value = true.
Proof.
  unfold Validation.seriesName.
  destruct (negb (JsString.truthy input)); [discriminate|]. cbv zeta.
  destruct (String.length (Validation.trim input) <? 1)%nat eqn:H1;
    [discriminate|].
  destruct (50 <? _)%nat; [discriminate|].
  destruct (negb _); [discriminate|]. intros [= <-].
  destruct (Validation.trim input); [discriminate H1 | reflexivity].
Qed.

Section NavigationFacts.
Import ReaderNavigation.

Variable roundPercent : Z -> Z -> Z.

Lemma goToPage_inside nav sm i now total :
  files nav = Some total -> (0 <= i < Z.of_nat total)%Z ->
  goToPage roundPercent nav sm i now
  = ({| files := files nav; currentPage := i; seriesName := seriesName nav;
        readingDirection := readingDirection nav |},
     saveProgress roundPercent
       {| files := files nav; currentPage := i; seriesName := seriesName nav;
          readingDirection := readingDirection nav |} sm now).
Proof.
  intros Hf Hi. unfold goToPage. rewrite Hf, Z.geb_leb.
  destruct (Z.ltb_spec i 0); [lia|].
  destruct (Z.leb_spec (Z.of_nat total) i); [lia|]. reflexivity.
Qed.

Lemma goToPage_outside nav sm i now total :
  files nav = Some total -> (i < 0 \/ Z.of_nat total <= i)%Z ->
  goToPage roundPercent nav sm i now = (nav, sm).
Proof.
  intros Hf Hi. unfold goToPage. rewrite Hf, Z.geb_leb.
  destruct (Z.ltb_spec i 0); [reflexivity|].
  destruct (Z.leb_spec (Z.of_nat total) i); [reflexivity | lia].
Qed.

Lemma goToPage_valid nav sm i now :
  validPage nav -> validPage (fst (goToPage roundPercent nav sm i now)).
Proof.
  unfold validPage. destruct (files nav) as [total|] eqn:Hf; [|tauto].
  intros Hv.
  destruct (Z.ltb_spec i 0);
    [rewrite (goToPage_outside _ _ _ _ _ Hf) by lia; cbn [fst];
     now rewrite Hf|].
  destruct (Z.leb_spec (Z.of_nat total) i);
    [rewrite (goToPage_outside _ _ _ _ _ Hf) by lia; cbn [fst];
     now rewrite Hf|].
  rewrite (goToPage_inside _ _ _ _ _ Hf) by lia. cbn [fst files currentPage].
  rewrite Hf. lia.
Qed.

Lemma previousPage_eq nav sm now total :
  files nav = Some total ->
  previousPage roundPercent nav sm now
  = if (currentPage nav <=? 0)%Z then (nav, sm)
    else goToPage roundPercent nav sm (currentPage nav - 1) now.
Proof. intros Hf. unfold previousPage. now rewrite Hf. Qed.

Lemma nextPage_eq nav sm now total :
  files nav = Some total ->
  nextPage roundPercent nav sm now
  = if (currentPage nav >=? Z.of_nat total - 1)%Z then (nav, sm)
    else goToPage roundPercent nav sm (currentPage nav + 1) now.
Proof. intros Hf. unfold nextPage. now rewrite Hf. Qed.

Lemma previousPage_valid nav sm now :
  validPage nav -> validPage (fst (previousPage roundPercent nav sm now)).
Proof.
  intros Hv. unfold previousPage.
  destruct (files nav) eqn:Hf; [|exact Hv].
  destruct (currentPage nav <=? 0)%Z; [exact Hv | now apply goToPage_valid].
Qed.

Lemma nextPage_valid nav sm now :
  validPage nav -> validPage (fst (nextPage roundPercent nav sm now)).
Proof.
  intros Hv. unfold nextPage.
  destruct (files nav) eqn:Hf; [|exact Hv].
  destruct (_ >=? _)%Z; [exact Hv | now apply goToPage_valid].
Qed.

Lemma resumedPage_saved nav sm now :
  files nav <> None -> seriesName nav <> EmptyString ->
  StringUtils.sanitize (seriesName nav) <> "__proto__" ->
  forall name,
    name <> EmptyString ->
    StringUtils.sanitize name = StringUtils.sanitize (seriesName nav) ->
    resumedPage (saveProgress roundPercent nav sm now) name = currentPage nav.
Proof.
  intros Hf Hname Hkey name Hname' Hsame.
  unfold saveProgress. destruct (files nav) as [total|]; [|congruence].
  rewrite (truthy_nonempty _ Hname).
  unfold StorageManager.saveProgress. rewrite (truthy_nonempty _ Hname).
  cbn [negb snd]. unfold resumedPage, StorageManager.getProgress.
  rewrite (truthy_nonempty _ Hname'). cbn [negb].
  unfold StorageManager.getAllProgress. cbn [StorageManager.progress].
  rewrite Hsame.
  match goal with
  | |- context [PlainObject.set ?o ?k ?v] =>
      destruct (PlainObject_set_get o k v Hkey) as [_ Hget]
  end.
  rewrite Hget. reflexivity.
Qed.

End NavigationFacts.

(** X21.  Navigation keeps the current page among the pages: from a reader
    whose current page is one of its pages, [goToPage] at any index,
    [previousPage], [nextPage] and a click on either arrow in either
    reading direction all leave such a reader. *)
Theorem navigation_stays_in_range
    (roundPercent : Z -> Z -> Z) (nav : ReaderNavigation.Nav)
    (sm : StorageManager.State) (now : Z) :
  validPage nav ->
  (forall pageIndex,
     validPage (fst (ReaderNavigation.goToPage roundPercent nav sm
                       pageIndex now)))
  /\ validPage (fst (ReaderNavigation.previousPage roundPercent nav sm now))
  /\ validPage (fst (ReaderNavigation.nextPage roundPercent nav sm now))
  /\ (forall direction,
        validPage (fst (ReaderNavigation.handleNavClick roundPercent nav sm
                          direction now))).
Proof.
  intros Hv. split; [|split; [|split]].
  - intros pageIndex. now apply goToPage_valid.
  - now apply previousPage_valid.
  - now apply nextPage_valid.
  - intros direction. unfold ReaderNavigation.handleNavClick.
    destruct (String.eqb _ _), direction;
      first [now apply previousPage_valid | now apply nextPage_valid].
Qed.

Lemma navigation_stays_in_range_witness :
  validPage
    (fst (ReaderNavigation.nextPage (fun _ _ => 0%Z)
            (openedReader 3 "One Piece" "ltr" noProgress) noProgress 0)).
Proof.
  destruct (navigation_stays_in_range (fun _ _ => 0%Z)
              (openedReader 3 "One Piece" "ltr" noProgress) noProgress 0)
    as (_ & _ & H & _).
  - vm_compute. split; [discriminate | reflexivity].
  - exact H.
Defined.

(** X22.  [nextPage] and [previousPage] are inverse to each other inside
    the pages and do nothing at the ends: from a page that is not the last,
    [nextPage] moves one page forward and [previousPage] then comes back to
    the same reader; from a page that is not the first, likewise backward;
    on the last page [nextPage] changes nothing, on the first
    [previousPage] changes nothing.  A click on an arrow is [previousPage]
    or [nextPage], exchanged when the reading direction is [rtl]. *)
Theorem next_previous_inverse
    (roundPercent : Z -> Z -> Z) (nav : ReaderNavigation.Nav)
    (sm : StorageManager.State) (now now' : Z) (total : nat) :
  ReaderNavigation.files nav = Some total ->
  (0 <= ReaderNavigation.currentPage nav < Z.of_nat total)%Z ->
  let forward := ReaderNavigation.nextPage roundPercent nav sm now in
  let back := ReaderNavigation.previousPage roundPercent nav sm now in
  ((ReaderNavigation.currentPage nav < Z.of_nat total - 1)%Z ->
   ReaderNavigation.currentPage (fst forward)
   = (ReaderNavigation.currentPage nav + 1)%Z
   /\ fst (ReaderNavigation.previousPage roundPercent (fst forward)
             (snd forward) now') = nav)
  /\ ((0 < ReaderNavigation.currentPage nav)%Z ->
      ReaderNavigation.currentPage (fst back)
      = (ReaderNavigation.currentPage nav - 1)%Z
      /\ fst (ReaderNavigation.nextPage roundPercent (fst back)
                (snd back) now') = nav)
  /\ (ReaderNavigation.currentPage nav = (Z.of_nat total - 1)%Z ->
      forward = (nav, sm))
  /\ (ReaderNavigation.currentPage nav = 0%Z -> back = (nav, sm))
  /\ (forall direction,
        ReaderNavigation.handleNavClick roundPercent nav sm direction now
        = match direction,
                String.eqb (ReaderNavigation.readingDirection nav) "rtl" with
          | ReaderNavigation.prev, false | ReaderNavigation.next, true => back
          | _, _ => forward
          end).
Proof.
  intros Hf Hv forward back. subst forward back.
  split; [|split; [|split; [|split]]].
  - intros Hlast.
    rewrite (nextPage_eq _ _ _ _ _ Hf), Z.geb_leb.
    destruct (Z.leb_spec (Z.of_nat total - 1)
                (ReaderNavigation.currentPage nav)); [lia|].
    rewrite (goToPage_inside _ _ _ _ _ _ Hf) by lia. cbn [fst snd].
    split; [reflexivity|].
    match goal with
    | |- context [ReaderNavigation.previousPage _ ?n _ _] =>
        rewrite (previousPage_eq roundPercent n _ _ total Hf)
    end.
    cbn [ReaderNavigation.currentPage].
    destruct (Z.leb_spec (ReaderNavigation.currentPage nav + 1) 0); [lia|].
    match goal with
    | |- context [ReaderNavigation.goToPage _ ?n _ _ _] =>
        rewrite (goToPage_inside roundPercent n _ _ _ total Hf) by lia
    end.
    destruct nav as [fs page name dir].
    cbn [fst ReaderNavigation.currentPage ReaderNavigation.files
         ReaderNavigation.seriesName ReaderNavigation.readingDirection].
    f_equal. lia.
  - intros Hfirst.
    rewrite (previousPage_eq _ _ _ _ _ Hf).
    destruct (Z.leb_spec (ReaderNavigation.currentPage nav) 0); [lia|].
    rewrite (goToPage_inside _ _ _ _ _ _ Hf) by lia. cbn [fst snd].
    split; [reflexivity|].
    match goal with
    | |- context [ReaderNavigation.nextPage _ ?n _ _] =>
        rewrite (nextPage_eq roundPercent n _ _ total Hf), Z.geb_leb
    end.
    cbn [ReaderNavigation.currentPage].
    destruct (Z.leb_spec (Z.of_nat total - 1)
                (ReaderNavigation.currentPage nav - 1)); [lia|].
    match goal with
    | |- context [ReaderNavigation.goToPage _ ?n _ _ _] =>
        rewrite (goToPage_inside roundPercent n _ _ _ total Hf) by lia
    end.
    destruct nav as [fs page name dir].
    cbn [fst ReaderNavigation.currentPage ReaderNavigation.files
         ReaderNavigation.seriesName ReaderNavigation.readingDirection].
    f_equal. lia.
  - intros Hlast. rewrite (nextPage_eq _ _ _ _ _ Hf), Z.geb_leb, Hlast.
    now rewrite Z.leb_refl.
  - intros Hfirst. now rewrite (previousPage_eq _ _ _ _ _ Hf), Hfirst.
  - intros direction. unfold ReaderNavigation.handleNavClick.
    now destruct direction, (String.eqb _ "rtl").
Qed.

Lemma next_previous_inverse_witness :
  fst (ReaderNavigation.previousPage (fun _ _ => 0%Z)
         (fst (ReaderNavigation.nextPage (fun _ _ => 0%Z)
                 (openedReader 3 "One Piece" "rtl" noProgress) noProgress 0))
         (snd (ReaderNavigation.nextPage (fun _ _ => 0%Z)
                 (openedReader 3 "One Piece" "rtl" noProgress) noProgress 0))
         1)
  = openedReader 3 "One Piece" "rtl" noProgress.
Proof.
  destruct (next_previous_inverse (fun _ _ => 0%Z)
              (openedReader 3 "One Piece" "rtl" noProgress) noProgress 0 1 3)
    as (H & _).
  - reflexivity.
  - vm_compute. split; [discriminate | reflexivity].
  - apply H. vm_compute. reflexivity.
Defined.

(** X23.  Progress is resumed where it was left: after [goToPage] at a
    page of the series, the reader that [loadSeriesData] opens for the
    series, or for any name with the same storage key, starts at that
    page, provided the key is not [__proto__]. *)
Theorem progress_resumes
    (roundPercent : Z -> Z -> Z) (nav : ReaderNavigation.Nav)
    (sm : StorageManager.State) (pageIndex now : Z) (total : nat) :
  ReaderNavigation.files nav = Some total ->
  ReaderNavigation.seriesName nav <> EmptyString ->
  StringUtils.sanitize (ReaderNavigation.seriesName nav) <> "__proto__" ->
  (0 <= pageIndex < Z.of_nat total)%Z ->
  let run := ReaderNavigation.goToPage roundPercent nav sm pageIndex now in
  ReaderNavigation.currentPage (fst run) = pageIndex
  /\ StorageManager.currentSeries (snd run)
     = Some (ReaderNavigation.seriesName nav)
  /\ (forall name direction,
        name <> EmptyString ->
        StringUtils.sanitize name
        = StringUtils.sanitize (ReaderNavigation.seriesName nav) ->
        ReaderNavigation.currentPage (openedReader total name direction (snd run))
        = pageIndex
        /\ validPage (openedReader total name direction (snd run))).
Proof.
  intros Hf Hname Hkey Hi run. subst run.
  rewrite (goToPage_inside _ _ _ _ _ _ Hf Hi). cbn [fst snd].
  split; [reflexivity|]. split.
  - unfold ReaderNavigation.saveProgress. cbn [ReaderNavigation.files
      ReaderNavigation.seriesName]. rewrite Hf, (truthy_nonempty _ Hname).
    unfold StorageManager.saveProgress. now rewrite (truthy_nonempty _ Hname).
  - intros name direction Hname' Hsame.
    assert (Hpage : ReaderNavigation.currentPage
                      (openedReader total name direction
                         (ReaderNavigation.saveProgress roundPercent
                            {| ReaderNavigation.files := ReaderNavigation.files nav;
                               ReaderNavigation.currentPage := pageIndex;
                               ReaderNavigation.seriesName :=
                                 ReaderNavigation.seriesName nav;
                               ReaderNavigation.readingDirection :=
                                 ReaderNavigation.readingDirection nav |}
                            sm now))
                    = pageIndex).
    { unfold openedReader. cbn [ReaderNavigation.currentPage].
      rewrite resumedPage_saved; [reflexivity | | exact Hname | exact Hkey
                                  | exact Hname' | exact Hsame].
      cbn [ReaderNavigation.files]. congruence. }
    split; [exact Hpage|]. unfold validPage. rewrite Hpage. exact Hi.
Qed.

Lemma progress_resumes_witness :
  ReaderNavigation.currentPage
    (openedReader 12 "one_piece" "ltr"
       (snd (ReaderNavigation.goToPage (fun _ _ => 0%Z)
               (openedReader 12 "One Piece" "ltr" noProgress) noProgress 7 0)))
  = 7%Z.
Proof.
  destruct (progress_resumes (fun _ _ => 0%Z)
              (openedReader 12 "One Piece" "ltr" noProgress) noProgress 7 0 12)
    as (_ & _ & H).
  - reflexivity.
  - discriminate.
  - vm_compute. discriminate.
  - lia.
  - apply (H "one_piece" "ltr"); [discriminate | reflexivity].
Defined.

(** X24.  [loadSeriesData] takes the stored page as it is.  When the
    stored page is beyond the page count of the series that is opened, as
    it can be when a longer series shares the storage key, both arrows are
    dead in either reading direction: [previousPage] asks for a page that
    [goToPage] refuses and [nextPage] refuses at once. *)
Theorem stale_page_is_stuck
    (roundPercent : Z -> Z -> Z) (nav : ReaderNavigation.Nav)
    (sm : StorageManager.State) (now : Z) (total : nat) :
  ReaderNavigation.files nav = Some total ->
  (Z.of_nat total < ReaderNavigation.currentPage nav)%Z ->
  ReaderNavigation.previousPage roundPercent nav sm now = (nav, sm)
  /\ ReaderNavigation.nextPage roundPercent nav sm now = (nav, sm)
  /\ (forall direction,
        ReaderNavigation.handleNavClick roundPercent nav sm direction now
        = (nav, sm)).
Proof.
  intros Hf Hstale.
  assert (Hprev : ReaderNavigation.previousPage roundPercent nav sm now
                  = (nav, sm)).
  { rewrite (previousPage_eq _ _ _ _ _ Hf).
    destruct (_ <=? _)%Z; [reflexivity|].
    apply (goToPage_outside _ _ _ _ _ _ Hf). lia. }
  assert (Hnext : ReaderNavigation.nextPage roundPercent nav sm now
                  = (nav, sm)).
  { rewrite (nextPage_eq _ _ _ _ _ Hf), Z.geb_leb.
    destruct (Z.leb_spec (Z.of_nat total - 1) (ReaderNavigation.currentPage nav));
      [reflexivity | lia]. }
  split; [exact Hprev|]. split; [exact Hnext|].
  intros direction. unfold ReaderNavigation.handleNavClick.
  now destruct (String.eqb _ _), direction.
Qed.

Lemma stale_page_is_stuck_witness :
  let sm := snd (ReaderNavigation.goToPage (fun _ _ => 0%Z)
                   (openedReader 12 "One Piece" "ltr" noProgress)
                   noProgress 11 0) in
  ReaderNavigation.handleNavClick (fun _ _ => 0%Z)
    (openedReader 3 "one_piece" "ltr" sm) sm ReaderNavigation.prev 1
  = (openedReader 3 "one_piece" "ltr" sm, sm).
Proof.
  intros sm.
  destruct (stale_page_is_stuck (fun _ _ => 0%Z)
              (openedReader 3 "one_piece" "ltr" sm) sm 1 3) as (_ & _ & H).
  - reflexivity.
  - vm_compute. reflexivity.
  - apply H.
Defined.

(** X25.  A series that [startReading] has registered opens at its first
    page: whatever progress was stored before, the progress that
    [startReading] leaves makes [loadSeriesData] start at page 0. *)
Theorem startReading_opens_first_page
    (roundPercent : Z -> Z -> Z) (data : FileManager.ZipResult)
    (input seriesName direction : string) (sm : StorageManager.State)
    (db : IndexedDBManager.DB) (now0 now1 now2 : Z) (total : nat) :
  Validation.seriesName input = inl seriesName ->
  ReaderNavigation.currentPage
    (openedReader total seriesName direction
       (fst (MangaReaderApp.startReading roundPercent (Some data) input sm db
               now0 now1 now2)))
  = 0%Z.
Proof.
  intros Hname. pose proof (seriesName_truthy _ _ Hname) as Ht.
  unfold MangaReaderApp.startReading. rewrite Hname.
  unfold StorageManager.saveProgress. rewrite Ht. cbn [negb].
  assert (Hsm : forall sm' : StorageManager.State,
             fst (match IndexedDBManager.storeSeries db seriesName
                          (FileManager.result_js data) now1 now2 with
                  | Ok store => (sm', Some store)
                  | Err _ => (sm', db)
                  end) = sm')
    by (intros sm'; now destruct (IndexedDBManager.storeSeries _ _ _ _ _)).
  rewrite Hsm. unfold openedReader. cbn [ReaderNavigation.currentPage].
  unfold ReaderNavigation.resumedPage, StorageManager.getProgress.
  rewrite Ht. cbn [negb].
  unfold StorageManager.getAllProgress. cbn [StorageManager.progress].
  unfold PlainObject.get, PlainObject.set.
  destruct (decide (StringUtils.sanitize seriesName = "__proto__")) as [Hk|Hk].
  - destruct (StorageManager.progress sm !! StringUtils.sanitize seriesName)
      as [r|] eqn:Hr.
    + now rewrite lookup_insert_eq.
    + rewrite Hr, Hk. reflexivity.
  - now rewrite lookup_insert_eq.
Qed.

Lemma startReading_opens_first_page_witness :
  ReaderNavigation.currentPage
    (openedReader 1 "One Piece" "ltr"
       (fst (MangaReaderApp.startReading (fun _ _ => 0%Z) (Some sampleResult)
               " One Piece "
               (snd (ReaderNavigation.goToPage (fun _ _ => 0%Z)
                       (openedReader 12 "One Piece" "ltr" noProgress)
                       noProgress 11 0))
               (Some ∅) 5 5 5)))
  = 0%Z.
Proof.
  apply (startReading_opens_first_page (fun _ _ => 0%Z) sampleResult
           " One Piece " "One Piece" "ltr").
  reflexivity.
Defined.

(* ====================================================================== *)
(** * Further properties: separation of the translation blocks *)
(* ====================================================================== *)

Section SeparationFacts.
Import MangaReader.
Local Open Scope Q_scope.

Lemma same_sizes_refl blocks0 : same_sizes blocks0 blocks0.
Proof. split; [reflexivity|]. intros k b Hb. now exists b. Qed.

Lemma same_sizes_pushed blocks0 blocks i j a b a' b' :
  i <> j -> blocks !! i = Some a -> blocks !! j = Some b ->
  b_width a' = b_width a -> b_height a' = b_height a ->
  b_width b' = b_width b -> b_height b' = b_height b ->
  same_sizes blocks0 blocks ->
  same_sizes blocks0 (<[j := b']> (<[i := a']> blocks)).
Proof.
  intros Hij Ha Hb Hwa Hha Hwb Hhb [Hlen Hsize]. split.
  - now rewrite !length_insert.
  - intros k x Hx. rewrite (pushed_lookup _ _ _ _ _ _ _ _ Hij Ha Hb) in Hx.
    destruct (decide (k = j)) as [->|_].
    + injection Hx as <-. destruct (Hsize _ _ Hb) as (b0 & H0 & Hw & Hh).
      exists b0. split; [exact H0|]. split; congruence.
    + destruct (decide (k = i)) as [->|_].
      * injection Hx as <-. destruct (Hsize _ _ Ha) as (b0 & H0 & Hw & Hh).
        exists b0. split; [exact H0|]. split; congruence.
      * now apply Hsize.
Qed.

Lemma separatePair_same_sizes ov blocks0 s i j :
  (i < j)%nat -> same_sizes blocks0 (s_blocks s) ->
  same_sizes blocks0 (s_blocks (fst (separatePair ov s (i, j)))).
Proof.
  intros Hij Hs.
  destruct (separatePair_cases ov s i j)
    as [E | (a & b & Ha & Hb & _ & Hstep & E)]; rewrite E; cbn [fst];
    [exact Hs|].
  destruct (pushed_blocks ov s i j a b Hstep)
    as (a' & b' & -> & Hwa & Hha & Hwb & Hhb & _).
  apply (same_sizes_pushed _ _ _ _ a b); try assumption. lia.
Qed.

Lemma separate_same_sizes r :
  same_sizes (blocks r) (s_blocks (fst (separate r))).
Proof.
  apply (separate_invariant (fun s => same_sizes (blocks r) (s_blocks s))).
  - intros s i j Hij Hs. now apply separatePair_same_sizes.
  - apply same_sizes_refl.
Qed.

Lemma restore_same_sizes orig blocks0 :
  same_sizes blocks0 (imap (restoreBlock orig) blocks0).
Proof.
  split; [apply length_imap|].
  intros k b Hb. rewrite list_lookup_imap in Hb.
  destruct (blocks0 !! k) as [b0|]; [|discriminate]. injection Hb as <-.
  exists b0. split; [reflexivity|]. unfold restoreBlock.
  destruct (orig !! k) as [[l t]|]; now split.
Qed.

Lemma applySeparation_blocks r :
  blocks (applySeparation r) = s_blocks (fst (separate r))
  /\ originalPositions (applySeparation r) = s_original (fst (separate r))
  /\ overlay (applySeparation r) = overlay r
  /\ separationEnabled (applySeparation r) = separationEnabled r.
Proof.
  unfold applySeparation. now destruct (separate r).
Qed.

(** A sweep over pairs that do not overlap changes nothing. *)
Lemma fold_sweepStep_apart ov s l :
  (forall p, In p l -> separatePair ov s p = (s, false)) ->
  fold_left (sweepStep ov) l (s, false) = (s, false).
Proof.
  induction l as [|p l IH]; intros H; [reflexivity|].
  cbn [fold_left]. unfold sweepStep at 2. rewrite (H p) by now left.
  cbn [orb]. apply IH. intros q Hq. apply H. now right.
Qed.

Lemma separatePair_apart ov s i j :
  (forall a b, s_blocks s !! i = Some a -> s_blocks s !! j = Some b ->
               rectsOverlap (getBoundingClientRect ov a)
                            (getBoundingClientRect ov b) = false) ->
  separatePair ov s (i, j) = (s, false).
Proof.
  intros H. unfold separatePair.
  destruct (s_blocks s !! i) as [a|]; [|reflexivity].
  destruct (s_blocks s !! j) as [b|]; [|reflexivity].
  now rewrite (H a b eq_refl eq_refl).
Qed.

Lemma rectsOverlap_sym a b : rectsOverlap a b = rectsOverlap b a.
Proof.
  unfold rectsOverlap. f_equal.
  destruct (Qle_bool (r_right a) (r_left b)),
           (Qle_bool (r_right b) (r_left a)),
           (Qle_bool (r_bottom a) (r_top b)),
           (Qle_bool (r_bottom b) (r_top a)); reflexivity.
Qed.

Lemma pairStep_positive moved i j ra rb :
  0 < pairStep moved i j ra rb
  <-> movedOf moved i < maxTotal /\ movedOf moved j < maxTotal.
Proof.
  unfold pairStep, maxPairStep, maxTotal, padding.
  set (pen := match pushAxis ra rb with
              | AxisX => penetrationX ra rb
              | AxisY => penetrationY ra rb
              end).
  assert (Hpen : 0 <= pen).
  { subst pen. destruct (pushAxis ra rb); apply Q.le_max_l. }
  set (needed := Qmin (pen + 2) 6).
  assert (Hneeded : 2 <= needed).
  { subst needed. apply Q.min_glb; lra. }
  assert (Hhalf : needed / 2 == needed * (1 # 2)) by reflexivity.
  rewrite !Q.min_glb_lt_iff, !Q.max_lt_iff. split.
  - intros [[_ [HA|HA]] [HB|HB]]; lra.
  - intros [HA HB]. split; [split|]; [lra | right; lra | right; lra].
Qed.

Lemma pairStep_at_least moved i j ra rb :
  Qmin 1 (Qmin (maxTotal - movedOf moved i) (maxTotal - movedOf moved j))
  <= Qmax 0 (pairStep moved i j ra rb).
Proof.
  unfold pairStep, maxPairStep, maxTotal, padding.
  set (pen := match pushAxis ra rb with
              | AxisX => penetrationX ra rb
              | AxisY => penetrationY ra rb
              end).
  assert (Hpen : 0 <= pen).
  { subst pen. destruct (pushAxis ra rb); apply Q.le_max_l. }
  set (needed := Qmin (pen + 2) 6).
  assert (Hneeded : 2 <= needed).
  { subst needed. apply Q.min_glb; lra. }
  assert (Hhalf : needed / 2 == needed * (1 # 2)) by reflexivity.
  set (ca := 24 - movedOf moved i). set (cb := 24 - movedOf moved j).
  pose proof (Q.le_min_l 1 (Qmin ca cb)) as H1.
  pose proof (Q.le_min_r 1 (Qmin ca cb)) as H2.
  pose proof (Q.le_min_l ca cb) as H3.
  pose proof (Q.le_min_r ca cb) as H4.
  pose proof (Q.le_max_l 0 ca) as H5. pose proof (Q.le_max_r 0 ca) as H6.
  pose proof (Q.le_max_l 0 cb) as H7. pose proof (Q.le_max_r 0 cb) as H8.
  set (step := Qmin (Qmin (needed / 2) (Qmax 0 ca)) (Qmax 0 cb)).
  pose proof (Q.le_max_r 0 step) as H9.
  assert (Hstep : Qmin 1 (Qmin ca cb) <= step); [|lra].
  subst step. apply Q.min_glb; [apply Q.min_glb|]; lra.
Qed.

End SeparationFacts.

(** X26.  Separation moves blocks and does nothing else to them:
    [applySeparation], [restoreOriginalPositions] and [toggleSeparation]
    leave as many blocks as there were, each at its index with its width and
    its height, and leave the rectangle of the overlay; [toggleSeparation]
    flips [separationEnabled], the other two leave it. *)
Theorem separation_keeps_sizes (r : MangaReader.Reader) :
  (same_sizes (MangaReader.blocks r)
     (MangaReader.blocks (MangaReader.applySeparation r))
   /\ MangaReader.overlay (MangaReader.applySeparation r)
      = MangaReader.overlay r
   /\ MangaReader.separationEnabled (MangaReader.applySeparation r)
      = MangaReader.separationEnabled r)
  /\ (same_sizes (MangaReader.blocks r)
        (MangaReader.blocks (MangaReader.restoreOriginalPositions r))
      /\ MangaReader.originalPositions (MangaReader.restoreOriginalPositions r)
         = ∅)
  /\ (same_sizes (MangaReader.blocks r)
        (MangaReader.blocks (MangaReader.toggleSeparation r))
      /\ MangaReader.overlay (MangaReader.toggleSeparation r)
         = MangaReader.overlay r
      /\ MangaReader.separationEnabled (MangaReader.toggleSeparation r)
         = negb (MangaReader.separationEnabled r)).
Proof.
  assert (Happly : forall r',
             same_sizes (MangaReader.blocks r')
               (MangaReader.blocks (MangaReader.applySeparation r'))).
  { intros r'. destruct (applySeparation_blocks r') as (-> & _).
    apply separate_same_sizes. }
  split; [|split].
  - split; [apply Happly|]. now destruct (applySeparation_blocks r) as (_ & _ & ? & ?).
  - split; [apply restore_same_sizes | reflexivity].
  - unfold MangaReader.toggleSeparation.
    cbn [MangaReader.separationEnabled].
    destruct (negb (MangaReader.separationEnabled r)) eqn:Hflag.
    + match goal with
      | |- context [MangaReader.applySeparation ?x] =>
          destruct (applySeparation_blocks x) as (_ & _ & Hov & Hen);
          pose proof (Happly x) as Hsizes
      end.
      split; [exact Hsizes|]. split; [exact Hov|]. rewrite Hen. reflexivity.
    + split; [apply restore_same_sizes|]. split; reflexivity.
Qed.

(** X27.  Blocks that do not overlap are left alone: when no two blocks of
    the reader overlap, the run of [applySeparation] makes one sweep that
    pushes nothing, moves no block and saves no original. *)
Theorem separated_blocks_stay (r : MangaReader.Reader) :
  apart r ->
  MangaReader.applySeparation r = r
  /\ fst (MangaReader.separate r) = startOf r
  /\ snd (MangaReader.separate r)
     = match MangaReader.blocks r with [] => [] | _ => [false] end.
Proof.
  intros Hapart.
  assert (Hsweep : MangaReader.sweep (MangaReader.overlay r) (startOf r)
                   = (startOf r, false)).
  { unfold MangaReader.sweep. apply fold_sweepStep_apart.
    intros [i j] Hp. apply in_pairs in Hp.
    apply separatePair_apart. intros a b Ha Hb.
    apply (Hapart i j a b); [lia | exact Ha | exact Hb]. }
  assert (Hrun : MangaReader.separate r
                 = (startOf r,
                    match MangaReader.blocks r with [] => [] | _ => [false] end)).
  { unfold MangaReader.separate. fold (startOf r).
    destruct (MangaReader.blocks r) eqn:Hb; [reflexivity|].
    unfold MangaReader.maxIterations. cbn [MangaReader.sweeps].
    now rewrite Hsweep. }
  split; [|now rewrite Hrun].
  unfold MangaReader.applySeparation. rewrite Hrun. now destruct r.
Qed.

Lemma separated_blocks_stay_witness :
  MangaReader.applySeparation apartReader = apartReader.
Proof.
  apply (separated_blocks_stay apartReader).
  intros i j a b Hlt Ha Hb.
  destruct i as [|[|i]], j as [|[|j]]; try lia; try discriminate Ha;
    try discriminate Hb.
  injection Ha as <-. injection Hb as <-. reflexivity.
Defined.

(** X28.  An overlapping pair is pushed as long as both blocks have
    budget: for two blocks that overlap, whichever comes first, the pair is
    pushed exactly when each of the two has moved less than [maxTotal] in
    this run, and the step is then at least one pixel or all that the
    smaller remaining budget allows. *)
Theorem overlapping_pair_pushed
    (overlayRect : MangaReader.DOMRect) (s : MangaReader.Sep)
    (i j : nat) (a b : MangaReader.Block) :
  MangaReader.s_blocks s !! i = Some a ->
  MangaReader.s_blocks s !! j = Some b ->
  MangaReader.rectsOverlap
    (MangaReader.getBoundingClientRect overlayRect a)
    (MangaReader.getBoundingClientRect overlayRect b) = true ->
  let ra := MangaReader.getBoundingClientRect overlayRect a in
  let rb := MangaReader.getBoundingClientRect overlayRect b in
  let step := MangaReader.pairStep (MangaReader.s_moved s) i j ra rb in
  MangaReader.rectsOverlap rb ra = true
  /\ (snd (MangaReader.separatePair overlayRect s (i, j)) = true
      <-> (MangaReader.movedOf (MangaReader.s_moved s) i < MangaReader.maxTotal
           /\ MangaReader.movedOf (MangaReader.s_moved s) j
              < MangaReader.maxTotal)%Q)
  /\ (snd (MangaReader.separatePair overlayRect s (i, j)) = true ->
      (Qmin 1 (Qmin (MangaReader.maxTotal
                     - MangaReader.movedOf (MangaReader.s_moved s) i)
                    (MangaReader.maxTotal
                     - MangaReader.movedOf (MangaReader.s_moved s) j))
       <= step)%Q)
  /\ (snd (MangaReader.separatePair overlayRect s (i, j)) = false ->
      MangaReader.separatePair overlayRect s (i, j) = (s, false)).
Proof.
  intros Ha Hb Hover ra rb step.
  assert (Hflag : snd (MangaReader.separatePair overlayRect s (i, j)) = true
                  <-> (0 < step)%Q).
  { destruct (separatePair_cases overlayRect s i j)
      as [E | (a' & b' & Ha' & Hb' & _ & Hstep & E)].
    - rewrite E. cbn [snd]. split; [discriminate|]. intros Hpos. exfalso.
      subst step ra rb.
      revert E. unfold MangaReader.separatePair. rewrite Ha, Hb, Hover.
      cbn [negb]. cbv zeta.
      destruct (Qle_bool _ 0) eqn:Hle.
      + apply Qle_bool_true in Hle. intros _.
        apply (Qlt_irrefl 0). eapply Qlt_le_trans; [exact Hpos | exact Hle].
      + destruct (MangaReader.along _ _), (MangaReader.along _ _).
        discriminate.
    - rewrite E. cbn [snd]. rewrite Ha in Ha'. rewrite Hb in Hb'.
      injection Ha' as <-. injection Hb' as <-. now split. }
  split; [now rewrite rectsOverlap_sym|]. split; [|split].
  - rewrite Hflag. apply pairStep_positive.
  - intros Hpushed. apply Hflag in Hpushed.
    pose proof (pairStep_at_least (MangaReader.s_moved s) i j ra rb) as Hmin.
    fold step in Hmin.
    destruct (Q.max_spec 0 step) as [[_ E] | [Hle _]].
    + now rewrite E in Hmin.
    + exfalso. apply (Qlt_irrefl 0), (Qlt_le_trans _ step); assumption.
  - intros Hidle.
    destruct (separatePair_cases overlayRect s i j)
      as [E | (a' & b' & _ & _ & _ & _ & E)]; [exact E|].
    rewrite E in Hidle. discriminate Hidle.
Qed.

Lemma overlapping_pair_pushed_witness :
  snd (MangaReader.separatePair (MangaReader.overlay insideReader)
         (startOf insideReader) (0%nat, 1%nat)) = true.
Proof.
  destruct (overlapping_pair_pushed (MangaReader.overlay insideReader)
              (startOf insideReader) 0 1
              {| MangaReader.b_left := 100; MangaReader.b_top := 100;
                 MangaReader.b_width := 50; MangaReader.b_height := 50 |}
              {| MangaReader.b_left := 120; MangaReader.b_top := 110;
                 MangaReader.b_width := 50; MangaReader.b_height := 50 |})
    as (_ & H & _).
  - reflexivity.
  - reflexivity.
  - vm_compute. reflexivity.
  - apply H. split; vm_compute; reflexivity.
Defined.

(* ====================================================================== *)
(** * Further properties: what the archive yields *)
(* ====================================================================== *)

Section DocumentFacts.
Import FileManager.

Lemma validBlock_spec block :
  validBlock block = Ok true <-> mokuroBlock block.
Proof.
  unfold validBlock, mokuroBlock. split.
  - destruct block; try discriminate;
      destruct (Js.get _ "box") as [[| | | |box| |]|] eqn:Hbox;
      try discriminate;
      destruct (negb (length box =? 4)%nat) eqn:Hlen; try discriminate;
      apply negb_false_iff, Nat.eqb_eq in Hlen;
      (destruct (Js.get _ "lines") as [[| | | |lines| |]|] eqn:Hlines;
       try discriminate); intros _; eauto.
  - intros [(box & Hbox & Hlen) (lines & Hlines)].
    destruct block; try discriminate Hbox;
      rewrite Hbox, Hlines, Hlen; reflexivity.
Qed.

Lemma validBlocks_spec blocks :
  validBlocks blocks = Ok true <-> Forall mokuroBlock blocks.
Proof.
  induction blocks as [|block rest IH]; cbn [validBlocks].
  - split; [constructor | reflexivity].
  - rewrite Forall_cons, <- IH, <- validBlock_spec.
    destruct (validBlock block) as [[]|e]; cbn; split;
      try tauto; try (intros [? ?]; discriminate); try discriminate.
Qed.

Lemma validBlocks_error blocks e :
  validBlocks blocks = Err e -> e = TypeError /\ In JNull blocks.
Proof.
  induction blocks as [|block rest IH]; cbn [validBlocks]; [discriminate|].
  destruct (validBlock block) as [[]|e'] eqn:Hb; cbn.
  - intros H. destruct (IH H) as [-> Hin]. split; [reflexivity | now right].
  - discriminate.
  - intros [= ->]. unfold validBlock in Hb.
    destruct block; try (injection Hb as <-; split; [reflexivity | now left]);
      destruct (Js.get _ "box") as [[| | | |box| |]|]; try discriminate Hb;
      destruct (negb _); discriminate Hb.
Qed.

Lemma acceptedImage_records entry img :
  acceptedImage entry = Some img -> recordsImage img (fst entry).
Proof.
  destruct entry as [filename e]. unfold acceptedImage, recordsImage.
  cbn [fst]. destruct (dir e); [discriminate|].
  destruct (shouldSkipFile filename); [discriminate|].
  destruct (FileUtils.isImage filename); [|discriminate]. cbn [orb negb fst].
  destruct (async_blob e) as [blob|]; [|discriminate].
  unfold isValidImage.
  destruct (Z.ltb_spec 0 (blob_size blob)); [|discriminate].
  destruct (Z.ltb_spec (blob_size blob) (50 * 1024 * 1024)); [|discriminate].
  cbn [andb]. intros [= <-]. cbn [imageData i_filename i_baseName i_type i_size
                                   i_blob].
  split_and!; try reflexivity; lia.
Qed.

Lemma acceptedTranslation_records JSON_parse entry t :
  acceptedTranslation JSON_parse entry = Some t ->
  isValidMokuroJSON (t_data t) = Ok true
  /\ FileUtils.isJSON (fst entry) = true
  /\ t_filename t = cleanFilename (fst entry)
  /\ t_baseName t = FileUtils.getBaseName (fst entry)
  /\ exists text,
       async_text (snd entry) = Ok text
       /\ JSON_parse text = Some (t_data t)
       /\ t_size t = String.length text.
Proof.
  destruct entry as [filename e]. unfold acceptedTranslation.
  cbn [fst snd]. destruct (dir e); [discriminate|].
  destruct (shouldSkipFile filename); [discriminate|].
  destruct (FileUtils.isImage filename); [discriminate|].
  destruct (FileUtils.isJSON filename); [|discriminate]. cbn [orb negb fst snd].
  destruct (async_text e) as [text|]; [|discriminate].
  destruct (JSON_parse text) as [json|] eqn:Hparse; [|discriminate].
  destruct (isValidMokuroJSON json) as [[]|] eqn:Hvalid; try discriminate.
  intros [= <-]. cbn [translationData t_data t_filename t_baseName t_size].
  split_and!; try reflexivity; try assumption. now exists text.
Qed.

Lemma cleanFilename_clean filename :
  JsString.has_char "/" (cleanFilename filename) = false
  /\ JsString.has_char "\" (cleanFilename filename) = false.
Proof.
  unfold cleanFilename.
  set (a := JsString.lastSegment "/" filename).
  pose proof (lastSegment_clean "/" filename) as Ha. fold a in Ha.
  destruct (lastSegment_suffix "\" a) as [q Hq].
  split; [|apply lastSegment_clean].
  rewrite Hq, has_char_app in Ha. now apply orb_false_iff in Ha.
Qed.

Lemma page_of_matchFiles localeCompare cf P :
  In P (matched (matchFiles localeCompare cf)) ->
  In (image P) (images cf)
  /\ translation P = findMatchingTranslation (translations cf) (image P).
Proof.
  rewrite matched_matchFiles. intros HP.
  apply list_elem_of_In, list_elem_of_lookup in HP as [k Hk].
  rewrite list_lookup_imap in Hk.
  destruct (sort _ (images cf) !! k) as [x|] eqn:Hx; [|discriminate].
  injection Hk as <-. cbn [pageOf image translation]. split; [|reflexivity].
  eapply Permutation_in; [apply sort_perm|].
  apply list_elem_of_In. eapply list_elem_of_lookup_2. exact Hx.
Qed.

Lemma findMatchingTranslation_member translations img t :
  findMatchingTranslation translations img = Some t -> In t translations.
Proof.
  unfold findMatchingTranslation.
  destruct (negb _); [discriminate|].
  destruct (List.find _ translations) as [t'|] eqn:Hexact.
  - intros [= <-]. now apply find_some in Hexact.
  - intros Hfuzzy. now apply find_some in Hfuzzy.
Qed.

End DocumentFacts.

(** X29.  [isValidMokuroJSON] accepts exactly the documents with a truthy
    [version], [img_width] and [img_height] and an array [blocks] whose
    elements all have an array [box] of four elements and an array
    [lines]; the loop stops at the first block that has not.  It throws
    only on a [null] block that no such block precedes, with a
    [TypeError]; in every other case it answers [false]. *)
Theorem isValidMokuroJSON_accepts (data : jsval) :
  (FileManager.isValidMokuroJSON data = Ok true <-> mokuroDocument data)
  /\ (forall e,
        FileManager.isValidMokuroJSON data = Err e ->
        e = TypeError
        /\ exists blocks,
             Js.get data "blocks" = Some (JArr blocks) /\ In JNull blocks)
  /\ (forall blocks,
        FileManager.validBlocks blocks = Ok true <-> Forall mokuroBlock blocks).
Proof.
  split; [|split; [|apply validBlocks_spec]].
  - unfold FileManager.isValidMokuroJSON, mokuroDocument.
    destruct (negb (Js.truthy data) || negb (Js.is_object_type data)) eqn:Hobj.
    { split; [discriminate|]. intros (Hv & _). exfalso.
      destruct data; try discriminate Hv.
      discriminate Hobj. }
    destruct (Js.truthy_opt (Js.get data "version"));
      [|split; [discriminate | now intros (? & _)]].
    destruct (Js.truthy_opt (Js.get data "img_width"));
      [|split; [discriminate | now intros (_ & ? & _)]].
    destruct (Js.truthy_opt (Js.get data "img_height"));
      [|split; [discriminate | now intros (_ & _ & ? & _)]].
    cbn [negb orb].
    destruct (Js.get data "blocks") as [[| | | |blocks| |]|];
      try (split; [discriminate | intros (_ & _ & _ & bs & [=] & _)]).
    rewrite validBlocks_spec. split.
    + intros H. split_and!; try reflexivity. now exists blocks.
    + now intros (_ & _ & _ & bs & [= <-] & H).
  - intros e. unfold FileManager.isValidMokuroJSON.
    destruct (_ || _); [discriminate|].
    destruct (_ || _); [discriminate|].
    destruct (Js.get data "blocks") as [[| | | |blocks| |]|]; try discriminate.
    intros H. apply validBlocks_error in H as [-> Hin].
    split; [reflexivity|]. now exists blocks.
Qed.

(** X30.  Every page that [matchFiles] builds from what [extractFiles]
    collected goes back to the archive: its image is the record of an
    entry that is a file, is not skipped and has an image name, with the
    name cleaned of its path, a size above 0 and below 50 MiB; its
    translation, when it has one, is the record of an entry with a JSON
    name whose text parses to a document that [isValidMokuroJSON]
    accepts. *)
Theorem pages_come_from_entries
    (JSON_parse : string -> option jsval)
    (localeCompare : string -> string -> comparison)
    (zipData : list (string * FileManager.ZipEntry))
    (P : FileManager.Page) :
  In P (FileManager.matched
          (FileManager.matchFiles localeCompare
             (snd (FileManager.extractFiles JSON_parse zipData
                     FileManager.noFiles)))) ->
  (exists filename zipEntry,
     In (filename, zipEntry) zipData
     /\ FileManager.dir zipEntry = false
     /\ recordsImage (FileManager.image P) filename
     /\ JsString.has_char "/" (FileManager.i_filename (FileManager.image P))
        = false
     /\ JsString.has_char "\" (FileManager.i_filename (FileManager.image P))
        = false)
  /\ (forall t,
        FileManager.translation P = Some t ->
        FileManager.hasTranslation P = true
        /\ FileManager.isValidMokuroJSON (FileManager.t_data t) = Ok true
        /\ exists filename zipEntry text,
             In (filename, zipEntry) zipData
             /\ FileUtils.isJSON filename = true
             /\ FileManager.t_filename t = FileManager.cleanFilename filename
             /\ FileManager.async_text zipEntry = Ok text
             /\ JSON_parse text = Some (FileManager.t_data t)).
Proof.
  rewrite extractFiles_files. intros HP.
  pose proof HP as Hpage.
  apply page_of_matchFiles in HP as [Himg Htrans].
  cbn [FileManager.images FileManager.translations] in Himg, Htrans.
  split.
  - apply list_elem_of_In, list_elem_of_omap in Himg
      as ([filename zipEntry] & Hentry & Haccepted).
    exists filename, zipEntry.
    pose proof (acceptedImage_records _ _ Haccepted) as Hrec.
    cbn [fst] in Hrec.
    split; [now apply list_elem_of_In|]. split.
    + unfold acceptedImage in Haccepted.
      destruct (FileManager.dir zipEntry); [discriminate | reflexivity].
    + split; [exact Hrec|].
      destruct Hrec as (_ & _ & -> & _). apply cleanFilename_clean.
  - intros t Ht. split.
    + rewrite matched_matchFiles in Hpage.
      apply list_elem_of_In, list_elem_of_lookup in Hpage as [k Hk].
      rewrite list_lookup_imap in Hk.
      destruct (_ !! k) as [x|]; [|discriminate]. injection Hk as <-.
      cbn [pageOf FileManager.translation FileManager.hasTranslation] in *.
      now rewrite Ht.
    + rewrite Htrans in Ht. apply findMatchingTranslation_member in Ht.
      apply list_elem_of_In, list_elem_of_omap in Ht
        as ([filename zipEntry] & Hentry & Haccepted).
      apply acceptedTranslation_records in Haccepted
        as (Hvalid & Hjson & Hname & _ & text & Htext & Hparse & _).
      cbn [fst snd] in *. split; [exact Hvalid|].
      exists filename, zipEntry, text.
      split; [now apply list_elem_of_In|]. now split_and!.
Qed.

Lemma pages_come_from_entries_witness :
  exists filename zipEntry,
    In (filename, zipEntry) fuzzyArchive
    /\ recordsImage
         (FileManager.imageData "Page_05.png" {| FileManager.blob_size := 1000 |})
         filename.
Proof.
  destruct (pages_come_from_entries sampleParse codeUnitCompare fuzzyArchive
              (pageOf
                 (FileManager.translations
                    (snd (FileManager.extractFiles sampleParse fuzzyArchive
                            FileManager.noFiles)))
                 0
                 (FileManager.imageData "Page_05.png"
                    {| FileManager.blob_size := 1000 |})))
    as [(filename & zipEntry & Hin & _ & Hrec & _) _].
  - vm_compute. left. reflexivity.
  - exists filename, zipEntry. split; [exact Hin | exact Hrec].
Defined.
